(** * MySQL-to-MariaDB 10.3 conversion engine: model and verified properties

    The engine is the function [convertMySQLToMariaDB] of the repository.  It
    exists there in several copies of different age; the specification follows
    the most complete one, the engine that starts at line 120 of
    [src/client/src/pages/converter.tsx] (with [getLineNumber] at line 1202 and
    [addIssue] at line 1213).  That copy is the one embedded here, rule by rule
    and in source order.  Where an older copy ([src/unnamed/part_002],
    [src/client/src/lib/sql-converter.ts]) differs on a point a property
    depends on, the older rule is embedded next to it in [Module Legacy].

    A JavaScript string is modelled as the list of its code units, a code unit
    as an [ascii] (code units below 256).  Regular expressions are modelled by
    a backtracking matcher that follows the ECMAScript matcher semantics
    (continuation passing, greedy and lazy quantifiers with the empty-iteration
    check, capture groups, assertions, negative lookahead), and
    [String.prototype.replace] with a global regular expression and a callback
    by a left-to-right scan that threads the issue list and the counters
    through the callback. *)

From Stdlib Require Import Ascii String List Bool Arith NArith ZArith Lia.
Import ListNotations.

Set Implicit Arguments.

(* ------------------------------------------------------------------ *)
(** ** JavaScript strings *)
(* ------------------------------------------------------------------ *)

Definition jsstring := list ascii.

Definition js (s : string) : jsstring := list_ascii_of_string s.
Arguments js s%_string.

Definition nl : ascii := ascii_of_nat 10.
Definition dq : ascii := ascii_of_nat 34.
Definition sq : ascii := ascii_of_nat 39.
Definition bt : ascii := ascii_of_nat 96.

Definition code (c : ascii) : N := N_of_ascii c.

Definition in_range (lo hi : N) (c : ascii) : bool :=
  (N.leb lo (code c) && N.leb (code c) hi)%bool.

Definition is_digit (c : ascii) : bool := in_range 48 57 c.
Definition is_upper (c : ascii) : bool := in_range 65 90 c.
Definition is_lower (c : ascii) : bool := in_range 97 122 c.

(** [\w]: the basic word characters [A-Za-z0-9_]. *)
Definition is_word (c : ascii) : bool :=
  (is_digit c || is_upper c || is_lower c || N.eqb (code c) 95)%bool.

(** [\s] and the characters removed by [trim]: white space and line
    terminators among the code units below 256. *)
Definition is_space (c : ascii) : bool :=
  (in_range 9 13 c || N.eqb (code c) 32 || N.eqb (code c) 160)%bool.

(** Line terminators: what [.] refuses and what [^] follows under the [m]
    flag. *)
Definition is_lineterm (c : ascii) : bool :=
  (N.eqb (code c) 10 || N.eqb (code c) 13)%bool.

Definition upper_char (c : ascii) : ascii :=
  if is_lower c then ascii_of_N (code c - 32) else c.

Definition lower_char (c : ascii) : ascii :=
  if is_upper c then ascii_of_N (code c + 32) else c.

(** [toUpperCase] and [toLowerCase].  The engine applies them to text it then
    compares with ASCII words only ([KEY], [ngram], [json], [commit]); on the
    ASCII letters they are exact, and no other code unit below 256 is mapped
    to an ASCII letter by the JavaScript functions. *)
Definition toUpperCase (s : jsstring) : jsstring := map upper_char s.
Definition toLowerCase (s : jsstring) : jsstring := map lower_char s.

Definition eqb_char (a b : ascii) : bool := N.eqb (code a) (code b).

(** Equality of characters under the [i] flag (both sides canonicalised). *)
Definition eqb_ci (a b : ascii) : bool := eqb_char (upper_char a) (upper_char b).

Fixpoint eqb_str (a b : jsstring) : bool :=
  match a, b with
  | [], [] => true
  | x :: a', y :: b' => eqb_char x y && eqb_str a' b'
  | _, _ => false
  end.

Fixpoint starts_with (p s : jsstring) : bool :=
  match p, s with
  | [], _ => true
  | x :: p', y :: s' => eqb_char x y && starts_with p' s'
  | _ :: _, [] => false
  end.

(** [s.includes(p)]. *)
Fixpoint includes (s p : jsstring) : bool :=
  starts_with p s ||
  match s with
  | [] => false
  | _ :: s' => includes s' p
  end.

(** [s.indexOf(p)], [None] standing for [-1]. *)
Fixpoint indexOf (s p : jsstring) : option nat :=
  if starts_with p s then Some 0
  else match s with
       | [] => None
       | _ :: s' => option_map S (indexOf s' p)
       end.

(** [s.substring(a, b)] for [a <= b]. *)
Definition substring (s : jsstring) (a b : nat) : jsstring :=
  firstn (b - a) (skipn a s).

Fixpoint trim_start (s : jsstring) : jsstring :=
  match s with
  | c :: s' => if is_space c then trim_start s' else s
  | [] => []
  end.

Definition trim (s : jsstring) : jsstring :=
  rev (trim_start (rev (trim_start s))).

(** [s.split('\n')]. *)
Fixpoint split_lines_aux (cur : jsstring) (s : jsstring) : list jsstring :=
  match s with
  | [] => [rev cur]
  | c :: s' =>
      if eqb_char c nl then rev cur :: split_lines_aux [] s'
      else split_lines_aux (c :: cur) s'
  end.

Definition split_lines (s : jsstring) : list jsstring := split_lines_aux [] s.

(** Results of code that can throw: [Throw] stands for a JavaScript
    [TypeError] (a method called on [undefined]). *)
Inductive result (A : Type) : Type :=
| Ok (a : A)
| Throw.
Arguments Ok {A} a.
Arguments Throw {A}.

Definition bind {A B : Type} (r : result A) (f : A -> result B) : result B :=
  match r with
  | Ok a => f a
  | Throw => Throw
  end.

Notation "x <- c ;; k" := (bind c (fun x => k))
  (at level 61, c at next level, right associativity).
Notation "' p <- c ;; k" := (bind c (fun x => let p := x in k))
  (at level 61, p pattern, c at next level, right associativity).

(** A method call on a value that may be [undefined]. *)
Definition on_defined {A : Type} (v : option jsstring) (f : jsstring -> A) : result A :=
  match v with
  | Some s => Ok (f s)
  | None => Throw
  end.

(** Interpolation of a possibly undefined value in a template literal. *)
Definition interp (v : option jsstring) : jsstring :=
  match v with
  | Some s => s
  | None => js "undefined"
  end.

(** [v || ''] on a possibly undefined value (the empty string is falsy). *)
Definition or_empty (v : option jsstring) : jsstring :=
  match v with
  | Some s => s
  | None => []
  end.

(** Truthiness of a possibly undefined string. *)
Definition truthy (v : option jsstring) : bool :=
  match v with
  | Some (_ :: _) => true
  | _ => false
  end.

(* ------------------------------------------------------------------ *)
(** ** Regular expressions *)
(* ------------------------------------------------------------------ *)

(** The patterns of the engine use: single-character matchers (literals,
    classes, escapes), sequence, alternation, the quantifiers [*], [+], [?]
    and their lazy forms, capture groups, the assertions [\b], [^], [$] and
    negative lookahead.  A single-character matcher is a predicate; the [i]
    flag is part of the predicate (see [chi]). *)
Inductive regex : Type :=
| Eps
| Chr (p : ascii -> bool)
| Seq (a b : regex)
| Alt (a b : regex)
| Star (greedy : bool) (a : regex)
| Opt (a : regex)
| Group (n : nat) (a : regex)
| WordB
| Bol (multiline : bool)
| Eol
| NegLook (a : regex).

(** Matcher state: the input as a zipper ([pre] holds the text before the
    current position, last character first) and the captures so far. *)
Record mstate : Type := MState {
  pre : list ascii;
  rest : list ascii;
  caps : list (nat * jsstring)
}.

Fixpoint cap_lookup (cs : list (nat * jsstring)) (n : nat) : option jsstring :=
  match cs with
  | [] => None
  | (k, v) :: cs' => if Nat.eqb k n then Some v else cap_lookup cs' n
  end.

Definition advance (x : mstate) (c : ascii) (t : list ascii) : mstate :=
  MState (c :: pre x) t (caps x).

(** Text consumed between state [x] and a later state [y]. *)
Definition consumed (x y : mstate) : jsstring :=
  firstn (length (rest x) - length (rest y)) (rest x).

Definition moved (x y : mstate) : bool :=
  Nat.ltb (length (rest y)) (length (rest x)).

Definition word_before (x : mstate) : bool :=
  match pre x with
  | c :: _ => is_word c
  | [] => false
  end.

Definition word_after (x : mstate) : bool :=
  match rest x with
  | c :: _ => is_word c
  | [] => false
  end.

Definition at_bol (multiline : bool) (x : mstate) : bool :=
  match pre x with
  | [] => true
  | c :: _ => multiline && is_lineterm c
  end.

Definition at_eol (x : mstate) : bool :=
  match rest x with
  | [] => true
  | _ :: _ => false
  end.

(** The loop of a starred pattern.  [ma] matches the body once; an iteration
    that consumes nothing is refused, so the number of iterations is bounded by
    the length of the remaining input, which is the fuel [n]. *)
Fixpoint star_loop (ma : mstate -> (mstate -> option mstate) -> option mstate)
         (greedy : bool) (k : mstate -> option mstate) (n : nat) (x : mstate)
         {struct n} : option mstate :=
  match n with
  | 0 => k x
  | S n' =>
      let iter := fun _ : unit =>
        ma x (fun y => if moved x y then star_loop ma greedy k n' y else None) in
      if greedy then
        match iter tt with
        | Some z => Some z
        | None => k x
        end
      else
        match k x with
        | Some z => Some z
        | None => iter tt
        end
  end.

(** The matcher, in continuation-passing style as in the language
    definition: [mtch r x k] matches [r] at [x] and hands every end state, in
    priority order, to [k] until [k] accepts one. *)
Fixpoint mtch (r : regex) (x : mstate) (k : mstate -> option mstate) {struct r}
  : option mstate :=
  match r with
  | Eps => k x
  | Chr p =>
      match rest x with
      | c :: t => if p c then k (advance x c t) else None
      | [] => None
      end
  | Seq a b => mtch a x (fun y => mtch b y k)
  | Alt a b =>
      match mtch a x k with
      | Some z => Some z
      | None => mtch b x k
      end
  | Star greedy a => star_loop (mtch a) greedy k (length (rest x)) x
  | Opt a =>
      match mtch a x (fun y => if moved x y then k y else None) with
      | Some z => Some z
      | None => k x
      end
  | Group n a =>
      mtch a x (fun y => k (MState (pre y) (rest y) ((n, consumed x y) :: caps y)))
  | WordB => if xorb (word_before x) (word_after x) then k x else None
  | Bol ml => if at_bol ml x then k x else None
  | Eol => if at_eol x then k x else None
  | NegLook a =>
      match mtch a x (fun y => Some y) with
      | Some _ => None
      | None => k x
      end
  end.

(** One match attempt at the position [(before, after)] of the input. *)
Definition exec_at (r : regex) (before after : list ascii) : option mstate :=
  mtch r (MState before after []) (fun y => Some y).

(** What a replace callback receives: the matched text, the capture groups,
    the offset of the match and the whole string being searched. *)
Record match_info : Type := MatchInfo {
  m_text : jsstring;
  m_caps : list (nat * jsstring);
  m_offset : nat;
  m_input : jsstring
}.

Definition grp (mi : match_info) (n : nat) : option jsstring :=
  cap_lookup (m_caps mi) n.

(** Length of the match that starts with [after] left and ends in [y]. *)
Definition match_length (after : list ascii) (y : mstate) : nat :=
  length after - length (rest y).
Arguments match_length : simpl never.

Definition info_of (before after : list ascii) (y : mstate) : match_info :=
  MatchInfo (firstn (match_length after y) after)
            (caps y) (length before) (rev before ++ after).

(** [r.test(s)]: is there a match starting at some position of [s]. *)
Fixpoint test_from (r : regex) (before after : list ascii) : bool :=
  match exec_at r before after with
  | Some _ => true
  | None =>
      match after with
      | [] => false
      | c :: t => test_from r (c :: before) t
      end
  end.

Definition test (r : regex) (s : jsstring) : bool := test_from r [] s.

Section Replace.
Variable St : Type.

Definition callback : Type := match_info -> St -> result (jsstring * St).

(** [s.replace(r, cb)] for a global [r].  [skip] counts the characters of
    the current match still to be passed over; after an empty match the
    search resumes one character further on, and the character in between
    is copied. *)
Fixpoint replace_from (r : regex) (cb : callback)
         (before after : list ascii) (skip : nat) (st : St)
  : result (jsstring * St) :=
  match after with
  | [] =>
      match exec_at r before [] with
      | Some y => cb (info_of before [] y) st
      | None => Ok ([], st)
      end
  | c :: t =>
      match skip with
      | S k => replace_from r cb (c :: before) t k st
      | 0 =>
          match exec_at r before after with
          | None =>
              ' (out, st') <- replace_from r cb (c :: before) t 0 st ;;
              Ok (c :: out, st')
          | Some y =>
              ' (rep, st1) <- cb (info_of before after y) st ;;
              match match_length after y with
              | 0 =>
                  ' (out, st2) <- replace_from r cb (c :: before) t 0 st1 ;;
                  Ok (rep ++ c :: out, st2)
              | S k =>
                  ' (out, st2) <- replace_from r cb (c :: before) t k st1 ;;
                  Ok (rep ++ out, st2)
              end
          end
      end
  end.

Definition replace (r : regex) (cb : callback) (s : jsstring) (st : St)
  : result (jsstring * St) :=
  replace_from r cb [] s 0 st.
End Replace.

(** [s.replace(r, f)] for a global [r] and a pure replacement function. *)
Definition replace_pure (r : regex) (f : match_info -> jsstring) (s : jsstring)
  : jsstring :=
  match replace r (fun mi (_ : unit) => Ok (f mi, tt)) s tt with
  | Ok (out, _) => out
  | Throw => s
  end.

(** [s.replace(r, t)] for a regular expression without the [g] flag: the first
    match only. *)
Fixpoint replace_first_from (r : regex) (t : jsstring) (before after : list ascii)
  : jsstring :=
  match exec_at r before after with
  | Some y => t ++ rest y
  | None =>
      match after with
      | [] => []
      | c :: after' => c :: replace_first_from r t (c :: before) after'
      end
  end.

Definition replace_first (r : regex) (t : jsstring) (s : jsstring) : jsstring :=
  replace_first_from r t [] s.

(** *** Pattern notation *)

Definition ch (c : ascii) : regex := Chr (eqb_char c).
Definition chi (c : ascii) : regex := Chr (eqb_ci c).

Fixpoint seq_of (f : ascii -> regex) (s : jsstring) : regex :=
  match s with
  | [] => Eps
  | [c] => f c
  | c :: s' => Seq (f c) (seq_of f s')
  end.

(** A literal word of a pattern, without and with the [i] flag. *)
Definition lit (s : string) : regex := seq_of ch (js s).
Definition liti (s : string) : regex := seq_of chi (js s).
Arguments lit s%_string.
Arguments liti s%_string.

Definition star (a : regex) : regex := Star true a.
Definition lazy_star (a : regex) : regex := Star false a.
Definition plus (a : regex) : regex := Seq a (Star true a).

Definition ws : regex := Chr is_space.
Definition wordc : regex := Chr is_word.
Definition digit : regex := Chr is_digit.
Definition none_of (s : string) : regex :=
  Chr (fun c => negb (existsb (eqb_char c) (js s))).
Definition one_of (s : string) : regex :=
  Chr (fun c => existsb (eqb_char c) (js s)).
Arguments none_of s%_string.
Arguments one_of s%_string.

Declare Scope re_scope.
Delimit Scope re_scope with re.
Bind Scope re_scope with regex.
Notation "a ;; b" := (Seq a b) (at level 61, right associativity) : re_scope.
Notation "a <|> b" := (Alt a b) (at level 62, right associativity) : re_scope.

Definition sp : regex := plus ws.
Definition sp0 : regex := star ws.
Definition any_char : regex := Chr (fun _ => true).
Definition not_space : regex := Chr (fun c => negb (is_space c)).
Definition quote : regex := Chr (fun c => eqb_char c sq || eqb_char c dq).
Definition not_quote : regex := Chr (fun c => negb (eqb_char c sq || eqb_char c dq)).
Definition word_or (s : string) : regex :=
  Chr (fun c => is_word c || existsb (eqb_char c) (js s)).
Arguments word_or s%_string.

(* ------------------------------------------------------------------ *)
(** ** Data model *)
(* ------------------------------------------------------------------ *)

Inductive IssueType : Type := warning | error | info.
Inductive Category : Type := syntax | compatibility | optimization.

Record ConversionIssue : Type := Issue {
  lineNumber : option nat;
  issueType : IssueType;
  category : Category;
  description : jsstring;
  originalText : option jsstring;
  convertedText : option jsstring;
  autoFixed : bool
}.

(** [interface ConversionStats]; its field [autoFixed] is [autoFixedCount]
    here, the name [autoFixed] being the field of [ConversionIssue]. *)
Record ConversionStats : Type := Stats {
  totalIssues : nat;
  autoFixedCount : nat;
  warningsCount : nat;
  errorsCount : nat;
  optimizationsCount : nat
}.

Record ConversionResult : Type := Result {
  convertedSQL : jsstring;
  res_issues : list ConversionIssue;
  res_stats : ConversionStats
}.

(** The two accumulators every rule closes over: [issues] and [stats]. *)
Record estate : Type := EState {
  issues : list ConversionIssue;
  stats : ConversionStats
}.

Definition init_stats : ConversionStats := Stats 0 0 0 0 0.
Definition init_state : estate := EState [] init_stats.

Definition push (i : ConversionIssue) (st : estate) : estate :=
  EState (issues st ++ [i]) (stats st).

Definition inc_autoFixed (st : estate) : estate :=
  let s := stats st in
  EState (issues st)
    (Stats (totalIssues s) (S (autoFixedCount s)) (warningsCount s)
           (errorsCount s) (optimizationsCount s)).

Definition inc_warnings (st : estate) : estate :=
  let s := stats st in
  EState (issues st)
    (Stats (totalIssues s) (autoFixedCount s) (S (warningsCount s))
           (errorsCount s) (optimizationsCount s)).

Definition inc_errors (st : estate) : estate :=
  let s := stats st in
  EState (issues st)
    (Stats (totalIssues s) (autoFixedCount s) (warningsCount s)
           (S (errorsCount s)) (optimizationsCount s)).

Definition inc_optimizations (st : estate) : estate :=
  let s := stats st in
  EState (issues st)
    (Stats (totalIssues s) (autoFixedCount s) (warningsCount s)
           (errorsCount s) (S (optimizationsCount s))).

(** [addIssue(issues, stats, issue)]. *)
Definition addIssue (issue : ConversionIssue) (st : estate) : estate :=
  let st := push issue st in
  let st := if autoFixed issue then inc_autoFixed st else st in
  match issueType issue with
  | warning => inc_warnings st
  | error => inc_errors st
  | info => inc_optimizations st
  end.

(** The two hand-written forms of the older rules:
    [issues.push(i); stats.warningsCount++; stats.autoFixed++] and the same
    with [optimizationsCount]. *)
Definition push_warning_fixed (i : ConversionIssue) (st : estate) : estate :=
  inc_autoFixed (inc_warnings (push i st)).

Definition push_optimization_fixed (i : ConversionIssue) (st : estate) : estate :=
  inc_autoFixed (inc_optimizations (push i st)).

(** [getLineNumber(content, searchText)]. *)
Definition getLineNumber (content searchText : jsstring) : nat :=
  match indexOf content searchText with
  | None => 1
  | Some index => length (split_lines (substring content 0 index))
  end.

(** [str.substring(Math.max(0, offset - n), offset)]. *)
Definition lookback (n : nat) (mi : match_info) : jsstring :=
  substring (m_input mi) (m_offset mi - n) (m_offset mi).

Definition re_create_table : regex :=
  (liti "CREATE" ;; sp ;; liti "TABLE")%re.

Definition re_create_or_alter_table : regex :=
  ((liti "CREATE" ;; sp ;; liti "TABLE") <|> (liti "ALTER" ;; sp ;; liti "TABLE"))%re.

(* ------------------------------------------------------------------ *)
(** ** The rules, in source order *)
(* ------------------------------------------------------------------ *)

Section Rules.
(** The original input; every rule looks line numbers up in it. *)
Variable sqlContent : jsstring.

Local Open Scope re_scope.

(** *** Collation names ([mysqlCollationMap], in insertion order) *)

Definition entry (mysqlCollation mariadbCollation : string) : string * string :=
  (mysqlCollation, mariadbCollation).
Arguments entry (mysqlCollation mariadbCollation)%_string.

Definition mysqlCollationMap : list (string * string) :=
  [ entry "utf8mb4_0900_ai_ci" "utf8mb4_unicode_ci";
    entry "utf8mb4_0900_as_ci" "utf8mb4_unicode_ci";
    entry "utf8mb4_0900_as_cs" "utf8mb4_bin";
    entry "utf8mb4_0900_bin" "utf8mb4_bin";
    entry "utf8mb4_cs_0900_ai_ci" "utf8mb4_unicode_ci";
    entry "utf8mb4_cs_0900_as_cs" "utf8mb4_bin";
    entry "utf8mb4_da_0900_ai_ci" "utf8mb4_unicode_ci";
    entry "utf8mb4_da_0900_as_cs" "utf8mb4_bin";
    entry "utf8mb4_de_pb_0900_ai_ci" "utf8mb4_unicode_ci";
    entry "utf8mb4_de_pb_0900_as_cs" "utf8mb4_bin";
    entry "utf8mb4_eo_0900_ai_ci" "utf8mb4_unicode_ci";
    entry "utf8mb4_eo_0900_as_cs" "utf8mb4_bin";
    entry "utf8mb4_es_0900_ai_ci" "utf8mb4_unicode_ci";
    entry "utf8mb4_es_0900_as_cs" "utf8mb4_bin";
    entry "utf8mb4_es_trad_0900_ai_ci" "utf8mb4_unicode_ci";
    entry "utf8mb4_es_trad_0900_as_cs" "utf8mb4_bin";
    entry "utf8mb4_et_0900_ai_ci" "utf8mb4_unicode_ci";
    entry "utf8mb4_et_0900_as_cs" "utf8mb4_bin";
    entry "utf8mb4_hr_0900_ai_ci" "utf8mb4_unicode_ci";
    entry "utf8mb4_hr_0900_as_cs" "utf8mb4_bin";
    entry "utf8mb4_hu_0900_ai_ci" "utf8mb4_unicode_ci";
    entry "utf8mb4_hu_0900_as_cs" "utf8mb4_bin";
    entry "utf8mb4_is_0900_ai_ci" "utf8mb4_unicode_ci";
    entry "utf8mb4_is_0900_as_cs" "utf8mb4_bin";
    entry "utf8mb4_ja_0900_as_cs" "utf8mb4_bin";
    entry "utf8mb4_ja_0900_as_cs_ks" "utf8mb4_bin";
    entry "utf8mb4_la_0900_ai_ci" "utf8mb4_unicode_ci";
    entry "utf8mb4_la_0900_as_cs" "utf8mb4_bin";
    entry "utf8mb4_lt_0900_ai_ci" "utf8mb4_unicode_ci";
    entry "utf8mb4_lt_0900_as_cs" "utf8mb4_bin";
    entry "utf8mb4_lv_0900_ai_ci" "utf8mb4_unicode_ci";
    entry "utf8mb4_lv_0900_as_cs" "utf8mb4_bin";
    entry "utf8mb4_pl_0900_ai_ci" "utf8mb4_unicode_ci";
    entry "utf8mb4_pl_0900_as_cs" "utf8mb4_bin";
    entry "utf8mb4_ro_0900_ai_ci" "utf8mb4_unicode_ci";
    entry "utf8mb4_ro_0900_as_cs" "utf8mb4_bin";
    entry "utf8mb4_ru_0900_ai_ci" "utf8mb4_unicode_ci";
    entry "utf8mb4_ru_0900_as_cs" "utf8mb4_bin";
    entry "utf8mb4_sk_0900_ai_ci" "utf8mb4_unicode_ci";
    entry "utf8mb4_sk_0900_as_cs" "utf8mb4_bin";
    entry "utf8mb4_sl_0900_ai_ci" "utf8mb4_unicode_ci";
    entry "utf8mb4_sl_0900_as_cs" "utf8mb4_bin";
    entry "utf8mb4_sv_0900_ai_ci" "utf8mb4_unicode_ci";
    entry "utf8mb4_sv_0900_as_cs" "utf8mb4_bin";
    entry "utf8mb4_tr_0900_ai_ci" "utf8mb4_unicode_ci";
    entry "utf8mb4_tr_0900_as_cs" "utf8mb4_bin";
    entry "utf8mb4_vi_0900_ai_ci" "utf8mb4_unicode_ci";
    entry "utf8mb4_vi_0900_as_cs" "utf8mb4_bin";
    entry "utf8mb4_zh_0900_as_cs" "utf8mb4_bin";
    entry "utf8_0900_ai_ci" "utf8mb4_unicode_ci";
    entry "utf8_0900_as_ci" "utf8mb4_unicode_ci";
    entry "utf8_0900_as_cs" "utf8mb4_bin";
    entry "utf8_0900_bin" "utf8mb4_bin" ].

(** [new RegExp(`\\b${mysqlCollation}\\b`, 'gi')] *)
Definition re_collation (mysqlCollation : string) : regex :=
  WordB ;; liti mysqlCollation ;; WordB.

Definition cb_collation (mariadbCollation : string) : callback estate :=
  fun mi st =>
    let lineNumber := getLineNumber sqlContent (m_text mi) in
    Ok (js mariadbCollation,
        addIssue {| lineNumber := Some lineNumber;
                    issueType := warning;
                    category := compatibility;
                    description :=
                      js "Replaced MySQL 8.0+ collation " ++ m_text mi ++
                      js " with MariaDB 10.3 compatible " ++ js mariadbCollation;
                    originalText := Some (m_text mi);
                    convertedText := Some (js mariadbCollation);
                    autoFixed := true |} st).

(** *** [SET NAMES]: [/SET\s+NAMES\s+utf8\b(?!\s*mb4)/gi] *)
Definition re_set_names : regex :=
  liti "SET" ;; sp ;; liti "NAMES" ;; sp ;; liti "utf8" ;; WordB ;;
  NegLook (sp0 ;; liti "mb4").

Definition cb_set_names : callback estate :=
  fun mi st =>
    let lineNumber := getLineNumber sqlContent (m_text mi) in
    let replacement := js "SET NAMES utf8mb4" in
    Ok (replacement,
        addIssue {| lineNumber := Some lineNumber;
                    issueType := warning;
                    category := compatibility;
                    description :=
                      js "Upgraded SET NAMES utf8 to utf8mb4 for consistent character set handling";
                    originalText := Some (m_text mi);
                    convertedText := Some replacement;
                    autoFixed := true |} st).

(** *** [DEFINER]: [/DEFINER\s*=\s*[^@]*@[^\s]*\s+/gi] *)
Definition re_definer : regex :=
  liti "DEFINER" ;; sp0 ;; ch "=" ;; sp0 ;; star (none_of "@") ;; ch "@" ;;
  star not_space ;; sp.

Definition cb_definer : callback estate :=
  fun mi st =>
    let lineNumber := getLineNumber sqlContent (m_text mi) in
    Ok ([],
        addIssue {| lineNumber := Some lineNumber;
                    issueType := warning;
                    category := compatibility;
                    description :=
                      js "Removed DEFINER clause to prevent import failures due to missing user accounts";
                    originalText := Some (trim (m_text mi));
                    convertedText := Some (js "-- Removed DEFINER");
                    autoFixed := true |} st).

(** *** Dump comments:
    [/-- Dumping\s+(structure|data)\s+for\s+table[^\n]*\n/gi] *)
Definition re_dump_comment : regex :=
  liti "-- Dumping" ;; sp ;; Group 1 (liti "structure" <|> liti "data") ;; sp ;;
  liti "for" ;; sp ;; liti "table" ;;
  star (Chr (fun c => negb (eqb_char c nl))) ;; ch nl.

Definition cb_dump_comment : callback estate :=
  fun mi st =>
    let lineNumber := getLineNumber sqlContent (m_text mi) in
    Ok ([],
        addIssue {| lineNumber := Some lineNumber;
                    issueType := info;
                    category := compatibility;
                    description := js "Removed HeidiSQL dump comment for cleaner structure";
                    originalText := Some (trim (m_text mi));
                    convertedText := Some (js "-- Table structure cleaned");
                    autoFixed := true |} st).

(** *** Version comments: [/\/\*!(\d+)\s+([\s\S]*?)\*\//g] *)
Definition re_version_comment : regex :=
  lit "/*!" ;; Group 1 (plus digit) ;; sp ;; Group 2 (lazy_star any_char) ;;
  lit "*/".

(** [problematicHints]:
    [/^@@/i], [/^SET\s+@@/i], [/USE_INDEX/i], [/FORCE_INDEX/i],
    [/IGNORE_INDEX/i], [/SQL_CALC_FOUND_ROWS/i]. *)
Definition problematicHints : list regex :=
  [ Bol false ;; lit "@@";
    Bol false ;; liti "SET" ;; sp ;; lit "@@";
    liti "USE_INDEX";
    liti "FORCE_INDEX";
    liti "IGNORE_INDEX";
    liti "SQL_CALC_FOUND_ROWS" ].

Definition isProblematic (trimmedContent : jsstring) : bool :=
  existsb (fun pattern => test pattern trimmedContent) problematicHints.

Definition cb_version_comment : callback estate :=
  fun mi st =>
    let lineNumber := getLineNumber sqlContent (m_text mi) in
    trimmedContent <- on_defined (grp mi 2) trim ;;
    if isProblematic trimmedContent then
      Ok ([],
          addIssue {| lineNumber := Some lineNumber;
                      issueType := warning;
                      category := compatibility;
                      description :=
                        js "Removed problematic MySQL-specific optimizer hint or setting";
                      originalText := Some (m_text mi);
                      convertedText := Some (js "-- Removed problematic hint");
                      autoFixed := true |} st)
    else
      Ok (m_text mi,
          addIssue {| lineNumber := Some lineNumber;
                      issueType := info;
                      category := compatibility;
                      description :=
                        js "MySQL version comment preserved with conditional semantics for compatibility";
                      originalText := Some (m_text mi);
                      convertedText := None;
                      autoFixed := false |} st).

(** *** [CREATE TABLE IF NOT EXISTS]:
    [/CREATE\s+TABLE\s+IF\s+NOT\s+EXISTS\s+((?:`[^`]+`\.)?`[^`]+`|\w+)/gi] *)
Definition re_create_if_not_exists : regex :=
  liti "CREATE" ;; sp ;; liti "TABLE" ;; sp ;; liti "IF" ;; sp ;; liti "NOT" ;;
  sp ;; liti "EXISTS" ;; sp ;;
  Group 1 ((Opt (ch bt ;; plus (none_of "`") ;; ch bt ;; ch ".") ;;
            ch bt ;; plus (none_of "`") ;; ch bt)
           <|> plus wordc).

Definition cb_create_if_not_exists : callback estate :=
  fun mi st =>
    let lineNumber := getLineNumber sqlContent (m_text mi) in
    Ok (m_text mi,
        addIssue {| lineNumber := Some lineNumber;
                    issueType := info;
                    category := compatibility;
                    description :=
                      js "CREATE TABLE IF NOT EXISTS is supported in MariaDB 10.3 - keeping original syntax for data safety";
                    originalText := Some (m_text mi);
                    convertedText := None;
                    autoFixed := false |} st).

(** *** [latin1]: [/CHARSET=latin1\s+COLLATE=latin1_swedish_ci/gi] *)
Definition re_latin1 : regex :=
  liti "CHARSET=latin1" ;; sp ;; liti "COLLATE=latin1_swedish_ci".

Definition cb_latin1 : callback estate :=
  fun mi st =>
    let lineNumber := getLineNumber sqlContent (m_text mi) in
    let replacement := js "CHARSET=utf8mb4 COLLATE=utf8mb4_general_ci" in
    Ok (replacement,
        push_warning_fixed
          {| lineNumber := Some lineNumber;
             issueType := warning;
             category := compatibility;
             description :=
               js "Converted latin1_swedish_ci to utf8mb4_general_ci for better MariaDB compatibility";
             originalText := Some (m_text mi);
             convertedText := Some replacement;
             autoFixed := true |} st).

(** *** [USING BTREE]: [/\s+USING\s+BTREE/gi] *)
Definition re_using_btree : regex :=
  sp ;; liti "USING" ;; sp ;; liti "BTREE".

Definition cb_using_btree : callback estate :=
  fun mi st =>
    let lineNumber := getLineNumber sqlContent (m_text mi) in
    Ok ([],
        push_optimization_fixed
          {| lineNumber := Some lineNumber;
             issueType := info;
             category := compatibility;
             description := js "Removed USING BTREE index hint for MariaDB compatibility";
             originalText := Some (trim (m_text mi));
             convertedText := Some (js "-- Removed index hint");
             autoFixed := true |} st).

(** *** [local_infile]:
    [/SET\s+@@global\.local_infile\s*=\s*[^;]+;?\s*/gi] *)
Definition re_local_infile : regex :=
  liti "SET" ;; sp ;; liti "@@global.local_infile" ;; sp0 ;; ch "=" ;; sp0 ;;
  plus (none_of ";") ;; Opt (ch ";") ;; sp0.

Definition cb_local_infile : callback estate :=
  fun mi st =>
    let lineNumber := getLineNumber sqlContent (m_text mi) in
    Ok (js "-- " ++ trim (m_text mi) ++ js " -- Removed for MariaDB compatibility" ++ [nl],
        push_warning_fixed
          {| lineNumber := Some lineNumber;
             issueType := warning;
             category := compatibility;
             description :=
               js "Removed MySQL-specific @@global.local_infile setting not compatible with MariaDB";
             originalText := Some (trim (m_text mi));
             convertedText := Some (js "-- Removed MySQL-specific setting");
             autoFixed := true |} st).

(** *** [FOREIGN_KEY_CHECKS]:
    [/SET\s+FOREIGN_KEY_CHECKS\s*=\s*([01]);?\s*/gi] *)
Definition re_foreign_key_checks : regex :=
  liti "SET" ;; sp ;; liti "FOREIGN_KEY_CHECKS" ;; sp0 ;; ch "=" ;; sp0 ;;
  Group 1 (one_of "01") ;; Opt (ch ";") ;; sp0.

Definition cb_foreign_key_checks : callback estate :=
  fun mi st =>
    let lineNumber := getLineNumber sqlContent (m_text mi) in
    let replacement := js "SET foreign_key_checks = " ++ interp (grp mi 1) ++ js ";" in
    Ok (replacement ++ [nl],
        push_optimization_fixed
          {| lineNumber := Some lineNumber;
             issueType := info;
             category := compatibility;
             description := js "Updated FOREIGN_KEY_CHECKS syntax for MariaDB compatibility";
             originalText := Some (trim (m_text mi));
             convertedText := Some replacement;
             autoFixed := true |} st).

(** *** [SQL_MODE]: [/SET\s+SQL_MODE\s*=\s*[Q]([^Q]*?)[Q];?\s*/gi], where
    [Q] stands for the two quote characters (single and double) *)
Definition re_sql_mode : regex :=
  liti "SET" ;; sp ;; liti "SQL_MODE" ;; sp0 ;; ch "=" ;; sp0 ;; quote ;;
  Group 1 (lazy_star not_quote) ;; quote ;; Opt (ch ";") ;; sp0.

(** [mode.replace(/,?\s*NO_AUTO_CREATE_USER\s*,?/gi, '')
        .replace(/,?\s*NO_ENGINE_SUBSTITUTION\s*,?/gi, '')
        .replace(/^,+|,+$/g, '').replace(/,+/g, ',')] *)
Definition cleanMode (mode : jsstring) : jsstring :=
  let m1 := replace_pure (Opt (ch ",") ;; sp0 ;; liti "NO_AUTO_CREATE_USER" ;; sp0 ;; Opt (ch ","))
                         (fun _ => []) mode in
  let m2 := replace_pure (Opt (ch ",") ;; sp0 ;; liti "NO_ENGINE_SUBSTITUTION" ;; sp0 ;; Opt (ch ","))
                         (fun _ => []) m1 in
  let m3 := replace_pure ((Bol false ;; plus (ch ",")) <|> (plus (ch ",") ;; Eol))
                         (fun _ => []) m2 in
  replace_pure (plus (ch ",")) (fun _ => js ",") m3.

Definition cb_sql_mode : callback estate :=
  fun mi st =>
    let lineNumber := getLineNumber sqlContent (m_text mi) in
    cleanedMode <- on_defined (grp mi 1) cleanMode ;;
    let replacement := js "SET SQL_MODE = '" ++ cleanedMode ++ js "';" in
    Ok (replacement ++ [nl],
        push_warning_fixed
          {| lineNumber := Some lineNumber;
             issueType := warning;
             category := compatibility;
             description :=
               js "Cleaned SQL_MODE setting to remove MySQL-specific modes not available in MariaDB";
             originalText := Some (trim (m_text mi));
             convertedText := Some replacement;
             autoFixed := true |} st).

(** *** [LOCK TABLES]: [/(LOCK\s+TABLES[^;]+;)\s*/gi] *)
Definition re_lock_tables : regex :=
  Group 1 (liti "LOCK" ;; sp ;; liti "TABLES" ;; plus (none_of ";") ;; ch ";") ;; sp0.

Definition cb_lock_tables : callback estate :=
  fun mi st =>
    let lineNumber := getLineNumber sqlContent (m_text mi) in
    Ok (js "-- " ++ trim (m_text mi) ++ js " -- Review for MariaDB compatibility" ++ [nl],
        push_warning_fixed
          {| lineNumber := Some lineNumber;
             issueType := warning;
             category := compatibility;
             description :=
               js "Commented out LOCK TABLES statement - verify MariaDB compatibility";
             originalText := Some (trim (m_text mi));
             convertedText := Some (js "-- " ++ trim (m_text mi));
             autoFixed := true |} st).

(** *** [UNLOCK TABLES]: [/(UNLOCK\s+TABLES;)\s*/gi] *)
Definition re_unlock_tables : regex :=
  Group 1 (liti "UNLOCK" ;; sp ;; liti "TABLES;") ;; sp0.

Definition cb_unlock_tables : callback estate :=
  fun mi st =>
    let lineNumber := getLineNumber sqlContent (m_text mi) in
    Ok (js "-- " ++ trim (m_text mi) ++ js " -- Review for MariaDB compatibility" ++ [nl],
        push_warning_fixed
          {| lineNumber := Some lineNumber;
             issueType := warning;
             category := compatibility;
             description :=
               js "Commented out UNLOCK TABLES statement - verify MariaDB compatibility";
             originalText := Some (trim (m_text mi));
             convertedText := Some (js "-- " ++ trim (m_text mi));
             autoFixed := true |} st).

(** *** [DEFAULT CHARACTER SET]:
    [/DEFAULT\s+CHARACTER\s+SET\s+(\w+)(\s+COLLATE\s+\w+)?/gi] *)
Definition re_default_character_set : regex :=
  liti "DEFAULT" ;; sp ;; liti "CHARACTER" ;; sp ;; liti "SET" ;; sp ;;
  Group 1 (plus wordc) ;;
  Opt (Group 2 (sp ;; liti "COLLATE" ;; sp ;; plus wordc)).

Definition cb_default_character_set : callback estate :=
  fun mi st =>
    let lineNumber := getLineNumber sqlContent (m_text mi) in
    let replacement :=
      js "CHARACTER SET " ++ interp (grp mi 1) ++ or_empty (grp mi 2) in
    Ok (replacement,
        push_optimization_fixed
          {| lineNumber := Some lineNumber;
             issueType := info;
             category := compatibility;
             description :=
               js "Updated character set declaration for MariaDB 10.3 compatibility";
             originalText := Some (m_text mi);
             convertedText := Some replacement;
             autoFixed := true |} st).

(** *** [DEFAULT CHARSET]: [/DEFAULT\s+CHARSET\s*=\s*(\w+)/gi] *)
Definition re_default_charset : regex :=
  liti "DEFAULT" ;; sp ;; liti "CHARSET" ;; sp0 ;; ch "=" ;; sp0 ;;
  Group 1 (plus wordc).

Definition cb_default_charset : callback estate :=
  fun mi st =>
    let lineNumber := getLineNumber sqlContent (m_text mi) in
    let replacement := js "CHARACTER SET=" ++ interp (grp mi 1) in
    Ok (replacement,
        addIssue {| lineNumber := Some lineNumber;
                    issueType := warning;
                    category := syntax;
                    description :=
                      js "Converted DEFAULT CHARSET to CHARACTER SET for MariaDB compatibility";
                    originalText := Some (m_text mi);
                    convertedText := Some replacement;
                    autoFixed := true |} st).

(** *** [ENGINE=InnoDB]: [/ENGINE\s*=\s*InnoDB/gi] *)
Definition re_engine_innodb : regex :=
  liti "ENGINE" ;; sp0 ;; ch "=" ;; sp0 ;; liti "InnoDB".

Definition cb_engine_innodb : callback estate :=
  fun mi st =>
    let lineNumber := getLineNumber sqlContent (m_text mi) in
    Ok (m_text mi,
        addIssue {| lineNumber := Some lineNumber;
                    issueType := info;
                    category := compatibility;
                    description :=
                      js "Verified InnoDB engine declaration is MariaDB 10.3 compatible";
                    originalText := Some (m_text mi);
                    convertedText := Some (m_text mi);
                    autoFixed := true |} st).

(** *** [int(n)]: [/\b(int)\((\d+)\)/gi] *)
Definition re_int_width : regex :=
  WordB ;; Group 1 (liti "int") ;; ch "(" ;; Group 2 (plus digit) ;; ch ")".

Definition cb_int_width : callback estate :=
  fun mi st =>
    let lineNumber := getLineNumber sqlContent (m_text mi) in
    if match grp mi 2 with Some size => eqb_str size (js "11") | None => false end
    then
      let replacement := js "int" in
      Ok (replacement,
          addIssue {| lineNumber := Some lineNumber;
                      issueType := info;
                      category := optimization;
                      description :=
                        js "Simplified int(11) to int for better MariaDB 10.3 compatibility";
                      originalText := Some (m_text mi);
                      convertedText := Some replacement;
                      autoFixed := true |} st)
    else Ok (m_text mi, st).

(** *** Common table expressions:
    [/\bWITH\s+(RECURSIVE\s+)?([\w`]+)\s*\([^)]*\)\s*AS\s*\(/gi] *)
Definition re_cte : regex :=
  WordB ;; liti "WITH" ;; sp ;; Opt (Group 1 (liti "RECURSIVE" ;; sp)) ;;
  Group 2 (plus (word_or "`")) ;; sp0 ;; ch "(" ;; star (none_of ")") ;; ch ")" ;;
  sp0 ;; liti "AS" ;; sp0 ;; ch "(".

Definition cb_cte : callback estate :=
  fun mi st =>
    let lineNumber := getLineNumber sqlContent (m_text mi) in
    Ok (m_text mi,
        addIssue {| lineNumber := Some lineNumber;
                    issueType := warning;
                    category := compatibility;
                    description :=
                      js "CTE (Common Table Expression) detected" ++
                      (if truthy (grp mi 1) then js " with RECURSIVE" else []) ++
                      js " - MariaDB 10.3 has limited CTE support compared to MySQL 8.0. Verify compatibility.";
                    originalText := Some (trim (m_text mi));
                    convertedText := None;
                    autoFixed := false |} st).

(** *** Window functions:
    [new RegExp(`\\b${func}\\s*\\(.*?\\)\\s+OVER\\s*\\(`, 'gi')] *)
Definition windowFunctions : list string :=
  [ "ROW_NUMBER"; "RANK"; "DENSE_RANK"; "PERCENT_RANK"; "CUME_DIST"; "NTILE";
    "LAG"; "LEAD"; "FIRST_VALUE"; "LAST_VALUE"; "NTH_VALUE" ]%string.

Definition re_window (func : string) : regex :=
  WordB ;; liti func ;; sp0 ;; ch "(" ;;
  lazy_star (Chr (fun c => negb (is_lineterm c))) ;; ch ")" ;; sp ;;
  liti "OVER" ;; sp0 ;; ch "(".

Definition cb_window (func : string) : callback estate :=
  fun mi st =>
    let lineNumber := getLineNumber sqlContent (m_text mi) in
    Ok (m_text mi,
        addIssue {| lineNumber := Some lineNumber;
                    issueType := info;
                    category := compatibility;
                    description :=
                      js "Window function " ++ js func ++
                      js " detected - verify MariaDB 10.3 supports the specific syntax used";
                    originalText := Some (trim (m_text mi));
                    convertedText := None;
                    autoFixed := false |} st).

(** *** Generated columns, per line of the input:
    [/\bAS\s*\([^)]*\)\s+(VIRTUAL|STORED)\b/gi.test(line) &&
     !line.trim().startsWith('--')] *)
Definition re_generated : regex :=
  WordB ;; liti "AS" ;; sp0 ;; ch "(" ;; star (none_of ")") ;; ch ")" ;; sp ;;
  Group 1 (liti "VIRTUAL" <|> liti "STORED") ;; WordB.

Definition line_generated (index : nat) (line : jsstring) (st : estate) : estate :=
  if test re_generated line && negb (starts_with (js "--") (trim line)) then
    addIssue {| lineNumber := Some (index + 1);
                issueType := warning;
                category := compatibility;
                description :=
                  js "Generated/computed column detected - verify MariaDB 10.3 syntax compatibility manually";
                originalText := Some (trim line);
                convertedText := None;
                autoFixed := false |} st
  else st.

(** *** Invisible columns: [/(`[^`]+`)\s+([^,)]+)\s+INVISIBLE\b/gi] *)
Definition re_invisible : regex :=
  Group 1 (ch bt ;; plus (none_of "`") ;; ch bt) ;; sp ;;
  Group 2 (plus (none_of ",)")) ;; sp ;; liti "INVISIBLE" ;; WordB.

Definition cb_invisible : callback estate :=
  fun mi st =>
    let lineNumber := getLineNumber sqlContent (m_text mi) in
    let replacement :=
      interp (grp mi 1) ++ js " " ++ interp (grp mi 2) ++
      js " -- INVISIBLE not supported in MariaDB 10.3" in
    Ok (replacement,
        addIssue {| lineNumber := Some lineNumber;
                    issueType := error;
                    category := compatibility;
                    description :=
                      js "INVISIBLE column attribute removed - not supported in MariaDB 10.3. Column will be visible.";
                    originalText := Some (m_text mi);
                    convertedText := Some replacement;
                    autoFixed := true |} st).

(** *** [CHECK] constraints:
    [/CONSTRAINT\s+([\w`]+)\s+CHECK\s*\(([^)]+)\)/gi] *)
Definition re_check : regex :=
  liti "CONSTRAINT" ;; sp ;; Group 1 (plus (word_or "`")) ;; sp ;;
  liti "CHECK" ;; sp0 ;; ch "(" ;; Group 2 (plus (none_of ")")) ;; ch ")".

Definition cb_check : callback estate :=
  fun mi st =>
    let lineNumber := getLineNumber sqlContent (m_text mi) in
    Ok (m_text mi,
        addIssue {| lineNumber := Some lineNumber;
                    issueType := info;
                    category := compatibility;
                    description :=
                      js "CHECK constraint detected - MariaDB 10.3 supports CHECK constraints with some limitations";
                    originalText := Some (m_text mi);
                    convertedText := None;
                    autoFixed := false |} st).

(** *** JSON functions: [new RegExp(`\\b${func}\\s*\\(`, 'gi')] *)
Definition jsonFunctions : list string :=
  [ "JSON_EXTRACT"; "JSON_UNQUOTE"; "JSON_SET"; "JSON_INSERT"; "JSON_REPLACE";
    "JSON_REMOVE"; "JSON_ARRAY"; "JSON_OBJECT"; "JSON_ARRAYAGG";
    "JSON_OBJECTAGG" ]%string.

Definition re_json_function (func : string) : regex :=
  WordB ;; liti func ;; sp0 ;; ch "(".

Definition cb_json_function (func : string) : callback estate :=
  fun mi st =>
    let lineNumber := getLineNumber sqlContent (m_text mi) in
    Ok (m_text mi,
        addIssue {| lineNumber := Some lineNumber;
                    issueType := warning;
                    category := compatibility;
                    description :=
                      js "JSON function " ++ js func ++
                      js " detected - verify MariaDB 10.3 JSON function compatibility";
                    originalText := Some (trim (m_text mi));
                    convertedText := None;
                    autoFixed := false |} st).

(** *** JSON path operators:
    [/([\w`\.]+)\s*(->>?)\s*(Q[^Q]*Q|\$\.[\w\[\]Q\.$]+)/gi], where [Q] stands
    for the two quote characters *)
Definition re_json_operator : regex :=
  Group 1 (plus (word_or "`.")) ;; sp0 ;;
  Group 2 (lit "->" ;; Opt (ch ">")) ;; sp0 ;;
  Group 3 ((quote ;; star not_quote ;; quote)
           <|> (lit "$." ;;
                plus (Chr (fun c => is_word c || existsb (eqb_char c) (js "[].$")
                                    || eqb_char c sq || eqb_char c dq)))).

Definition cb_json_operator : callback estate :=
  fun mi st =>
    let lineNumber := getLineNumber sqlContent (m_text mi) in
    let operator := interp (grp mi 2) in
    let replacement :=
      if eqb_str operator (js "->") then
        js "JSON_EXTRACT(" ++ interp (grp mi 1) ++ js ", " ++ interp (grp mi 3) ++ js ")"
      else if eqb_str operator (js "->>") then
        js "JSON_UNQUOTE(JSON_EXTRACT(" ++ interp (grp mi 1) ++ js ", " ++
        interp (grp mi 3) ++ js "))"
      else m_text mi in
    Ok (replacement,
        addIssue {| lineNumber := Some lineNumber;
                    issueType := warning;
                    category := compatibility;
                    description :=
                      js "Converted JSON operator " ++ operator ++
                      js " to MariaDB 10.3 compatible function";
                    originalText := Some (m_text mi);
                    convertedText := Some replacement;
                    autoFixed := true |} st).

(** *** [FULLTEXT] indexes:
    [/FULLTEXT\s+(INDEX|KEY)\s+([\w`]+)?\s*\(([^)]+)\)(?:\s+WITH\s+PARSER\s+(\w+))?/gi] *)
Definition re_fulltext : regex :=
  liti "FULLTEXT" ;; sp ;; Group 1 (liti "INDEX" <|> liti "KEY") ;; sp ;;
  Opt (Group 2 (plus (word_or "`"))) ;; sp0 ;; ch "(" ;;
  Group 3 (plus (none_of ")")) ;; ch ")" ;;
  Opt (sp ;; liti "WITH" ;; sp ;; liti "PARSER" ;; sp ;; Group 4 (plus wordc)).

Definition cb_fulltext : callback estate :=
  fun mi st =>
    let lineNumber := getLineNumber sqlContent (m_text mi) in
    if match grp mi 4 with
       | Some parser =>
           truthy (Some parser) && negb (eqb_str (toLowerCase parser) (js "ngram"))
       | None => false
       end
    then
      let replacement :=
        js "FULLTEXT " ++ interp (grp mi 1) ++ js " " ++ or_empty (grp mi 2) ++
        js " (" ++ interp (grp mi 3) ++ js ") -- Parser " ++ interp (grp mi 4) ++
        js " may not be available" in
      Ok (replacement,
          addIssue {| lineNumber := Some lineNumber;
                      issueType := warning;
                      category := compatibility;
                      description :=
                        js "FULLTEXT index parser " ++ interp (grp mi 4) ++
                        js " may not be available in MariaDB 10.3";
                      originalText := Some (m_text mi);
                      convertedText := Some replacement;
                      autoFixed := true |} st)
    else
      Ok (m_text mi,
          addIssue {| lineNumber := Some lineNumber;
                      issueType := info;
                      category := compatibility;
                      description :=
                        js "FULLTEXT index syntax is compatible with MariaDB 10.3";
                      originalText := Some (m_text mi);
                      convertedText := None;
                      autoFixed := false |} st).

(** *** Partitioning:
    [/PARTITION\s+BY\s+(RANGE|LIST|HASH|KEY)\s*\(([^)]+)\)(?:\s+PARTITIONS\s+(\d+))?/gi] *)
Definition re_partition : regex :=
  liti "PARTITION" ;; sp ;; liti "BY" ;; sp ;;
  Group 1 (liti "RANGE" <|> liti "LIST" <|> liti "HASH" <|> liti "KEY") ;; sp0 ;;
  ch "(" ;; Group 2 (plus (none_of ")")) ;; ch ")" ;;
  Opt (sp ;; liti "PARTITIONS" ;; sp ;; Group 3 (plus digit)).

Definition cb_partition : callback estate :=
  fun mi st =>
    let lineNumber := getLineNumber sqlContent (m_text mi) in
    Ok (m_text mi,
        addIssue {| lineNumber := Some lineNumber;
                    issueType := info;
                    category := compatibility;
                    description :=
                      js "Table partitioning (" ++ interp (grp mi 1) ++
                      js ") detected - verify MariaDB 10.3 partitioning compatibility";
                    originalText := Some (m_text mi);
                    convertedText := None;
                    autoFixed := false |} st).

(** *** JSON columns, per line of the input:
    [line.toLowerCase().includes('json') && !line.trim().startsWith('--')] *)
Definition line_json (index : nat) (line : jsstring) (st : estate) : estate :=
  if includes (toLowerCase line) (js "json") && negb (starts_with (js "--") (trim line))
  then
    addIssue {| lineNumber := Some (index + 1);
                issueType := warning;
                category := compatibility;
                description :=
                  js "JSON column type detected - MariaDB 10.3 JSON support is functional but may have differences from MySQL 8.0";
                originalText := Some (trim line);
                convertedText := None;
                autoFixed := false |} st
  else st.

(** *** [AUTO_INCREMENT]: [/AUTO_INCREMENT\s*=\s*(\d+)/gi] *)
Definition re_auto_increment : regex :=
  liti "AUTO_INCREMENT" ;; sp0 ;; ch "=" ;; sp0 ;; Group 1 (plus digit).

Definition cb_auto_increment : callback estate :=
  fun mi st =>
    let lineNumber := getLineNumber sqlContent (m_text mi) in
    Ok (m_text mi,
        addIssue {| lineNumber := Some lineNumber;
                    issueType := info;
                    category := compatibility;
                    description :=
                      js "AUTO_INCREMENT value " ++ interp (grp mi 1) ++
                      js " is compatible with MariaDB 10.3";
                    originalText := Some (m_text mi);
                    convertedText := Some (m_text mi);
                    autoFixed := true |} st).

(** *** Timestamp defaults:
    [/timestamp\s+NOT\s+NULL\s+DEFAULT\s+CURRENT_TIMESTAMP\s+ON\s+UPDATE\s+CURRENT_TIMESTAMP/gi] *)
Definition re_timestamp : regex :=
  liti "timestamp" ;; sp ;; liti "NOT" ;; sp ;; liti "NULL" ;; sp ;;
  liti "DEFAULT" ;; sp ;; liti "CURRENT_TIMESTAMP" ;; sp ;; liti "ON" ;; sp ;;
  liti "UPDATE" ;; sp ;; liti "CURRENT_TIMESTAMP".

Definition cb_timestamp : callback estate :=
  fun mi st =>
    let lineNumber := getLineNumber sqlContent (m_text mi) in
    let replacement :=
      js "timestamp NOT NULL DEFAULT CURRENT_TIMESTAMP ON UPDATE CURRENT_TIMESTAMP" in
    Ok (replacement,
        push_optimization_fixed
          {| lineNumber := Some lineNumber;
             issueType := info;
             category := compatibility;
             description :=
               js "Verified timestamp with CURRENT_TIMESTAMP is MariaDB compatible";
             originalText := Some (m_text mi);
             convertedText := Some replacement;
             autoFixed := true |} st).

(** *** [DISABLE KEYS] and [ENABLE KEYS]:
    [/(ALTER\s+TABLE\s+[^\s]+\s+DISABLE\s+KEYS;)\s*/gi] and the same with
    [ENABLE] *)
Definition re_alter_keys (what : string) : regex :=
  Group 1 (liti "ALTER" ;; sp ;; liti "TABLE" ;; sp ;; plus not_space ;; sp ;;
           liti what ;; sp ;; liti "KEYS;") ;; sp0.

Definition cb_alter_keys (what : string) : callback estate :=
  fun mi st =>
    let lineNumber := getLineNumber sqlContent (m_text mi) in
    Ok (m_text mi,
        push_optimization_fixed
          {| lineNumber := Some lineNumber;
             issueType := info;
             category := compatibility;
             description :=
               js what ++ js " KEYS statement maintained for MariaDB compatibility";
             originalText := Some (trim (m_text mi));
             convertedText := Some (trim (m_text mi));
             autoFixed := true |} st).

(** *** [CHARSET utf8]: [/\bCHARSET\s*=?\s*utf8\b(?!mb4)/gi], with
    [match.replace(/utf8\b/, 'utf8mb4')] as replacement *)
Definition re_charset_utf8 : regex :=
  WordB ;; liti "CHARSET" ;; sp0 ;; Opt (ch "=") ;; sp0 ;; liti "utf8" ;; WordB ;;
  NegLook (liti "mb4").

Definition cb_charset_utf8 : callback estate :=
  fun mi st =>
    let lineNumber := getLineNumber sqlContent (m_text mi) in
    let replacement := replace_first (lit "utf8" ;; WordB) (js "utf8mb4") (m_text mi) in
    Ok (replacement,
        push_warning_fixed
          {| lineNumber := Some lineNumber;
             issueType := warning;
             category := compatibility;
             description :=
               js "Upgraded utf8 to utf8mb4 for full Unicode support in MariaDB 10.3";
             originalText := Some (m_text mi);
             convertedText := Some replacement;
             autoFixed := true |} st).

(** *** [COLLATE utf8_general_ci], in a [CREATE]/[ALTER TABLE] context:
    [/COLLATE\s+utf8_general_ci/gi] *)
Definition re_collate_general : regex :=
  liti "COLLATE" ;; sp ;; liti "utf8_general_ci".

Definition cb_collate_general : callback estate :=
  fun mi st =>
    let beforeMatch := lookback 500 mi in
    if negb (test re_create_or_alter_table beforeMatch) then Ok (m_text mi, st)
    else
      let lineNumber := getLineNumber sqlContent (m_text mi) in
      let replacement := js "COLLATE utf8mb4_general_ci" in
      Ok (replacement,
          push_optimization_fixed
            {| lineNumber := Some lineNumber;
               issueType := info;
               category := compatibility;
               description :=
                 js "Updated collation to utf8mb4_general_ci for MariaDB 10.3 compatibility (DDL only)";
               originalText := Some (m_text mi);
               convertedText := Some replacement;
               autoFixed := true |} st).

(** *** Plain [KEY]:
    [/^\s*(PRIMARY\s+KEY|UNIQUE\s+KEY|FULLTEXT\s+KEY|SPATIAL\s+KEY|KEY)\s+([^\s(]{0,})\s*\(([^)]+)\)/gim]
    (the source writes the quantifier of the second group as a star) *)
Definition re_plain_key : regex :=
  Bol true ;; sp0 ;;
  Group 1 ((liti "PRIMARY" ;; sp ;; liti "KEY") <|>
           (liti "UNIQUE" ;; sp ;; liti "KEY") <|>
           (liti "FULLTEXT" ;; sp ;; liti "KEY") <|>
           (liti "SPATIAL" ;; sp ;; liti "KEY") <|>
           liti "KEY") ;;
  sp ;;
  Group 2 (star (Chr (fun c => negb (is_space c || eqb_char c "(")))) ;;
  sp0 ;; ch "(" ;; Group 3 (plus (none_of ")")) ;; ch ")".

(** [keyName ? keyName.replace(/[`'Q]/g, '') : ''] (Q: the double quote) *)
Definition cleanKeyName (keyName : option jsstring) : jsstring :=
  if truthy keyName then
    replace_pure (Chr (fun c => eqb_char c bt || eqb_char c sq || eqb_char c dq))
                 (fun _ => []) (or_empty keyName)
  else [].

Definition cb_plain_key : callback estate :=
  fun mi st =>
    upperKeyType <- on_defined (grp mi 1) toUpperCase ;;
    if negb (eqb_str upperKeyType (js "KEY")) then Ok (m_text mi, st)
    else
      let beforeMatch := lookback 500 mi in
      if negb (test re_create_table beforeMatch) then Ok (m_text mi, st)
      else
        let lineNumber := getLineNumber sqlContent (m_text mi) in
        let replacement :=
          js "  KEY `" ++ cleanKeyName (grp mi 2) ++ js "` (" ++
          interp (grp mi 3) ++ js ")" in
        Ok (replacement,
            push_optimization_fixed
              {| lineNumber := Some lineNumber;
                 issueType := info;
                 category := compatibility;
                 description :=
                   js "Ensured plain KEY syntax is MariaDB compatible (preserved all constraint types)";
                 originalText := Some (trim (m_text mi));
                 convertedText := Some (trim replacement);
                 autoFixed := true |} st).

(** *** [CHARACTER SET utf8 COLLATE utf8_general_ci]:
    [/CHARACTER\s+SET\s+utf8\s+COLLATE\s+utf8_general_ci/gi] *)
Definition re_character_set_utf8 : regex :=
  liti "CHARACTER" ;; sp ;; liti "SET" ;; sp ;; liti "utf8" ;; sp ;;
  liti "COLLATE" ;; sp ;; liti "utf8_general_ci".

Definition cb_character_set_utf8 : callback estate :=
  fun mi st =>
    let lineNumber := getLineNumber sqlContent (m_text mi) in
    let replacement := js "CHARACTER SET utf8mb4 COLLATE utf8mb4_general_ci" in
    Ok (replacement,
        addIssue {| lineNumber := Some lineNumber;
                    issueType := warning;
                    category := compatibility;
                    description :=
                      js "Upgraded character set to utf8mb4 for full unicode support (emojis, colors, special characters)";
                    originalText := Some (m_text mi);
                    convertedText := Some replacement;
                    autoFixed := true |} st).

(** *** [DEFAULT CHARSET=utf8]: [/DEFAULT\s+CHARSET\s*=\s*utf8\b(?!\s*mb4)/gi] *)
Definition re_default_charset_utf8 : regex :=
  liti "DEFAULT" ;; sp ;; liti "CHARSET" ;; sp0 ;; ch "=" ;; sp0 ;; liti "utf8" ;;
  WordB ;; NegLook (sp0 ;; liti "mb4").

Definition cb_default_charset_utf8 : callback estate :=
  fun mi st =>
    let lineNumber := getLineNumber sqlContent (m_text mi) in
    let replacement := js "DEFAULT CHARSET=utf8mb4" in
    Ok (replacement,
        addIssue {| lineNumber := Some lineNumber;
                    issueType := warning;
                    category := compatibility;
                    description :=
                      js "Fixed charset to utf8mb4 for complete data compatibility (colors, emojis, special text)";
                    originalText := Some (m_text mi);
                    convertedText := Some replacement;
                    autoFixed := true |} st).

(** *** Index length safeguard: [/(KEY|INDEX)\s+([\w`]{0,})?\s*\(([^)]+)\)/gi]
    (the quantifier of the second group is a star in the source),
    with [/varchar\s*\(\s*([2-9]\d{2}|[1-9]\d{3,})\s*\)/i] on the columns *)
Definition re_index : regex :=
  Group 1 (liti "KEY" <|> liti "INDEX") ;; sp ;;
  Opt (Group 2 (star (word_or "`"))) ;; sp0 ;; ch "(" ;;
  Group 3 (plus (none_of ")")) ;; ch ")".

Definition re_large_varchar : regex :=
  liti "varchar" ;; sp0 ;; ch "(" ;; sp0 ;;
  Group 1 ((Chr (in_range 50 57) ;; digit ;; digit) <|>
           (Chr (in_range 49 57) ;; digit ;; digit ;; digit ;; star digit)) ;;
  sp0 ;; ch ")".

Definition cb_index : callback estate :=
  fun mi st =>
    let beforeMatch := lookback 500 mi in
    if negb (test re_create_table beforeMatch) then Ok (m_text mi, st)
    else
      let lineNumber := getLineNumber sqlContent (m_text mi) in
      let hasProblematicVarchar := test re_large_varchar (interp (grp mi 3)) in
      if hasProblematicVarchar then
        Ok (m_text mi,
            addIssue {| lineNumber := Some lineNumber;
                        issueType := error;
                        category := compatibility;
                        description :=
                          js "INDEX on large VARCHAR detected - may exceed MariaDB 10.3 key length limits with utf8mb4. Consider adding ROW_FORMAT=DYNAMIC or index prefixes.";
                        originalText := Some (m_text mi);
                        convertedText := None;
                        autoFixed := false |} st)
      else Ok (m_text mi, st).

(** *** [ROW_FORMAT=DYNAMIC]:
    [/(CREATE\s+TABLE\s+[\w`\.]+\s*\([^;]+)\)\s*(ENGINE\s*=\s*InnoDB)([^;]{0,});/gi]
    (the quantifier of the last group is a star in the source) *)
Definition re_row_format : regex :=
  Group 1 (liti "CREATE" ;; sp ;; liti "TABLE" ;; sp ;; plus (word_or "`.") ;;
           sp0 ;; ch "(" ;; plus (none_of ";")) ;;
  ch ")" ;; sp0 ;;
  Group 2 (liti "ENGINE" ;; sp0 ;; ch "=" ;; sp0 ;; liti "InnoDB") ;;
  Group 3 (star (none_of ";")) ;; ch ";".

Definition cb_row_format : callback estate :=
  fun mi st =>
    let lineNumber := getLineNumber sqlContent (m_text mi) in
    let hasUtf8mb4 := test (liti "utf8mb4") (m_text mi) in
    let hasLargeVarchar := test re_large_varchar (m_text mi) in
    let hasRowFormat := test (liti "ROW_FORMAT" ;; sp0 ;; ch "=") (m_text mi) in
    if hasUtf8mb4 && hasLargeVarchar && negb hasRowFormat then
      let replacement :=
        interp (grp mi 1) ++ js ") " ++ interp (grp mi 2) ++
        js " ROW_FORMAT=DYNAMIC" ++ interp (grp mi 3) ++ js ";" in
      Ok (replacement,
          addIssue {| lineNumber := Some lineNumber;
                      issueType := warning;
                      category := compatibility;
                      description :=
                        js "Added ROW_FORMAT=DYNAMIC for utf8mb4 compatibility with large VARCHAR columns";
                      originalText := Some (m_text mi);
                      convertedText := Some replacement;
                      autoFixed := true |} st)
    else Ok (m_text mi, st).

(** *** JSON columns in [CREATE TABLE]: [/(`[^`]+`)\s+(json)(\b[^,)]{0,})/gi]
    (the quantifier of the last group is a star in the source) *)
Definition re_json_column : regex :=
  Group 1 (ch bt ;; plus (none_of "`") ;; ch bt) ;; sp ;; Group 2 (liti "json") ;;
  Group 3 (WordB ;; star (none_of ",)")).

Definition cb_json_column : callback estate :=
  fun mi st =>
    let beforeMatch := lookback 300 mi in
    if negb (test re_create_table beforeMatch) then Ok (m_text mi, st)
    else
      let lineNumber := getLineNumber sqlContent (m_text mi) in
      let replacement :=
        interp (grp mi 1) ++ js " longtext COLLATE utf8mb4_bin" ++ interp (grp mi 3) in
      Ok (replacement,
          push_optimization_fixed
            {| lineNumber := Some lineNumber;
               issueType := info;
               category := compatibility;
               description :=
                 js "Converted JSON column to longtext with binary collation for MariaDB 10.3 compatibility (preserved all constraints)";
               originalText := Some (m_text mi);
               convertedText := Some replacement;
               autoFixed := true |} st).

(** *** Text columns in [CREATE TABLE]:
    [/\b(text|longtext|mediumtext|tinytext)\b(?!\w)(\s+CHARACTER\s+SET\s+\w+)?(\s+COLLATE\s+[\w_]+)?/gi] *)
Definition re_text : regex :=
  WordB ;;
  Group 1 (liti "text" <|> liti "longtext" <|> liti "mediumtext" <|> liti "tinytext") ;;
  WordB ;; NegLook wordc ;;
  Opt (Group 2 (sp ;; liti "CHARACTER" ;; sp ;; liti "SET" ;; sp ;; plus wordc)) ;;
  Opt (Group 3 (sp ;; liti "COLLATE" ;; sp ;; plus wordc)).

Definition cb_text : callback estate :=
  fun mi st =>
    let beforeMatch := lookback 300 mi in
    if negb (test re_create_table beforeMatch) then Ok (m_text mi, st)
    else
      if match grp mi 2 with
         | Some charsetPart =>
             negb (truthy (Some charsetPart)) || negb (includes charsetPart (js "utf8mb4"))
         | None => true
         end
      then
        let lineNumber := getLineNumber sqlContent (m_text mi) in
        let replacement :=
          interp (grp mi 1) ++ js " CHARACTER SET utf8mb4 COLLATE utf8mb4_general_ci" in
        Ok (replacement,
            push_optimization_fixed
              {| lineNumber := Some lineNumber;
                 issueType := info;
                 category := optimization;
                 description :=
                   js "Ensured text field uses utf8mb4 for complete data support (all characters, colors, formatting)";
                 originalText := Some (m_text mi);
                 convertedText := Some replacement;
                 autoFixed := true |} st)
      else Ok (m_text mi, st).

(** *** [varchar] columns in [CREATE TABLE]:
    [/\bvarchar\((\d+)\)(?!\s+CHARACTER\s+SET\s+utf8mb4)/gi] *)
Definition re_varchar : regex :=
  WordB ;; liti "varchar" ;; ch "(" ;; Group 1 (plus digit) ;; ch ")" ;;
  NegLook (sp ;; liti "CHARACTER" ;; sp ;; liti "SET" ;; sp ;; liti "utf8mb4").

Definition cb_varchar : callback estate :=
  fun mi st =>
    let beforeMatch := lookback 300 mi in
    if negb (test re_create_table beforeMatch) then Ok (m_text mi, st)
    else
      let lineNumber := getLineNumber sqlContent (m_text mi) in
      let replacement :=
        js "varchar(" ++ interp (grp mi 1) ++
        js ") CHARACTER SET utf8mb4 COLLATE utf8mb4_general_ci" in
      Ok (replacement,
          push_optimization_fixed
            {| lineNumber := Some lineNumber;
               issueType := info;
               category := optimization;
               description :=
                 js "Enhanced varchar field to support all characters including colors and special formatting";
               originalText := Some (m_text mi);
               convertedText := Some replacement;
               autoFixed := true |} st).

(** *** [COLLATE utf8_unicode_ci], in a [CREATE]/[ALTER TABLE] context:
    [/COLLATE\s+utf8_unicode_ci/gi] *)
Definition re_collate_unicode : regex :=
  liti "COLLATE" ;; sp ;; liti "utf8_unicode_ci".

Definition cb_collate_unicode : callback estate :=
  fun mi st =>
    let beforeMatch := lookback 500 mi in
    if negb (test re_create_or_alter_table beforeMatch) then Ok (m_text mi, st)
    else
      let lineNumber := getLineNumber sqlContent (m_text mi) in
      let replacement := js "COLLATE utf8mb4_unicode_ci" in
      Ok (replacement,
          push_optimization_fixed
            {| lineNumber := Some lineNumber;
               issueType := info;
               category := compatibility;
               description :=
                 js "Updated collation to utf8mb4_unicode_ci for enhanced data compatibility (DDL only)";
               originalText := Some (m_text mi);
               convertedText := Some replacement;
               autoFixed := true |} st).

(** *** White space: [/\n\s*\n\s*\n/g] becomes two newlines, [/^\s*\n/gm]
    is removed *)
Definition re_triple_newline : regex :=
  ch nl ;; sp0 ;; ch nl ;; sp0 ;; ch nl.

Definition cb_triple_newline : callback estate :=
  fun _ st => Ok ([nl; nl], st).

Definition re_blank_line : regex :=
  Bol true ;; sp0 ;; ch nl.

Definition cb_blank_line : callback estate :=
  fun _ st => Ok ([], st).

(** *** The pipeline *)

(** A rule is either a [replace] over the working text or a scan of the
    lines of the original input that only reports. *)
Inductive rule : Type :=
| Rewrite (re : regex) (cb : callback estate)
| PerLine (f : nat -> jsstring -> estate -> estate).

Definition rules : list rule :=
  map (fun e => Rewrite (re_collation (fst e)) (cb_collation (snd e))) mysqlCollationMap
  ++ [ Rewrite re_set_names cb_set_names;
       Rewrite re_definer cb_definer;
       Rewrite re_dump_comment cb_dump_comment;
       Rewrite re_version_comment cb_version_comment;
       Rewrite re_create_if_not_exists cb_create_if_not_exists;
       Rewrite re_latin1 cb_latin1;
       Rewrite re_using_btree cb_using_btree;
       Rewrite re_local_infile cb_local_infile;
       Rewrite re_foreign_key_checks cb_foreign_key_checks;
       Rewrite re_sql_mode cb_sql_mode;
       Rewrite re_lock_tables cb_lock_tables;
       Rewrite re_unlock_tables cb_unlock_tables;
       Rewrite re_default_character_set cb_default_character_set;
       Rewrite re_default_charset cb_default_charset;
       Rewrite re_engine_innodb cb_engine_innodb;
       Rewrite re_int_width cb_int_width;
       Rewrite re_cte cb_cte ]
  ++ map (fun func => Rewrite (re_window func) (cb_window func)) windowFunctions
  ++ [ PerLine line_generated;
       Rewrite re_invisible cb_invisible;
       Rewrite re_check cb_check ]
  ++ map (fun func => Rewrite (re_json_function func) (cb_json_function func)) jsonFunctions
  ++ [ Rewrite re_json_operator cb_json_operator;
       Rewrite re_fulltext cb_fulltext;
       Rewrite re_partition cb_partition;
       PerLine line_json;
       Rewrite re_auto_increment cb_auto_increment;
       Rewrite re_timestamp cb_timestamp;
       Rewrite (re_alter_keys "DISABLE") (cb_alter_keys "DISABLE");
       Rewrite (re_alter_keys "ENABLE") (cb_alter_keys "ENABLE");
       Rewrite re_charset_utf8 cb_charset_utf8;
       Rewrite re_collate_general cb_collate_general;
       Rewrite re_plain_key cb_plain_key;
       Rewrite re_character_set_utf8 cb_character_set_utf8;
       Rewrite re_default_charset_utf8 cb_default_charset_utf8;
       Rewrite re_index cb_index;
       Rewrite re_row_format cb_row_format;
       Rewrite re_json_column cb_json_column;
       Rewrite re_text cb_text;
       Rewrite re_varchar cb_varchar;
       Rewrite re_collate_unicode cb_collate_unicode;
       Rewrite re_triple_newline cb_triple_newline;
       Rewrite re_blank_line cb_blank_line ].

(** [lines.forEach((line, index) => ...)] *)
Fixpoint for_each_line (f : nat -> jsstring -> estate -> estate)
         (index : nat) (lines : list jsstring) (st : estate) : estate :=
  match lines with
  | [] => st
  | line :: lines' => for_each_line f (S index) lines' (f index line st)
  end.

Definition run_rule (r : rule) (text : jsstring) (st : estate)
  : result (jsstring * estate) :=
  match r with
  | Rewrite re cb => replace re cb text st
  | PerLine f => Ok (text, for_each_line f 0 (split_lines sqlContent) st)
  end.

Fixpoint run_rules (rs : list rule) (text : jsstring) (st : estate)
  : result (jsstring * estate) :=
  match rs with
  | [] => Ok (text, st)
  | r :: rs' =>
      ' (text', st') <- run_rule r text st ;;
      run_rules rs' text' st'
  end.

Definition header : jsstring :=
  js "-- MariaDB 10.3 Compatible SQL Export" ++ [nl] ++
  js "-- Optimized for ALL data types including colors, emojis, special characters" ++ [nl] ++
  js "SET NAMES utf8mb4 COLLATE utf8mb4_general_ci;" ++ [nl] ++
  js "SET character_set_client = utf8mb4;" ++ [nl] ++
  js "SET character_set_connection = utf8mb4;" ++ [nl] ++
  js "SET character_set_results = utf8mb4;" ++ [nl] ++
  js "SET FOREIGN_KEY_CHECKS = 0;" ++ [nl] ++
  js "SET SQL_MODE = " ++ [dq] ++ js "NO_AUTO_VALUE_ON_ZERO" ++ [dq] ++ js ";" ++ [nl] ++
  js "SET AUTOCOMMIT = 0;" ++ [nl] ++
  js "START TRANSACTION;" ++ [nl] ++
  js "SET time_zone = " ++ [dq] ++ js "+00:00" ++ [dq] ++ js ";" ++ [nl] ++
  [nl].

(** [if (!convertedSQL.includes('SET NAMES utf8mb4')) { ... }] *)
Definition add_header (text : jsstring) (st : estate) : jsstring * estate :=
  if negb (includes text (js "SET NAMES utf8mb4")) then
    (header ++ text,
     push_optimization_fixed
       {| lineNumber := Some 1;
          issueType := info;
          category := optimization;
          description := js "Added MariaDB-compatible SQL header for proper import";
          originalText := Some (js "-- File beginning");
          convertedText := Some (js "-- MariaDB header added");
          autoFixed := true |} st)
  else (text, st).

(** [if (!convertedSQL.toLowerCase().includes('commit')) { ... }] *)
Definition add_commit (text : jsstring) (st : estate) : jsstring * estate :=
  if negb (includes (toLowerCase text) (js "commit")) then
    let text' := text ++ [nl; nl] ++ js "COMMIT;" ++ [nl] in
    (text',
     push_optimization_fixed
       {| lineNumber := Some (length (split_lines text'));
          issueType := info;
          category := optimization;
          description := js "Added COMMIT statement at end of file for transaction safety";
          originalText := Some (js "-- File end");
          convertedText := Some (js "COMMIT;");
          autoFixed := true |} st)
  else (text, st).

Definition finish (text : jsstring) (st : estate) : ConversionResult :=
  let s := stats st in
  Result text (issues st)
         (Stats (length (issues st)) (autoFixedCount s) (warningsCount s)
                (errorsCount s) (optimizationsCount s)).

Definition convertMySQLToMariaDB : result ConversionResult :=
  ' (text, st) <- run_rules rules sqlContent init_state ;;
  let '(text, st) := add_header text st in
  let '(text, st) := add_commit text st in
  Ok (finish text st).

End Rules.

(* ------------------------------------------------------------------ *)
(** ** Vocabulary of the statements *)
(* ------------------------------------------------------------------ *)

(** What a successful match of [r] from state [x] to state [y] is, as a
    relation; the matcher only ever accepts end states related to its start
    state ([mtch_sound]). *)
Inductive matches : regex -> mstate -> mstate -> Prop :=
| M_eps x : matches Eps x x
| M_chr p x c t :
    rest x = c :: t -> p c = true -> matches (Chr p) x (advance x c t)
| M_seq a b x y z :
    matches a x y -> matches b y z -> matches (Seq a b) x z
| M_alt_l a b x y : matches a x y -> matches (Alt a b) x y
| M_alt_r a b x y : matches b x y -> matches (Alt a b) x y
| M_star_stop g a x : matches (Star g a) x x
| M_star_step g a x y z :
    matches a x y -> moved x y = true -> matches (Star g a) y z ->
    matches (Star g a) x z
| M_opt_skip a x : matches (Opt a) x x
| M_opt_take a x y :
    matches a x y -> moved x y = true -> matches (Opt a) x y
| M_group n a x y :
    matches a x y ->
    matches (Group n a) x (MState (pre y) (rest y) ((n, consumed x y) :: caps y))
| M_wordb x :
    xorb (word_before x) (word_after x) = true -> matches WordB x x
| M_bol ml x : at_bol ml x = true -> matches (Bol ml) x x
| M_eol x : at_eol x = true -> matches Eol x x
| M_neglook a x :
    mtch a x (fun y => Some y) = None -> matches (NegLook a) x x.

(** A match consumes a prefix of the remaining input and pushes it, reversed,
    on the text before the position. *)
Definition extends (x y : mstate) : Prop :=
  exists w, rest x = w ++ rest y /\ pre y = rev w ++ pre x.

(** Groups that every match of the pattern sets. *)
Fixpoint sets_group (r : regex) (n : nat) : bool :=
  match r with
  | Group m a => Nat.eqb m n || sets_group a n
  | Seq a b => sets_group a n || sets_group b n
  | Alt a b => sets_group a n && sets_group b n
  | _ => false
  end.

(** The match handed to a callback is always one the matcher produced, at
    some position of the string being searched. *)
Definition produced_on (s : jsstring) (r : regex) (mi : match_info) : Prop :=
  exists before after y,
    s = rev before ++ after /\
    exec_at r before after = Some y /\ mi = info_of before after y.

Definition produced (r : regex) (mi : match_info) : Prop :=
  exists s, produced_on s r mi.

(** A callback is well behaved on the matches of its pattern: it returns, it
    reports at most one issue, through [addIssue], and an issue that is not
    marked as fixed comes with the match handed back unchanged. *)
Definition cb_ok (re : regex) (cb : callback estate) : Prop :=
  forall mi st, produced re mi ->
    exists rep st', cb mi st = Ok (rep, st') /\
      (st' = st \/
       exists i, st' = addIssue i st /\ (autoFixed i = false -> rep = m_text mi)).

Definition line_ok (f : nat -> jsstring -> estate -> estate) : Prop :=
  forall index line st,
    f index line st = st \/
    exists i, f index line st = addIssue i st /\ autoFixed i = false.

Definition rule_ok (r : rule) : Prop :=
  match r with
  | Rewrite re cb => cb_ok re cb
  | PerLine f => line_ok f
  end.

(** [grows st st']: [st'] is [st] after some calls of [addIssue]. *)
Inductive grows : estate -> estate -> Prop :=
| grows_refl st : grows st st
| grows_step st st' i : grows st st' -> grows st (addIssue i st').

Definition is_type (t : IssueType) (i : ConversionIssue) : bool :=
  match t, issueType i with
  | warning, warning | error, error | info, info => true
  | _, _ => false
  end.

Arguments is_type : simpl never.

Definition count_type (t : IssueType) (l : list ConversionIssue) : nat :=
  length (filter (is_type t) l).

Definition count_fixed (l : list ConversionIssue) : nat :=
  length (filter autoFixed l).

(** Every counter holds the number of issues of its kind. *)
Definition counted (st : estate) : Prop :=
  warningsCount (stats st) = count_type warning (issues st) /\
  errorsCount (stats st) = count_type error (issues st) /\
  optimizationsCount (stats st) = count_type info (issues st) /\
  autoFixedCount (stats st) = count_fixed (issues st).

(** The older copies of the engine ([src/unnamed/part_002],
    [src/client/src/lib/sql-converter.ts]), where they differ from the copy
    modelled above. *)
Module Legacy.
(** [getLineNumber] of [src/unnamed/part_002], lines 824-827, which has no
    test for [-1]:
    [content.substring(0, content.indexOf(searchText)).split('\n').length].
    [substring] treats a negative bound as [0]. *)
Definition indexOf_int (s p : jsstring) : Z :=
  match indexOf s p with
  | Some i => Z.of_nat i
  | None => (-1)%Z
  end.

Definition substring_int (s : jsstring) (a b : Z) : jsstring :=
  let a' := Z.to_nat (Z.max 0 a) in
  let b' := Z.to_nat (Z.max 0 b) in
  substring s (Nat.min a' b') (Nat.max a' b').

Definition getLineNumber (content searchText : jsstring) : nat :=
  length (split_lines (substring_int content 0 (indexOf_int content searchText))).

(** The collation table of [src/unnamed/part_002] and of
    [src/client/src/lib/sql-converter.ts], lines 40-47. *)
Definition mysqlCollationMap : list (string * string) :=
  [ entry "utf8mb4_0900_ai_ci" "utf8mb4_unicode_ci";
    entry "utf8mb4_0900_as_ci" "utf8mb4_unicode_ci";
    entry "utf8mb4_0900_as_cs" "utf8mb4_unicode_ci";
    entry "utf8mb4_0900_bin" "utf8mb4_bin";
    entry "utf8_0900_ai_ci" "utf8mb4_unicode_ci";
    entry "utf8_0900_as_ci" "utf8mb4_unicode_ci" ].

(** The rule of [src/unnamed/part_002], lines 169-189, for
    [CREATE TABLE IF NOT EXISTS], with the same pattern as the present rule:
    [DROP TABLE IF EXISTS ${tableName};\nCREATE TABLE ${tableName}]. *)
Definition cb_create_if_not_exists (sqlContent : jsstring) : callback estate :=
  fun mi st =>
    let lineNumber := getLineNumber sqlContent (m_text mi) in
    let tableName := interp (grp mi 1) in
    let replacement :=
      js "DROP TABLE IF EXISTS " ++ tableName ++ js ";" ++ [nl] ++
      js "CREATE TABLE " ++ tableName in
    Ok (replacement,
        push_warning_fixed
          {| lineNumber := Some lineNumber;
             issueType := warning;
             category := compatibility;
             description :=
               js "Converted CREATE TABLE IF NOT EXISTS to DROP + CREATE for better MariaDB compatibility (preserved schema)";
             originalText := Some (m_text mi);
             convertedText := Some replacement;
             autoFixed := true |} st).
End Legacy.

(** [appended P st st']: [st'] is [st] with further issues, all satisfying
    [P], at the end of the list. *)
Definition appended (P : ConversionIssue -> Prop) (st st' : estate) : Prop :=
  exists l, issues st' = issues st ++ l /\ Forall P l.

(** A piece of a string. *)
Definition piece_of (s m : jsstring) : Prop := exists a b, s = a ++ m ++ b.

(** No position of [text] has a [CREATE TABLE] or [ALTER TABLE] keyword in
    the [w] characters before it. *)
Definition no_keyword_before (w : nat) (text : jsstring) : bool :=
  forallb (fun offset =>
             negb (test re_create_or_alter_table (substring text (offset - w) offset)))
          (seq 0 (S (length text))).

Definition insert_example : jsstring :=
  js "INSERT INTO t (c) VALUES ('varchar(10) is a string')".




Definition commit_block : jsstring := [nl; nl] ++ js "COMMIT;" ++ [nl].

Definition case_sensitive_text_column : jsstring :=
  js "CREATE TABLE t (`a` text COLLATE utf8mb4_0900_as_cs);".

(** [starts_with] and [includes] up to a comparison of characters. *)
Fixpoint starts_with_by (q : ascii -> ascii -> bool) (p s : jsstring) : bool :=
  match p, s with
  | [], _ => true
  | x :: p', y :: s' => q x y && starts_with_by q p' s'
  | _ :: _, [] => false
  end.

Fixpoint includes_by (q : ascii -> ascii -> bool) (s p : jsstring) : bool :=
  starts_with_by q p s ||
  match s with
  | [] => false
  | _ :: s' => includes_by q s' p
  end.

(** Case-insensitive [includes]. *)
Definition includes_ci (s p : jsstring) : bool := includes_by eqb_ci s p.

(** The state after the literal [l], if the input continues with it. *)
Fixpoint eat (q : ascii -> ascii -> bool) (l : jsstring) (x : mstate) : option mstate :=
  match l with
  | [] => Some x
  | c :: l' =>
      match rest x with
      | d :: t => if q c d then eat q l' (advance x d t) else None
      | [] => None
      end
  end.

Definition is_some (A : Type) (o : option A) : bool :=
  match o with
  | Some _ => true
  | None => false
  end.

(** [span x w y]: from [x], the matcher has read exactly [w] and reached
    [y], leaving the captures of [x] in place. *)
Definition span (x : mstate) (w : jsstring) (y : mstate) : Prop :=
  rest x = w ++ rest y /\ pre y = rev w ++ pre x /\ caps y = caps x.

(** [/^SET\s+@@/i], the second pattern of the deny list. *)
Definition re_set_variable : regex :=
  (Bol false ;; liti "SET" ;; sp ;; lit "@@")%re.

Definition dump_variable_comment : jsstring :=
  js "/*!40101 SET @OLD_CHARACTER_SET_CLIENT=@@CHARACTER_SET_CLIENT */".

Definition variable_comment_match : match_info :=
  MatchInfo dump_variable_comment
            [(2, js "SET @OLD_CHARACTER_SET_CLIENT=@@CHARACTER_SET_CLIENT ");
             (1, js "40101")]
            0 dump_variable_comment.


Definition unquoted_invisible : jsstring := js "CREATE TABLE t (a INT INVISIBLE);".


(** The matcher on an input of which only a beginning is known.  [probe r x k]
    runs [r] from [x], whose [rest] is the known part of the remaining input;
    [No] and [Yes] are definite, whatever text follows the known part
    ([probe_sound]); [Unknown] is the answer as soon as the run would have to
    look past the known part. *)
Inductive verdict : Type :=
| No
| Yes (y : mstate)
| Unknown.

Definition weaken (v : verdict) : verdict :=
  match v with
  | No => No
  | _ => Unknown
  end.

Fixpoint probe_loop (ma : mstate -> (mstate -> verdict) -> verdict)
         (greedy : bool) (k : mstate -> verdict) (n : nat) (x : mstate)
         {struct n} : verdict :=
  match n with
  | 0 => Unknown
  | S n' =>
      let iter := fun _ : unit =>
        ma x (fun y => if moved x y then probe_loop ma greedy k n' y else No) in
      if greedy then
        match iter tt with
        | No => k x
        | v => v
        end
      else
        match k x with
        | No => iter tt
        | v => v
        end
  end.

Fixpoint probe (r : regex) (x : mstate) (k : mstate -> verdict) {struct r} : verdict :=
  match r with
  | Eps => k x
  | Chr p =>
      match rest x with
      | c :: t => if p c then k (advance x c t) else No
      | [] => Unknown
      end
  | Seq a b => probe a x (fun y => probe b y k)
  | Alt a b =>
      match probe a x k with
      | No => probe b x k
      | v => v
      end
  | Star greedy a => probe_loop (probe a) greedy k (length (rest x)) x
  | Opt a =>
      match probe a x (fun y => if moved x y then k y else No) with
      | No => k x
      | v => v
      end
  | Group n a =>
      probe a x (fun y => k (MState (pre y) (rest y) ((n, consumed x y) :: caps y)))
  | WordB =>
      match rest x with
      | [] => weaken (k x)
      | _ :: _ => if xorb (word_before x) (word_after x) then k x else No
      end
  | Bol ml => if at_bol ml x then k x else No
  | Eol =>
      match rest x with
      | [] => weaken (k x)
      | _ :: _ => No
      end
  | NegLook a =>
      match probe a x (fun y => Yes y) with
      | No => k x
      | Yes _ => No
      | Unknown => weaken (k x)
      end
  end.

Definition probe_at (r : regex) (before known : list ascii) : verdict :=
  probe r (MState before known []) (fun y => Yes y).

(** [quiet_from r before known n]: no match of [r] starts at any of the
    first [n] positions of [known], whatever follows [known]. *)
Fixpoint quiet_from (r : regex) (before known : list ascii) (n : nat) : bool :=
  match n with
  | 0 => true
  | S n' =>
      match probe_at r before known with
      | No =>
          match known with
          | c :: t => quiet_from r (c :: before) t n'
          | [] => false
          end
      | _ => false
      end
  end.

(** No rule of the list can start a match inside [known]. *)
Definition untouched_by (rs : list rule) (known : jsstring) : bool :=
  forallb (fun r => match r with
                    | Rewrite re _ => quiet_from re [] known (length known)
                    | PerLine _ => true
                    end) rs.

(** [replace] on the known beginning of an input, for a callback whose
    replacement text is [f] of the matched text and the captures: the
    beginning of the result that is determined by the known part. *)
Fixpoint replace_known (f : jsstring -> list (nat * jsstring) -> jsstring)
         (r : regex) (before known : list ascii) (skip : nat) : jsstring :=
  match known with
  | [] => []
  | c :: t =>
      match skip with
      | S k => replace_known f r (c :: before) t k
      | 0 =>
          match probe_at r before known with
          | No => c :: replace_known f r (c :: before) t 0
          | Unknown => []
          | Yes y =>
              match match_length known y with
              | 0 => []
              | S k =>
                  f (firstn (S k) known) (caps y) ++
                  replace_known f r (c :: before) t k
              end
          end
      end
  end.

(** The abstract state [x] stands for the concrete state [x'] on the input
    continued by [tail]. *)
Definition continued (tail : jsstring) (x x' : mstate) : Prop :=
  pre x' = pre x /\ rest x' = rest x ++ tail /\ caps x' = caps x.

(** What a verdict promises about the result of the matcher. *)
Definition holds (tail : jsstring) (v : verdict) (o : option mstate) : Prop :=
  match v with
  | No => o = None
  | Yes z => exists z', o = Some z' /\ continued tail z z'
  | Unknown => True
  end.

Definition agree (tail : jsstring) (k : mstate -> verdict) (K : mstate -> option mstate) : Prop :=
  forall y y', continued tail y y' -> holds tail (k y) (K y').

(** The beginning of [header], through [START TRANSACTION;]. *)
Definition header_known : jsstring :=
  js "-- MariaDB 10.3 Compatible SQL Export" ++ [nl] ++
  js "-- Optimized for ALL data types including colors, emojis, special characters" ++ [nl] ++
  js "SET NAMES utf8mb4 COLLATE utf8mb4_general_ci;" ++ [nl] ++
  js "SET character_set_client = utf8mb4;" ++ [nl] ++
  js "SET character_set_connection = utf8mb4;" ++ [nl] ++
  js "SET character_set_results = utf8mb4;" ++ [nl] ++
  js "SET FOREIGN_KEY_CHECKS = 0;" ++ [nl] ++
  js "SET SQL_MODE = " ++ [dq] ++ js "NO_AUTO_VALUE_ON_ZERO" ++ [dq] ++ js ";" ++ [nl] ++
  js "SET AUTOCOMMIT = 0;" ++ [nl] ++
  js "START TRANSACTION;".

(** What the rules make of [header_known] when it begins their input: the
    passes for [FOREIGN_KEY_CHECKS] and [SQL_MODE] rewrite their lines, every
    other pass leaves it alone. *)
Definition header_rewritten : jsstring :=
  js "-- MariaDB 10.3 Compatible SQL Export" ++ [nl] ++
  js "-- Optimized for ALL data types including colors, emojis, special characters" ++ [nl] ++
  js "SET NAMES utf8mb4 COLLATE utf8mb4_general_ci;" ++ [nl] ++
  js "SET character_set_client = utf8mb4;" ++ [nl] ++
  js "SET character_set_connection = utf8mb4;" ++ [nl] ++
  js "SET character_set_results = utf8mb4;" ++ [nl] ++
  js "SET foreign_key_checks = 0;" ++ [nl] ++
  js "SET SQL_MODE = 'NO_AUTO_VALUE_ON_ZERO';" ++ [nl] ++
  js "SET AUTOCOMMIT = 0;" ++ [nl] ++
  js "START TRANSACTION;".

(** The replacement texts of the two passes, as functions of the captures. *)
Definition text_foreign_key_checks (m : jsstring) (cs : list (nat * jsstring)) : jsstring :=
  (js "SET foreign_key_checks = " ++ interp (cap_lookup cs 1) ++ js ";") ++ [nl].

Definition text_sql_mode (m : jsstring) (cs : list (nat * jsstring)) : jsstring :=
  match cap_lookup cs 1 with
  | Some mode => (js "SET SQL_MODE = '" ++ cleanMode mode ++ js "';") ++ [nl]
  | None => []
  end.

(** The working copy after the rule passes, before the header and [COMMIT;]
    steps. *)
Definition after_rules (s : jsstring) : jsstring :=
  match run_rules s (rules s) s init_state with
  | Ok (text, _) => text
  | Throw => []
  end.

(** Whether the run on [s] prepends the header, and the text after that step. *)
Definition header_prepended (s : jsstring) : bool :=
  negb (includes (after_rules s) (js "SET NAMES utf8mb4")).

Definition with_header (s : jsstring) : jsstring :=
  (if header_prepended s then header else []) ++ after_rules s.

(** Whether the run on [s] appends [COMMIT;]. *)
Definition commit_appended (s : jsstring) : bool :=
  negb (includes (toLowerCase (with_header s)) (js "commit")).

Definition assembled (s : jsstring) : jsstring :=
  with_header s ++ (if commit_appended s then commit_block else []).

Definition header_rest : jsstring :=
  [nl] ++ js "SET time_zone = " ++ [dq] ++ js "+00:00" ++ [dq] ++ js ";" ++ [nl] ++ [nl].

Definition dump_tail_example : jsstring :=
  js "SET NAMES utf8mb4;" ++ [nl] ++ js "-- Dumping data for table DEFINER=a@b".

(** The matches a global search for [r] visits, in order: what
    [s.replace(r, cb)] hands to its callback, one after the other ([skip] as
    in [replace_from]). *)
Fixpoint matches_from (r : regex) (before after : list ascii) (skip : nat)
  : list match_info :=
  match after with
  | [] =>
      match exec_at r before [] with
      | Some y => [info_of before [] y]
      | None => []
      end
  | c :: t =>
      match skip with
      | S k => matches_from r (c :: before) t k
      | 0 =>
          match exec_at r before after with
          | None => matches_from r (c :: before) t 0
          | Some y =>
              info_of before after y ::
              match match_length after y with
              | 0 => matches_from r (c :: before) t 0
              | S k => matches_from r (c :: before) t k
              end
          end
      end
  end.

Definition all_matches (r : regex) (s : jsstring) : list match_info :=
  matches_from r [] s 0.

(** The record of the rule for [CREATE TABLE IF NOT EXISTS] for a match. *)
Definition kept_record (sqlContent : jsstring) (mi : match_info) : ConversionIssue :=
  {| lineNumber := Some (getLineNumber sqlContent (m_text mi));
     issueType := info;
     category := compatibility;
     description :=
       js "CREATE TABLE IF NOT EXISTS is supported in MariaDB 10.3 - keeping original syntax for data safety";
     originalText := Some (m_text mi);
     convertedText := None;
     autoFixed := false |}.

Definition create_int_example : jsstring :=
  js "CREATE TABLE IF NOT EXISTS `users` (`id` int(11) NOT NULL);".

Definition create_in_comment_example : jsstring :=
  js "/*!50001 CREATE TABLE IF NOT EXISTS `v` AS SELECT SQL_CALC_FOUND_ROWS * FROM s */;".

Definition create_named_text_example : jsstring :=
  js "CREATE TABLE IF NOT EXISTS text (id bigint);".

Definition create_example : jsstring :=
  js "CREATE TABLE IF NOT EXISTS `users` (`id` bigint NOT NULL);".

Definition insert_charset_example : jsstring :=
  js "INSERT INTO t (c) VALUES ('CHARACTER SET utf8 COLLATE utf8_general_ci');".

Definition insert_charset_rewritten : jsstring :=
  js "INSERT INTO t (c) VALUES ('CHARACTER SET utf8mb4 COLLATE utf8mb4_general_ci');".

(** A table definition, a conditional comment on the deny list, a long
    comment line and an [INSERT] statement whose literal begins 443
    characters after the start of the text. *)
Definition insert_far_example : jsstring :=
  js "CREATE TABLE a (id bigint);" ++ [nl] ++
  js "/*!50001 SELECT 1 FORCE_INDEX " ++ repeat "x"%char 120 ++ js " */" ++ [nl] ++
  js "-- " ++ repeat "-"%char 230 ++ [nl] ++
  js "INSERT INTO t (c) VALUES ('varchar(10) is a string');".

Definition insert_far_rewritten : jsstring :=
  js "CREATE TABLE a (id bigint);" ++ [nl] ++
  js "-- " ++ repeat "-"%char 230 ++ [nl] ++
  js "INSERT INTO t (c) VALUES ('varchar(10) CHARACTER SET utf8mb4 COLLATE utf8mb4_general_ci is a string');".

Definition invisible_two_columns : jsstring :=
  js "CREATE TABLE t (`a` INT INVISIBLE, `b` INT);".

Definition invisible_quoted_table : jsstring :=
  js "CREATE TABLE `t` (a INT INVISIBLE);".

Definition invisible_removed_description : jsstring :=
  js "INVISIBLE column attribute removed - not supported in MariaDB 10.3. Column will be visible.".

(** The number of positions of [s] at which [p] begins. *)
Fixpoint occurrences (p s : jsstring) : nat :=
  (if starts_with p s then 1 else 0) +
  match s with
  | [] => 0
  | _ :: s' => occurrences p s'
  end.

(* ------------------------------------------------------------------ *)
(** ** Vocabulary of the further properties *)
(* ------------------------------------------------------------------ *)

(* ------------------------------------------------------------------ *)
(** ** Line numbers *)
(* ------------------------------------------------------------------ *)

(** The line of the position after the prefix [a] of a text: one more than
    the number of line breaks in [a]. *)
Definition line_of (a : jsstring) : nat := length (split_lines a).

(* ------------------------------------------------------------------ *)
(** ** The shape of the issues *)
(* ------------------------------------------------------------------ *)

(** The issue points at one of the first [lines] lines. *)
Definition located (lines : nat) (i : ConversionIssue) : Prop :=
  exists n, lineNumber i = Some n /\ 1 <= n <= lines.

(** The issue quotes the text it is about, and says what the text became
    exactly when it is marked as fixed. *)
Definition well_formed (i : ConversionIssue) : Prop :=
  originalText i <> None /\ (autoFixed i = true <-> convertedText i <> None).

(** On the matches of its pattern the callback returns, reports at most one
    issue, through [addIssue], and the issue satisfies [P]. *)
Definition cb_emits (P : ConversionIssue -> Prop) (re : regex) (cb : callback estate)
  : Prop :=
  forall mi st, produced re mi ->
    exists rep st', cb mi st = Ok (rep, st') /\
      (st' = st \/ exists i, st' = addIssue i st /\ P i).

Definition line_emits (P : ConversionIssue -> Prop) (lines : nat)
           (f : nat -> jsstring -> estate -> estate) : Prop :=
  forall index line st, index < lines ->
    f index line st = st \/ exists i, f index line st = addIssue i st /\ P i.

Definition rule_emits (P : ConversionIssue -> Prop) (lines : nat) (r : rule) : Prop :=
  match r with
  | Rewrite re cb => cb_emits P re cb
  | PerLine f => line_emits P lines f
  end.

(** What the rules of a run on [sqlContent] record. *)
Definition recorded (sqlContent : jsstring) (i : ConversionIssue) : Prop :=
  located (line_of sqlContent) i /\ well_formed i.

(** The record of the appended [COMMIT;]: it points at the last line of the
    result. *)
Definition commit_record (text : jsstring) (i : ConversionIssue) : Prop :=
  description i = js "Added COMMIT statement at end of file for transaction safety" /\
  lineNumber i = Some (line_of text) /\ well_formed i.

(* ------------------------------------------------------------------ *)
(** ** Rules that only report *)
(* ------------------------------------------------------------------ *)

(** The rules whose callback hands every match back as it is, and the two
    scans of the lines of the input. *)
Definition report_only (sqlContent : jsstring) : list rule :=
  [ Rewrite re_create_if_not_exists (cb_create_if_not_exists sqlContent);
    Rewrite re_engine_innodb (cb_engine_innodb sqlContent);
    Rewrite re_cte (cb_cte sqlContent) ]
  ++ map (fun func => Rewrite (re_window func) (cb_window sqlContent func)) windowFunctions
  ++ [ PerLine (line_generated);
       Rewrite re_check (cb_check sqlContent) ]
  ++ map (fun func => Rewrite (re_json_function func) (cb_json_function sqlContent func))
         jsonFunctions
  ++ [ Rewrite re_partition (cb_partition sqlContent);
       PerLine (line_json);
       Rewrite re_auto_increment (cb_auto_increment sqlContent);
       Rewrite (re_alter_keys "DISABLE") (cb_alter_keys sqlContent "DISABLE");
       Rewrite (re_alter_keys "ENABLE") (cb_alter_keys sqlContent "ENABLE");
       Rewrite re_index (cb_index sqlContent) ].

(** The pass of the rule returns, with the working text as it was. *)
Definition keeps_text (sqlContent : jsstring) (r : rule) : Prop :=
  forall text st, exists st', run_rule sqlContent r text st = Ok (text, st').

(* ------------------------------------------------------------------ *)
(** ** The context test of the key, index and JSON column rules *)
(* ------------------------------------------------------------------ *)

(** No position of [text] has a [CREATE TABLE] keyword in the [w] characters
    before it. *)
Definition no_create_table_before (w : nat) (text : jsstring) : bool :=
  forallb (fun offset =>
             negb (test re_create_table (substring text (offset - w) offset)))
          (seq 0 (S (length text))).

Definition key_example : jsstring := js "KEY `idx_a` (`a`)".

(* ------------------------------------------------------------------ *)
(** ** What single rules match and write *)
(* ------------------------------------------------------------------ *)

(** Is the last, or the first, character of a text a word character. *)
Definition ends_with_word (a : jsstring) : bool :=
  match rev a with
  | c :: _ => is_word c
  | [] => false
  end.

Definition starts_with_word (b : jsstring) : bool :=
  match b with
  | c :: _ => is_word c
  | [] => false
  end.

(** A collation name of the table: not empty, made of word characters. *)
Definition word_name (k : string) : bool :=
  forallb is_word (js k) && negb (Nat.eqb (length (js k)) 0).

Definition collation_example_match : match_info :=
  MatchInfo (js "utf8mb4_0900_ai_ci") [] 8 (js "COLLATE utf8mb4_0900_ai_ci;").

(** [endsWith], for the statements about names. *)
Definition ends_with (s suffix : jsstring) : bool :=
  starts_with (rev suffix) (rev s).

(** The properties of the collation table, as a test on one entry. *)
Definition entry_keeps_class (e : string * string) : bool :=
  (if ends_with (js (fst e)) (js "_ci")
   then String.eqb (snd e) "utf8mb4_unicode_ci"
   else (ends_with (js (fst e)) (js "_cs") || ends_with (js (fst e)) (js "_bin")
         || ends_with (js (fst e)) (js "_cs_ks"))
        && String.eqb (snd e) "utf8mb4_bin").

Definition entry_final (e : string * string) : bool :=
  forallb (fun e' => negb (test (re_collation (fst e')) (js (snd e)))) mysqlCollationMap.

Definition int_example_match : match_info :=
  MatchInfo (js "int(11)") [(2, js "11"); (1, js "int")] 5 (js "`id` int(11) NOT NULL").

(** A pattern without capture groups leaves the captures as they are. *)
Fixpoint groupless (r : regex) : bool :=
  match r with
  | Group _ _ => false
  | Seq a b | Alt a b => groupless a && groupless b
  | Star _ a | Opt a => groupless a
  | _ => true
  end.

Definition json_example_match : match_info :=
  MatchInfo (js "doc->>'$.a'") [(3, js "'$.a'"); (2, js "->>"); (1, js "doc")] 7
            (js "SELECT doc->>'$.a' FROM t").

Definition not_u (c : ascii) : bool := negb (eqb_char "u" c).

Definition charset_example_match : match_info :=
  MatchInfo (js "CHARSET=UTF8") [] 8 (js "DEFAULT CHARSET=UTF8;").

(* ------------------------------------------------------------------ *)
(** ** The scans of the lines of the input *)
(* ------------------------------------------------------------------ *)

(** The lines of a text with their indices, from [index] on. *)
Fixpoint numbered (index : nat) (lines : list jsstring) : list (nat * jsstring) :=
  match lines with
  | [] => []
  | line :: lines' => (index, line) :: numbered (S index) lines'
  end.

(** The test and the record of the scan for generated columns. *)
Definition generated_line (line : jsstring) : bool :=
  test re_generated line && negb (starts_with (js "--") (trim line)).

Definition generated_issue (il : nat * jsstring) : ConversionIssue :=
  {| lineNumber := Some (fst il + 1);
     issueType := warning;
     category := compatibility;
     description :=
       js "Generated/computed column detected - verify MariaDB 10.3 syntax compatibility manually";
     originalText := Some (trim (snd il));
     convertedText := None;
     autoFixed := false |}.

(** The test and the record of the scan for JSON. *)
Definition json_line (line : jsstring) : bool :=
  includes (toLowerCase line) (js "json") && negb (starts_with (js "--") (trim line)).

Definition json_issue (il : nat * jsstring) : ConversionIssue :=
  {| lineNumber := Some (fst il + 1);
     issueType := warning;
     category := compatibility;
     description :=
       js "JSON column type detected - MariaDB 10.3 JSON support is functional but may have differences from MySQL 8.0";
     originalText := Some (trim (snd il));
     convertedText := None;
     autoFixed := false |}.

(* ------------------------------------------------------------------ *)
(** ** Blank lines *)
(* ------------------------------------------------------------------ *)

(** Does the text begin with white space up to and including a line break:
    the part [\s*\n] of the pattern for blank lines. *)
Fixpoint ws_nl (after : jsstring) : bool :=
  match after with
  | c :: t => is_space c && (ws_nl t || eqb_char nl c)
  | [] => false
  end.

(** Is the position after [before] the beginning of a line (the [m] flag). *)
Definition bol_of (before : list ascii) : bool :=
  match before with
  | [] => true
  | c :: _ => is_lineterm c
  end.

(** Does [s] hold a blank line, [bol] telling whether [s] begins a line. *)
Fixpoint has_blank (bol : bool) (s : jsstring) : bool :=
  if bol && ws_nl s then true
  else match s with
       | c :: t => has_blank (is_lineterm c) t
       | [] => false
       end.

(* ------------------------------------------------------------------ *)
(** ** The job store ([src/server/storage.ts]) *)
(* ------------------------------------------------------------------ *)

Module Storage.

(** A JavaScript [Map] with string keys: the entries in insertion order.
    [set] on a key that is present replaces the value in place. *)
Definition Map (V : Type) : Type := list (jsstring * V).

Fixpoint get (V : Type) (k : jsstring) (m : Map V) : option V :=
  match m with
  | [] => None
  | (k', v) :: m' => if eqb_str k' k then Some v else get k m'
  end.

Fixpoint set (V : Type) (k : jsstring) (v : V) (m : Map V) : Map V :=
  match m with
  | [] => [(k, v)]
  | (k', v') :: m' =>
      if eqb_str k' k then (k', v) :: m' else (k', v') :: set k v m'
  end.

(** [Array.from(map.values())] *)
Definition values (V : Type) (m : Map V) : list V := List.map snd m.

(** A point in time ([Date]), in milliseconds. *)
Definition Date : Type := nat.

Record User : Type := mkUser {
  user_id : jsstring;
  username : jsstring;
  password : jsstring
}.

Record InsertUser : Type := mkInsertUser {
  new_username : jsstring;
  new_password : jsstring
}.

Record ConversionJob : Type := mkJob {
  job_id : jsstring;
  fileName : jsstring;
  fileSize : nat;
  originalContent : jsstring;
  convertedContent : option jsstring;
  status : jsstring;
  createdAt : option Date;
  completedAt : option Date
}.

Record InsertConversionJob : Type := mkInsertJob {
  new_fileName : jsstring;
  new_fileSize : nat;
  new_originalContent : jsstring
}.

(** [Partial<ConversionJob>]: the fields that are present. *)
Record JobUpdates : Type := mkUpdates {
  upd_id : option jsstring;
  upd_fileName : option jsstring;
  upd_fileSize : option nat;
  upd_originalContent : option jsstring;
  upd_convertedContent : option (option jsstring);
  upd_status : option jsstring;
  upd_createdAt : option (option Date);
  upd_completedAt : option (option Date)
}.


(** A stored issue: the issue of the engine with its identifier and its job;
    the optional fields are [null] ([None]) when absent. *)
Record StoredIssue : Type := mkStoredIssue {
  issue_id : jsstring;
  issue_jobId : jsstring;
  issue_lineNumber : option nat;
  issue_issueType : IssueType;
  issue_category : Category;
  issue_description : jsstring;
  issue_originalText : option jsstring;
  issue_convertedText : option jsstring;
  issue_autoFixed : bool
}.

Record InsertConversionIssue : Type := mkInsertIssue {
  new_jobId : jsstring;
  new_lineNumber : option nat;
  new_issueType : IssueType;
  new_category : Category;
  new_description : jsstring;
  new_originalText : option jsstring;
  new_convertedText : option jsstring;
  new_autoFixed : option bool
}.

Record StoredStats : Type := mkStoredStats {
  stats_id : jsstring;
  stats_jobId : jsstring;
  stats_totalIssues : nat;
  stats_autoFixed : nat;
  stats_warningsCount : nat;
  stats_errorsCount : nat;
  stats_optimizationsCount : nat;
  stats_conversionTimeMs : Z
}.

Record InsertConversionStats : Type := mkInsertStats {
  new_stats_jobId : jsstring;
  new_totalIssues : option nat;
  new_stats_autoFixed : option nat;
  new_warningsCount : option nat;
  new_errorsCount : option nat;
  new_optimizationsCount : option nat;
  new_conversionTimeMs : option Z
}.

(** [class MemStorage] *)
Record MemStorage : Type := mkStorage {
  users : Map User;
  conversionJobs : Map ConversionJob;
  conversionIssues : Map (list StoredIssue);
  conversionStats : Map StoredStats
}.

(** [constructor()] *)
Definition empty : MemStorage := mkStorage [] [] [] [].

(** [a ?? b] *)
Definition nullish (A : Type) (a : option A) (b : A) : A :=
  match a with
  | Some x => x
  | None => b
  end.

Definition getUser (id : jsstring) (s : MemStorage) : option User :=
  get id (users s).

Definition getUserByUsername (name : jsstring) (s : MemStorage) : option User :=
  find (fun user => eqb_str (username user) name) (values (users s)).

(** [randomUUID()] is the argument [id] of the operations that create. *)
Definition createUser (id : jsstring) (insertUser : InsertUser) (s : MemStorage)
  : User * MemStorage :=
  let user := mkUser id (new_username insertUser) (new_password insertUser) in
  (user, mkStorage (set id user (users s)) (conversionJobs s) (conversionIssues s)
                   (conversionStats s)).

Definition createConversionJob (id : jsstring) (now : Date)
           (insertJob : InsertConversionJob) (s : MemStorage)
  : ConversionJob * MemStorage :=
  let job :=
    mkJob id (new_fileName insertJob) (new_fileSize insertJob)
          (new_originalContent insertJob) None (js "pending") (Some now) None in
  (job, mkStorage (users s) (set id job (conversionJobs s)) (conversionIssues s)
                  (conversionStats s)).

Definition getConversionJob (id : jsstring) (s : MemStorage) : option ConversionJob :=
  get id (conversionJobs s).

(** [{ ...job, ...updates }] *)
Definition merge (job : ConversionJob) (updates : JobUpdates) : ConversionJob :=
  mkJob (nullish (upd_id updates) (job_id job))
        (nullish (upd_fileName updates) (fileName job))
        (nullish (upd_fileSize updates) (fileSize job))
        (nullish (upd_originalContent updates) (originalContent job))
        (nullish (upd_convertedContent updates) (convertedContent job))
        (nullish (upd_status updates) (status job))
        (nullish (upd_createdAt updates) (createdAt job))
        (nullish (upd_completedAt updates) (completedAt job)).

Definition updateConversionJob (id : jsstring) (updates : JobUpdates) (s : MemStorage)
  : option ConversionJob * MemStorage :=
  match get id (conversionJobs s) with
  | None => (None, s)
  | Some job =>
      let updatedJob := merge job updates in
      (Some updatedJob,
       mkStorage (users s) (set id updatedJob (conversionJobs s)) (conversionIssues s)
                 (conversionStats s))
  end.

Definition createConversionIssue (id : jsstring) (insertIssue : InsertConversionIssue)
           (s : MemStorage) : StoredIssue * MemStorage :=
  let issue :=
    mkStoredIssue id (new_jobId insertIssue) (new_lineNumber insertIssue)
                  (new_issueType insertIssue) (new_category insertIssue)
                  (new_description insertIssue) (new_originalText insertIssue)
                  (new_convertedText insertIssue)
                  (nullish (new_autoFixed insertIssue) false) in
  let jobIssues := nullish (get (new_jobId insertIssue) (conversionIssues s)) [] in
  (issue,
   mkStorage (users s) (conversionJobs s)
             (set (new_jobId insertIssue) (jobIssues ++ [issue]) (conversionIssues s))
             (conversionStats s)).

Definition getConversionIssues (jobId : jsstring) (s : MemStorage) : list StoredIssue :=
  nullish (get jobId (conversionIssues s)) [].

Definition createConversionStats (id : jsstring) (insertStats : InsertConversionStats)
           (s : MemStorage) : StoredStats * MemStorage :=
  let stats :=
    mkStoredStats id (new_stats_jobId insertStats)
                  (nullish (new_totalIssues insertStats) 0)
                  (nullish (new_stats_autoFixed insertStats) 0)
                  (nullish (new_warningsCount insertStats) 0)
                  (nullish (new_errorsCount insertStats) 0)
                  (nullish (new_optimizationsCount insertStats) 0)
                  (nullish (new_conversionTimeMs insertStats) 0%Z) in
  (stats,
   mkStorage (users s) (conversionJobs s) (conversionIssues s)
             (set (new_stats_jobId insertStats) stats (conversionStats s))).

Definition getConversionStats (jobId : jsstring) (s : MemStorage) : option StoredStats :=
  get jobId (conversionStats s).

(* ------------------------------------------------------------------ *)
(** *** The routes that use the store and the engine *)

(** The engine a route calls, the identifiers [randomUUID()] gives (in the
    order of the calls) and the clock are given from outside. *)
Inductive Response : Type :=
| Status404 (error : jsstring)
| Status500 (error : jsstring)
| AnalyzeDone (status : jsstring) (stats : ConversionStats)
| JobInfo (job : ConversionJob) (issues : list StoredIssue) (stats : option StoredStats)
| FileDownload (fileName content : jsstring).

(** [{ jobId, ...issue }] *)
Definition insert_of (jobId : jsstring) (issue : ConversionIssue)
  : InsertConversionIssue :=
  match issue with
  | Issue ln ty cat d ot ct fixed => mkInsertIssue jobId ln ty cat d ot ct (Some fixed)
  end.

(** [for (const issue of conversionResult.issues)
       await storage.createConversionIssue({ jobId, ...issue })] *)
Fixpoint store_issues (jobId : jsstring) (uuid : nat -> jsstring) (n : nat)
         (l : list ConversionIssue) (s : MemStorage) : MemStorage :=
  match l with
  | [] => s
  | issue :: l' =>
      store_issues jobId uuid (S n) l'
                   (snd (createConversionIssue (uuid n) (insert_of jobId issue) s))
  end.

(** [app.post("/api/convert/:jobId/analyze", ...)] *)
Definition analyze (convert : jsstring -> result ConversionResult)
           (uuid : nat -> jsstring) (startTime endTime completed : Date)
           (jobId : jsstring) (s : MemStorage) : Response * MemStorage :=
  match getConversionJob jobId s with
  | None => (Status404 (js "Conversion job not found"), s)
  | Some job =>
      let s1 := snd (updateConversionJob jobId
                       (mkUpdates None None None None None (Some (js "analyzing"))
                                  None None) s) in
      match convert (originalContent job) with
      | Throw =>
          (Status500 (js "Failed to analyze conversion job"),
           snd (updateConversionJob jobId
                  (mkUpdates None None None None None (Some (js "failed")) None None)
                  s1))
      | Ok conversionResult =>
          let conversionTime := (Z.of_nat endTime - Z.of_nat startTime)%Z in
          let issues := res_issues conversionResult in
          let s2 := store_issues jobId uuid 0 issues s1 in
          let st := res_stats conversionResult in
          let s3 :=
            snd (createConversionStats (uuid (length issues))
                   (mkInsertStats jobId (Some (totalIssues st))
                                  (Some (autoFixedCount st)) (Some (warningsCount st))
                                  (Some (errorsCount st)) (Some (optimizationsCount st))
                                  (Some conversionTime)) s2) in
          let s4 :=
            snd (updateConversionJob jobId
                   (mkUpdates None None None None
                              (Some (Some (convertedSQL conversionResult)))
                              (Some (js "completed")) None (Some (Some completed)))
                   s3) in
          (AnalyzeDone (js "completed") st, s4)
      end
  end.

(** [app.get("/api/convert/:jobId", ...)] *)
Definition jobInfo (jobId : jsstring) (s : MemStorage) : Response :=
  match getConversionJob jobId s with
  | None => Status404 (js "Conversion job not found")
  | Some job => JobInfo job (getConversionIssues jobId s) (getConversionStats jobId s)
  end.

(** [job.fileName.replace(/\.[^/.]+$/, Q) + "_mariadb103.sql"], [Q] being
    the empty string *)
Definition re_extension : regex :=
  (ch "." ;; plus (none_of "/.") ;; Eol)%re.

Definition downloadName (fileName : jsstring) : jsstring :=
  replace_first re_extension [] fileName ++ js "_mariadb103.sql".

(** [app.get("/api/convert/:jobId/download", ...)]; an empty string is
    falsy, as [null] is. *)
Definition download (jobId : jsstring) (s : MemStorage) : Response :=
  match getConversionJob jobId s with
  | None => Status404 (js "Converted file not found")
  | Some job =>
      match convertedContent job with
      | None | Some [] => Status404 (js "Converted file not found")
      | Some content => FileDownload (downloadName (fileName job)) content
      end
  end.

End Storage.

Definition job_example : Storage.ConversionJob :=
  Storage.mkJob (js "job-1") (js "dump.sql") 9 (js "SELECT 1;") None (js "pending")
                (Some 0) None.

Definition store_example : Storage.MemStorage :=
  Storage.mkStorage [] [(js "job-1", job_example)] [] [].

(** The issues of a result as the store keeps them for job [jobId], the
    [n]-th identifier onwards. *)
Fixpoint stored_as (jobId : jsstring) (uuid : nat -> jsstring) (n : nat)
         (l : list ConversionIssue) : list Storage.StoredIssue :=
  match l with
  | [] => []
  | issue :: l' =>
      Storage.mkStoredIssue (uuid n) jobId (lineNumber issue) (issueType issue)
                            (category issue) (description issue) (originalText issue)
                            (convertedText issue) (autoFixed issue)
      :: stored_as jobId uuid (S n) l'
  end.

(** The characters an extension is made of: [[^/.]]. *)
Definition ext_char (c : ascii) : bool := negb (existsb (eqb_char c) (js "/.")).

Definition uuid_example (n : nat) : jsstring := repeat "u"%char (S n).

Definition failing_engine (s : jsstring) : result ConversionResult := Throw.

(** [lines.join('\n')] *)
Fixpoint join_lines (l : list jsstring) : jsstring :=
  match l with
  | [] => []
  | [x] => x
  | x :: l' => x ++ nl :: join_lines l'
  end.

(** [getPreviewLines] of [src/client/src/components/code-comparison.tsx]:
    [sql.split('\n').slice(0, lines).join('\n')]; the component calls it with
    the default of 20 lines. *)
Definition getPreviewLines (sql : jsstring) (lines : nat) : jsstring :=
  join_lines (firstn lines (split_lines sql)).

Definition preview (sql : jsstring) : jsstring := getPreviewLines sql 20.

Definition no_newline (x : jsstring) : Prop := ~ In nl x.

Definition users_example : Storage.MemStorage :=
  snd (Storage.createUser (js "u-1") (Storage.mkInsertUser (js "ann") (js "pw1"))
                          Storage.empty).

(* ================================================================== *)
(** * Properties *)
(* ================================================================== *)

(* ------------------------------------------------------------------ *)
(** ** Properties of the matcher *)
(* ------------------------------------------------------------------ *)

Lemma star_loop_sound (ma : mstate -> (mstate -> option mstate) -> option mstate)
      (a : regex) (g : bool) (k : mstate -> option mstate) :
  (forall x k' z, ma x k' = Some z -> exists y, matches a x y /\ k' y = Some z) ->
  forall n x z, star_loop ma g k n x = Some z ->
                exists y, matches (Star g a) x y /\ k y = Some z.
Proof.
  intros Ha n. induction n as [|n IH]; intros x z H; simpl in H.
  - exists x. split; [constructor | exact H].
  - assert (Hiter : forall z',
      ma x (fun y => if moved x y then star_loop ma g k n y else None) = Some z' ->
      exists y, matches (Star g a) x y /\ k y = Some z').
    { intros z' Hz. apply Ha in Hz. destruct Hz as (y & Hy & Hk).
      destruct (moved x y) eqn:Hm; [|discriminate].
      apply IH in Hk. destruct Hk as (y' & Hy' & Hk').
      exists y'. split; [|exact Hk']. eapply M_star_step; eauto. }
    destruct g.
    + match type of H with
      | match ?t with _ => _ end = _ => destruct t eqn:Hi
      end.
      * apply Hiter. exact H.
      * exists x. split; [constructor | exact H].
    + destruct (k x) eqn:Hk.
      * inversion H; subst. exists x. split; [constructor | exact Hk].
      * apply Hiter; exact H.
Qed.

Lemma mtch_sound (r : regex) :
  forall x k z, mtch r x k = Some z -> exists y, matches r x y /\ k y = Some z.
Proof.
  induction r as [| p | a IHa b IHb | a IHa b IHb | g a IHa | a IHa | n a IHa
                 | | ml | | a IHa]; intros x k z H; simpl in H.
  - exists x. split; [constructor | exact H].
  - destruct (rest x) as [|c t] eqn:Hr; [discriminate|].
    destruct (p c) eqn:Hp; [|discriminate].
    exists (advance x c t). split; [constructor; assumption | exact H].
  - apply IHa in H. destruct H as (y & Hy & H).
    apply IHb in H. destruct H as (y' & Hy' & H).
    exists y'. split; [econstructor; eauto | exact H].
  - destruct (mtch a x k) eqn:Ha.
    + rewrite <- Ha in H. apply IHa in H. destruct H as (y & Hy & H).
      exists y. split; [apply M_alt_l; exact Hy | exact H].
    + apply IHb in H. destruct H as (y & Hy & H).
      exists y. split; [apply M_alt_r; exact Hy | exact H].
  - eapply star_loop_sound; [|exact H]. exact IHa.
  - destruct (mtch a x (fun y => if moved x y then k y else None)) eqn:Ha.
    + rewrite <- Ha in H. apply IHa in H. destruct H as (y & Hy & H).
      destruct (moved x y) eqn:Hm; [|discriminate].
      exists y. split; [apply M_opt_take; assumption | exact H].
    + exists x. split; [constructor | exact H].
  - apply IHa in H. destruct H as (y & Hy & H).
    eexists. split; [apply M_group; exact Hy | exact H].
  - destruct (xorb (word_before x) (word_after x)) eqn:Hb; [|discriminate].
    exists x. split; [constructor; exact Hb | exact H].
  - destruct (at_bol ml x) eqn:Hb; [|discriminate].
    exists x. split; [constructor; exact Hb | exact H].
  - destruct (at_eol x) eqn:Hb; [|discriminate].
    exists x. split; [constructor; exact Hb | exact H].
  - destruct (mtch a x (fun y => Some y)) eqn:Hn; [discriminate|].
    exists x. split; [constructor; exact Hn | exact H].
Qed.

Lemma extends_refl x : extends x x.
Proof. exists []. split; reflexivity. Qed.

Lemma extends_trans x y z : extends x y -> extends y z -> extends x z.
Proof.
  intros (w1 & H1 & H1') (w2 & H2 & H2'). exists (w1 ++ w2). split.
  - rewrite H1, H2. now rewrite app_assoc.
  - rewrite H2', H1'. rewrite rev_app_distr. now rewrite app_assoc.
Qed.

Lemma matches_extends r x y : matches r x y -> extends x y.
Proof.
  induction 1; try apply extends_refl; try assumption.
  - exists [c]. simpl. split; [assumption | reflexivity].
  - eapply extends_trans; eassumption.
  - eapply extends_trans; eassumption.
Qed.

Lemma matches_caps_mono r x y n :
  matches r x y -> cap_lookup (caps x) n <> None -> cap_lookup (caps y) n <> None.
Proof.
  induction 1; intros Hx; auto.
  simpl. destruct (Nat.eqb n0 n); [discriminate | auto].
Qed.

Lemma matches_sets_group r x y n :
  matches r x y -> sets_group r n = true -> cap_lookup (caps y) n <> None.
Proof.
  induction 1; simpl; intros Hs; try discriminate.
  - apply orb_true_iff in Hs. destruct Hs as [Hs | Hs].
    + eapply matches_caps_mono; [eassumption | auto].
    + auto.
  - apply andb_true_iff in Hs. destruct Hs; auto.
  - apply andb_true_iff in Hs. destruct Hs; auto.
  - destruct (Nat.eqb n0 n) eqn:He; [discriminate|]. simpl in Hs. auto.
Qed.

Lemma produced_group r mi n :
  produced r mi -> sets_group r n = true -> grp mi n <> None.
Proof.
  intros (s & before & after & y & _ & He & ->) Hs. unfold exec_at in He.
  apply mtch_sound in He. destruct He as (y' & Hm & Hy). inversion Hy; subst.
  unfold grp, info_of; simpl. eapply matches_sets_group; eassumption.
Qed.

(* ------------------------------------------------------------------ *)
(** ** Properties of [replace] *)
(* ------------------------------------------------------------------ *)

Section ReplaceFacts.
Variable St : Type.
Variable R : St -> St -> Prop.
Hypothesis R_refl : forall st, R st st.
Hypothesis R_trans : forall a b c, R a b -> R b c -> R a c.

Variable r : regex.
Variable cb : callback St.
Variable s : jsstring.

Lemma rev_cons_app (c : ascii) (before t : list ascii) :
  rev (c :: before) ++ t = rev before ++ c :: t.
Proof. simpl. rewrite <- app_assoc. reflexivity. Qed.

(** If the callback returns, in a state related to the one it was called
    in, on every match the matcher can produce on [s], so does [replace]. *)
Lemma replace_from_ok :
  (forall mi st, produced_on s r mi ->
                 exists rep st', cb mi st = Ok (rep, st') /\ R st st') ->
  forall after before skip st,
    s = rev before ++ after ->
    exists out st', replace_from r cb before after skip st = Ok (out, st') /\ R st st'.
Proof.
  intros Hcb after. induction after as [|c t IH]; intros before skip st Hs; simpl.
  - destruct (exec_at r before []) as [y|] eqn:He.
    + destruct (Hcb (info_of before [] y) st) as (rep & st' & H1 & H2).
      { exists before, [], y. auto. }
      exists rep, st'. rewrite H1. auto.
    + exists [], st. auto.
  - assert (Hs' : s = rev (c :: before) ++ t) by (rewrite rev_cons_app; exact Hs).
    destruct skip as [|k].
    + destruct (exec_at r before (c :: t)) as [y|] eqn:He.
      * destruct (Hcb (info_of before (c :: t) y) st) as (rep & st1 & H1 & H2).
        { exists before, (c :: t), y. auto. }
        rewrite H1. simpl.
        destruct (match_length (c :: t) y) as [|k].
        -- destruct (IH (c :: before) 0 st1 Hs') as (out & st2 & H3 & H4).
           rewrite H3. simpl. exists (rep ++ c :: out), st2. split; eauto.
        -- destruct (IH (c :: before) k st1 Hs') as (out & st2 & H3 & H4).
           rewrite H3. simpl. exists (rep ++ out), st2. split; eauto.
      * destruct (IH (c :: before) 0 st Hs') as (out & st2 & H3 & H4).
        rewrite H3. simpl. exists (c :: out), st2. auto.
    + apply IH. exact Hs'.
Qed.

(** If the callback hands every match back unchanged, [replace] leaves the
    text as it is. *)
Lemma replace_from_id :
  (forall mi st rep st',
      produced_on s r mi -> cb mi st = Ok (rep, st') -> rep = m_text mi) ->
  forall after before skip st out st',
    s = rev before ++ after ->
    replace_from r cb before after skip st = Ok (out, st') ->
    out = skipn skip after.
Proof.
  intros Hcb after. induction after as [|c t IH];
    intros before skip st out st' Hs; simpl.
  - destruct (exec_at r before []) as [y|] eqn:He.
    + intros H. apply Hcb in H; [|exists before, [], y; auto].
      subst out. simpl. now destruct skip.
    + intros H. inversion H. now destruct skip.
  - assert (Hs' : s = rev (c :: before) ++ t) by (rewrite rev_cons_app; exact Hs).
    destruct skip as [|k].
    + destruct (exec_at r before (c :: t)) as [y|] eqn:He.
      * destruct (cb (info_of before (c :: t) y) st) as [[rep st1]|] eqn:Hc;
          [|discriminate].
        simpl. apply Hcb in Hc; [|exists before, (c :: t), y; auto].
        subst rep. unfold info_of; simpl m_text.
        destruct (match_length (c :: t) y) as [|k] eqn:Hn.
        -- destruct (replace_from r cb (c :: before) t 0 st1) as [[o s2]|] eqn:Hr;
             [|discriminate].
           simpl. intros H; inversion H; subst. apply IH in Hr; [|exact Hs'].
           now subst o.
        -- destruct (replace_from r cb (c :: before) t k st1) as [[o s2]|] eqn:Hr;
             [|discriminate].
           simpl. intros H; inversion H; subst. apply IH in Hr; [|exact Hs'].
           subst o. simpl. f_equal. apply firstn_skipn.
      * destruct (replace_from r cb (c :: before) t 0 st) as [[o s2]|] eqn:Hr;
          [|discriminate].
        simpl. intros H; inversion H; subst. apply IH in Hr; [|exact Hs'].
        now subst o.
    + intros H. apply IH in H; [exact H | exact Hs'].
Qed.

Corollary replace_ok :
  (forall mi st, produced_on s r mi ->
                 exists rep st', cb mi st = Ok (rep, st') /\ R st st') ->
  forall st, exists out st', replace r cb s st = Ok (out, st') /\ R st st'.
Proof. intros H st. apply replace_from_ok; [exact H | reflexivity]. Qed.

Corollary replace_id :
  (forall mi st rep st',
      produced_on s r mi -> cb mi st = Ok (rep, st') -> rep = m_text mi) ->
  forall st out st', replace r cb s st = Ok (out, st') -> out = s.
Proof.
  intros H st out st' Hr. apply (replace_from_id H) in Hr; [exact Hr | reflexivity].
Qed.
End ReplaceFacts.

(* ------------------------------------------------------------------ *)
(** ** What every rule does to the accumulators *)
(* ------------------------------------------------------------------ *)

(** The hand-written bookkeeping of the older rules is [addIssue] for the
    issue types they use. *)
Lemma push_warning_fixed_addIssue i st :
  issueType i = warning -> autoFixed i = true ->
  push_warning_fixed i st = addIssue i st.
Proof. intros H1 H2. unfold push_warning_fixed, addIssue. now rewrite H1, H2. Qed.

Lemma push_optimization_fixed_addIssue i st :
  issueType i = info -> autoFixed i = true ->
  push_optimization_fixed i st = addIssue i st.
Proof. intros H1 H2. unfold push_optimization_fixed, addIssue. now rewrite H1, H2. Qed.

Ltac head_of t :=
  lazymatch t with
  | ?f _ => head_of f
  | _ => t
  end.

Ltac close_cb :=
  do 2 eexists; split; [reflexivity|];
  first
    [ left; reflexivity
    | right;
      lazymatch goal with
      | |- exists i, addIssue ?x _ = _ /\ _ => exists x; split; [reflexivity|]
      | |- exists i, push_warning_fixed ?x _ = _ /\ _ =>
          exists x; split; [apply push_warning_fixed_addIssue; reflexivity|]
      | |- exists i, push_optimization_fixed ?x _ = _ /\ _ =>
          exists x; split; [apply push_optimization_fixed_addIssue; reflexivity|]
      end;
      simpl; intros Hfix; first [discriminate Hfix | reflexivity] ].

Ltac split_cb :=
  repeat lazymatch goal with
         | |- context [if ?b then _ else _] => destruct b
         | |- context [match ?x with Some _ => _ | None => _ end] => destruct x
         end.

Ltac solve_cb :=
  lazymatch goal with
  | |- cb_ok _ ?cb =>
      let h := head_of cb in
      unfold cb_ok, h; intros mi st Hp; cbv zeta; split_cb; close_cb
  end.

(** A callback that calls a method on a capture group: the group takes part
    in every match of the pattern. *)
Ltac solve_cb_group n :=
  lazymatch goal with
  | |- cb_ok ?re ?cb =>
      let h := head_of cb in
      unfold cb_ok, h; intros mi st Hp; cbv zeta;
      let Hg := fresh "Hg" in
      assert (Hg : grp mi n <> None)
        by (apply (@produced_group re); [exact Hp | vm_compute; reflexivity]);
      destruct (grp mi n); [|contradiction]; simpl on_defined; cbn [bind];
      split_cb; close_cb
  end.

Section RulesOk.
Variable sqlContent : jsstring.

Lemma collation_ok k v :
  cb_ok (re_collation k) (cb_collation sqlContent v).
Proof. solve_cb. Qed.

Lemma set_names_ok : cb_ok re_set_names (cb_set_names sqlContent).
Proof. solve_cb. Qed.

Lemma definer_ok : cb_ok re_definer (cb_definer sqlContent).
Proof. solve_cb. Qed.

Lemma dump_comment_ok : cb_ok re_dump_comment (cb_dump_comment sqlContent).
Proof. solve_cb. Qed.

Lemma version_comment_ok : cb_ok re_version_comment (cb_version_comment sqlContent).
Proof. solve_cb_group 2. Qed.

Lemma create_if_not_exists_ok :
  cb_ok re_create_if_not_exists (cb_create_if_not_exists sqlContent).
Proof. solve_cb. Qed.

Lemma latin1_ok : cb_ok re_latin1 (cb_latin1 sqlContent).
Proof. solve_cb. Qed.

Lemma using_btree_ok : cb_ok re_using_btree (cb_using_btree sqlContent).
Proof. solve_cb. Qed.

Lemma local_infile_ok : cb_ok re_local_infile (cb_local_infile sqlContent).
Proof. solve_cb. Qed.

Lemma foreign_key_checks_ok :
  cb_ok re_foreign_key_checks (cb_foreign_key_checks sqlContent).
Proof. solve_cb. Qed.

Lemma sql_mode_ok : cb_ok re_sql_mode (cb_sql_mode sqlContent).
Proof. solve_cb_group 1. Qed.

Lemma lock_tables_ok : cb_ok re_lock_tables (cb_lock_tables sqlContent).
Proof. solve_cb. Qed.

Lemma unlock_tables_ok : cb_ok re_unlock_tables (cb_unlock_tables sqlContent).
Proof. solve_cb. Qed.

Lemma default_character_set_ok :
  cb_ok re_default_character_set (cb_default_character_set sqlContent).
Proof. solve_cb. Qed.

Lemma default_charset_ok : cb_ok re_default_charset (cb_default_charset sqlContent).
Proof. solve_cb. Qed.

Lemma engine_innodb_ok : cb_ok re_engine_innodb (cb_engine_innodb sqlContent).
Proof. solve_cb. Qed.

Lemma int_width_ok : cb_ok re_int_width (cb_int_width sqlContent).
Proof. solve_cb. Qed.

Lemma cte_ok : cb_ok re_cte (cb_cte sqlContent).
Proof. solve_cb. Qed.

Lemma window_ok func : cb_ok (re_window func) (cb_window sqlContent func).
Proof. solve_cb. Qed.

Lemma invisible_ok : cb_ok re_invisible (cb_invisible sqlContent).
Proof. solve_cb. Qed.

Lemma check_ok : cb_ok re_check (cb_check sqlContent).
Proof. solve_cb. Qed.

Lemma json_function_ok func :
  cb_ok (re_json_function func) (cb_json_function sqlContent func).
Proof. solve_cb. Qed.

Lemma json_operator_ok : cb_ok re_json_operator (cb_json_operator sqlContent).
Proof. solve_cb. Qed.

Lemma fulltext_ok : cb_ok re_fulltext (cb_fulltext sqlContent).
Proof. solve_cb. Qed.

Lemma partition_ok : cb_ok re_partition (cb_partition sqlContent).
Proof. solve_cb. Qed.

Lemma auto_increment_ok : cb_ok re_auto_increment (cb_auto_increment sqlContent).
Proof. solve_cb. Qed.

Lemma timestamp_ok : cb_ok re_timestamp (cb_timestamp sqlContent).
Proof. solve_cb. Qed.

Lemma alter_keys_ok what :
  cb_ok (re_alter_keys what) (cb_alter_keys sqlContent what).
Proof. solve_cb. Qed.

Lemma charset_utf8_ok : cb_ok re_charset_utf8 (cb_charset_utf8 sqlContent).
Proof. solve_cb. Qed.

Lemma collate_general_ok : cb_ok re_collate_general (cb_collate_general sqlContent).
Proof. solve_cb. Qed.

Lemma plain_key_ok : cb_ok re_plain_key (cb_plain_key sqlContent).
Proof. solve_cb_group 1. Qed.

Lemma character_set_utf8_ok :
  cb_ok re_character_set_utf8 (cb_character_set_utf8 sqlContent).
Proof. solve_cb. Qed.

Lemma default_charset_utf8_ok :
  cb_ok re_default_charset_utf8 (cb_default_charset_utf8 sqlContent).
Proof. solve_cb. Qed.

Lemma index_ok : cb_ok re_index (cb_index sqlContent).
Proof. solve_cb. Qed.

Lemma row_format_ok : cb_ok re_row_format (cb_row_format sqlContent).
Proof. solve_cb. Qed.

Lemma json_column_ok : cb_ok re_json_column (cb_json_column sqlContent).
Proof. solve_cb. Qed.

Lemma text_ok : cb_ok re_text (cb_text sqlContent).
Proof. solve_cb. Qed.

Lemma varchar_ok : cb_ok re_varchar (cb_varchar sqlContent).
Proof. solve_cb. Qed.

Lemma collate_unicode_ok : cb_ok re_collate_unicode (cb_collate_unicode sqlContent).
Proof. solve_cb. Qed.

Lemma triple_newline_ok : cb_ok re_triple_newline cb_triple_newline.
Proof. solve_cb. Qed.

Lemma blank_line_ok : cb_ok re_blank_line cb_blank_line.
Proof. solve_cb. Qed.

Lemma line_generated_ok : line_ok line_generated.
Proof.
  intros index line st. unfold line_generated.
  destruct (test re_generated line && negb (starts_with (js "--") (trim line))).
  - right. eexists. split; reflexivity.
  - left. reflexivity.
Qed.

Lemma line_json_ok : line_ok line_json.
Proof.
  intros index line st. unfold line_json.
  destruct (includes (toLowerCase line) (js "json") &&
            negb (starts_with (js "--") (trim line))).
  - right. eexists. split; reflexivity.
  - left. reflexivity.
Qed.
End RulesOk.

Lemma Forall_map_intro (A B : Type) (P : B -> Prop) (f : A -> B) (l : list A) :
  (forall a, P (f a)) -> Forall P (map f l).
Proof. intros H. induction l; simpl; constructor; auto. Qed.

Lemma rules_ok (sqlContent : jsstring) : Forall rule_ok (rules sqlContent).
Proof.
  unfold rules.
  repeat first
    [ apply Forall_app; split
    | apply Forall_map_intro; intros; simpl
    | apply Forall_cons; simpl
    | apply Forall_nil ];
  auto using collation_ok, set_names_ok, definer_ok, dump_comment_ok,
    version_comment_ok, create_if_not_exists_ok, latin1_ok, using_btree_ok,
    local_infile_ok, foreign_key_checks_ok, sql_mode_ok, lock_tables_ok,
    unlock_tables_ok, default_character_set_ok, default_charset_ok,
    engine_innodb_ok, int_width_ok, cte_ok, window_ok, invisible_ok, check_ok,
    json_function_ok, json_operator_ok, fulltext_ok, partition_ok,
    auto_increment_ok, timestamp_ok, alter_keys_ok, charset_utf8_ok,
    collate_general_ok, plain_key_ok, character_set_utf8_ok,
    default_charset_utf8_ok, index_ok, row_format_ok, json_column_ok, text_ok,
    varchar_ok, collate_unicode_ok, triple_newline_ok, blank_line_ok,
    line_generated_ok, line_json_ok.
Qed.

(* ------------------------------------------------------------------ *)
(** ** Running the rules *)
(* ------------------------------------------------------------------ *)

Lemma grows_trans a b c : grows a b -> grows b c -> grows a c.
Proof. intros Hab Hbc. induction Hbc; [assumption | constructor; auto]. Qed.

Lemma grows_one i st : grows st (addIssue i st).
Proof. constructor. constructor. Qed.

Lemma for_each_line_grows f :
  line_ok f ->
  forall lines index st, grows st (for_each_line f index lines st).
Proof.
  intros Hf lines. induction lines as [|l ls IH]; intros index st; simpl.
  - constructor.
  - eapply grows_trans; [|apply IH].
    destruct (Hf index l st) as [-> | (i & -> & _)]; [constructor | apply grows_one].
Qed.

Lemma run_rule_grows sqlContent r text st :
  rule_ok r ->
  exists text' st',
    run_rule sqlContent r text st = Ok (text', st') /\ grows st st'.
Proof.
  destruct r as [re cb | f]; simpl; intros Hr.
  - apply (replace_ok grows grows_refl grows_trans).
    intros mi s Hp. destruct (Hr mi s (ex_intro _ text Hp)) as (rep & s' & Hc & Hs).
    exists rep, s'. split; [exact Hc|].
    destruct Hs as [-> | (i & -> & _)]; [constructor | apply grows_one].
  - eexists. eexists. split; [reflexivity|].
    apply for_each_line_grows; assumption.
Qed.

Lemma run_rules_grows sqlContent rs :
  Forall rule_ok rs ->
  forall text st,
  exists text' st',
    run_rules sqlContent rs text st = Ok (text', st') /\ grows st st'.
Proof.
  induction 1 as [|r rs Hr _ IH]; intros text st; simpl.
  - exists text, st. split; [reflexivity | constructor].
  - destruct (@run_rule_grows sqlContent r text st Hr) as (t1 & s1 & H1 & G1).
    rewrite H1. simpl.
    destruct (IH t1 s1) as (t2 & s2 & H2 & G2).
    exists t2, s2. split; [exact H2 | eapply grows_trans; eassumption].
Qed.

(** The engine returns on every input. *)
Lemma convert_returns (s : jsstring) :
  exists text st,
    run_rules s (rules s) s init_state = Ok (text, st) /\
    grows init_state st /\
    convertMySQLToMariaDB s =
      Ok (let '(t1, s1) := add_header text st in
          let '(t2, s2) := add_commit t1 s1 in
          finish t2 s2).
Proof.
  destruct (@run_rules_grows s (rules s) (rules_ok s) s init_state) as (text & st & H & G).
  exists text, st. split; [exact H|]. split; [exact G|].
  unfold convertMySQLToMariaDB. rewrite H. simpl.
  destruct (add_header text st) as [t1 s1].
  destruct (add_commit t1 s1) as [t2 s2]. reflexivity.
Qed.

(* ------------------------------------------------------------------ *)
(** ** Counters *)
(* ------------------------------------------------------------------ *)

Lemma count_type_snoc t l i :
  count_type t (l ++ [i]) = count_type t l + (if is_type t i then 1 else 0).
Proof.
  unfold count_type. rewrite filter_app, length_app. simpl.
  destruct (is_type t i); reflexivity.
Qed.

Lemma count_fixed_snoc l i :
  count_fixed (l ++ [i]) = count_fixed l + (if autoFixed i then 1 else 0).
Proof.
  unfold count_fixed. rewrite filter_app, length_app. simpl.
  destruct (autoFixed i); reflexivity.
Qed.

Lemma count_type_total l :
  count_type warning l + count_type error l + count_type info l = length l.
Proof.
  unfold count_type. induction l as [|i l IH]; simpl; [reflexivity|].
  destruct (is_type warning i) eqn:Hw, (is_type error i) eqn:He,
           (is_type info i) eqn:Hi; simpl;
    unfold is_type in Hw, He, Hi; destruct (issueType i); try discriminate; lia.
Qed.

Lemma counted_addIssue i st : counted st -> counted (addIssue i st).
Proof.
  intros (Hw & He & Ho & Hf). unfold counted, addIssue.
  destruct (issueType i) eqn:Ht; destruct (autoFixed i) eqn:Ha; simpl;
    rewrite !count_type_snoc, count_fixed_snoc; unfold is_type;
    rewrite Ht, Ha; repeat split; lia.
Qed.

Lemma counted_grows st st' : grows st st' -> counted st -> counted st'.
Proof. induction 1; intros H0; [assumption | apply counted_addIssue; auto]. Qed.

Lemma counted_init : counted init_state.
Proof. repeat split. Qed.

Lemma add_header_grows text st : grows st (snd (add_header text st)).
Proof.
  unfold add_header. destruct (negb (includes text (js "SET NAMES utf8mb4"))); simpl.
  - rewrite push_optimization_fixed_addIssue by reflexivity. apply grows_one.
  - constructor.
Qed.

Lemma add_commit_grows text st : grows st (snd (add_commit text st)).
Proof.
  unfold add_commit. destruct (negb (includes (toLowerCase text) (js "commit"))); simpl.
  - rewrite push_optimization_fixed_addIssue by reflexivity. apply grows_one.
  - constructor.
Qed.

(** The state the engine ends in, before [totalIssues] is filled in. *)
Lemma convert_grows (s : jsstring) :
  exists text st,
    grows init_state st /\ convertMySQLToMariaDB s = Ok (finish text st).
Proof.
  destruct (convert_returns s) as (text & st & _ & G & H).
  pose proof (add_header_grows text st) as G1.
  destruct (add_header text st) as [t1 s1]. simpl in G1.
  pose proof (add_commit_grows t1 s1) as G2.
  destruct (add_commit t1 s1) as [t2 s2]. simpl in G2.
  exists t2, s2. split; [|exact H].
  eapply grows_trans; [exact G|]. eapply grows_trans; eassumption.
Qed.

(* ------------------------------------------------------------------ *)
(** ** The older copy of the engine *)
(* ------------------------------------------------------------------ *)

Lemma legacy_getLineNumber_eq content searchText :
  Legacy.getLineNumber content searchText = getLineNumber content searchText.
Proof.
  unfold Legacy.getLineNumber, Legacy.indexOf_int, Legacy.substring_int, getLineNumber.
  destruct (indexOf content searchText) as [i|].
  - rewrite (Z.max_r 0 (Z.of_nat i)) by lia. rewrite Nat2Z.id. reflexivity.
  - reflexivity.
Qed.

(** The older rule rewrites the statement that the present rule keeps. *)
Lemma legacy_create_if_not_exists_rewrites :
  let stmt := js "CREATE TABLE IF NOT EXISTS t (id bigint);" in
  exists st',
    replace re_create_if_not_exists (Legacy.cb_create_if_not_exists stmt) stmt init_state
    = Ok (js "DROP TABLE IF EXISTS t;" ++ [nl] ++ js "CREATE TABLE t (id bigint);", st') /\
    map autoFixed (issues st') = [true].
Proof. vm_compute. eexists. split; reflexivity. Qed.

(* ------------------------------------------------------------------ *)
(** ** Verified properties *)
(* ------------------------------------------------------------------ *)

(** C7.  The engine is total: on every input string, the empty one included,
    [convertMySQLToMariaDB] returns a result and does not throw (no callback
    calls a method on a capture group that took no part in the match).  A
    [getLineNumber] lookup whose search text does not occur in the content
    returns line 1; this holds for the copy with the explicit test for [-1]
    and for the older copy without it. *)
Theorem C7_convert_total :
  (forall sqlContent : jsstring,
      exists r : ConversionResult, convertMySQLToMariaDB sqlContent = Ok r) /\
  (exists r : ConversionResult, convertMySQLToMariaDB [] = Ok r) /\
  (forall content searchText : jsstring,
      indexOf content searchText = None ->
      getLineNumber content searchText = 1 /\
      Legacy.getLineNumber content searchText = 1).
Proof.
  assert (Htotal : forall s, exists r, convertMySQLToMariaDB s = Ok r).
  { intros s. destruct (convert_grows s) as (text & st & _ & H). eauto. }
  split; [exact Htotal|]. split; [apply Htotal|].
  intros content searchText Hnone.
  rewrite legacy_getLineNumber_eq. unfold getLineNumber. rewrite Hnone. auto.
Qed.

Lemma C7_convert_total_witness :
  getLineNumber (js "SELECT 1;") (js "utf8") = 1 /\
  Legacy.getLineNumber (js "SELECT 1;") (js "utf8") = 1.
Proof.
  apply (proj2 (proj2 C7_convert_total) (js "SELECT 1;") (js "utf8")).
  reflexivity.
Defined.

(** C8.  On every input the returned statistics are consistent with the
    returned issues: [totalIssues] is the number of issues, each of
    [warningsCount], [errorsCount] and [optimizationsCount] is the number of
    issues of type warning, error and info, and the three add up to
    [totalIssues]. *)
Theorem C8_stats_consistent (sqlContent : jsstring) :
  exists r : ConversionResult,
    convertMySQLToMariaDB sqlContent = Ok r /\
    totalIssues (res_stats r) = length (res_issues r) /\
    warningsCount (res_stats r) = count_type warning (res_issues r) /\
    errorsCount (res_stats r) = count_type error (res_issues r) /\
    optimizationsCount (res_stats r) = count_type info (res_issues r) /\
    warningsCount (res_stats r) + errorsCount (res_stats r) +
      optimizationsCount (res_stats r) = totalIssues (res_stats r).
Proof.
  destruct (convert_grows sqlContent) as (text & st & G & H).
  exists (finish text st). split; [exact H|].
  destruct (counted_grows G counted_init) as (Hw & He & Ho & _).
  unfold finish; simpl. repeat split; try assumption.
  rewrite Hw, He, Ho. apply count_type_total.
Qed.

(** The match handed to a callback is a piece of the searched string, at the
    offset the callback is told. *)
Lemma produced_on_occurs s r mi :
  produced_on s r mi ->
  m_input mi = s /\
  exists a b, s = a ++ m_text mi ++ b /\ length a = m_offset mi.
Proof.
  intros (before & after & y & Hs & He & ->). unfold info_of; simpl.
  split; [symmetry; exact Hs|].
  unfold exec_at in He. apply mtch_sound in He.
  destruct He as (y' & Hm & Hy). inversion Hy; subst y'; clear Hy.
  apply matches_extends in Hm. destruct Hm as (w & Hw & _). simpl in Hw.
  exists (rev before), (rest y). split.
  - rewrite Hs. f_equal. unfold match_length.
    assert (Hf : firstn (length after - length (rest y)) after = w).
    { rewrite Hw. rewrite length_app, Nat.add_sub.
      rewrite firstn_app, Nat.sub_diag, firstn_all. simpl. apply app_nil_r. }
    rewrite Hf. exact Hw.
  - apply length_rev.
Qed.

Lemma appended_refl P st : appended P st st.
Proof. exists []. split; [now rewrite app_nil_r | constructor]. Qed.

Lemma appended_trans P a b c : appended P a b -> appended P b c -> appended P a c.
Proof.
  intros (l1 & H1 & F1) (l2 & H2 & F2). exists (l1 ++ l2). split.
  - rewrite H2, H1. now rewrite app_assoc.
  - apply Forall_app; auto.
Qed.

Lemma appended_addIssue (P : ConversionIssue -> Prop) i st :
  P i -> appended P st (addIssue i st).
Proof.
  intros Hi. exists [i]. split; [|repeat constructor; exact Hi].
  unfold addIssue. destruct (autoFixed i), (issueType i); reflexivity.
Qed.

Lemma issues_addIssue i st : issues (addIssue i st) = issues st ++ [i].
Proof. unfold addIssue. destruct (autoFixed i), (issueType i); reflexivity. Qed.

Section Records.
Variable r : regex.
Variable g : match_info -> ConversionIssue.
Variable cb : callback estate.
Hypothesis Hcb : forall mi st, cb mi st = Ok (m_text mi, addIssue (g mi) st).

(** A pass whose callback hands every match back and records one issue for
    it leaves the text as it is and records the issues of the matches, in
    order. *)
Lemma replace_from_records : forall after before skip st,
  replace_from r cb before after skip st
  = Ok (skipn skip after,
        fold_left (fun s mi => addIssue (g mi) s) (matches_from r before after skip) st).
Proof.
  induction after as [|c t IH]; intros before skip st.
  - cbn [replace_from matches_from]. destruct (exec_at r before []) as [y|].
    + rewrite Hcb. unfold info_of. cbn [m_text fold_left].
      rewrite firstn_nil. now destruct skip.
    + now destruct skip.
  - cbn [replace_from matches_from]. destruct skip as [|k].
    + destruct (exec_at r before (c :: t)) as [y|].
      * rewrite Hcb. cbn [bind].
        assert (Ht : m_text (info_of before (c :: t) y)
                     = firstn (match_length (c :: t) y) (c :: t)) by reflexivity.
        rewrite Ht. clear Ht.
        destruct (match_length (c :: t) y) as [|k].
        -- rewrite IH. cbn [bind fold_left skipn firstn app]. reflexivity.
        -- rewrite IH. cbn [bind fold_left skipn firstn app].
           now rewrite firstn_skipn.
      * rewrite IH. reflexivity.
    + rewrite IH. reflexivity.
Qed.

Lemma issues_fold_addIssue l : forall st,
  issues (fold_left (fun s mi => addIssue (g mi) s) l st) = issues st ++ map g l.
Proof.
  induction l as [|mi l IH]; intros st; cbn [fold_left map].
  - now rewrite app_nil_r.
  - rewrite IH, issues_addIssue, <- app_assoc. reflexivity.
Qed.

Lemma replace_records text st :
  exists st', replace r cb text st = Ok (text, st') /\
              issues st' = issues st ++ map g (all_matches r text).
Proof.
  eexists. split.
  - unfold replace. rewrite replace_from_records. reflexivity.
  - apply issues_fold_addIssue.
Qed.

End Records.

Lemma matches_from_produced r text : forall after before skip,
  text = rev before ++ after ->
  Forall (produced_on text r) (matches_from r before after skip).
Proof.
  induction after as [|c t IH]; intros before skip Hs; cbn [matches_from].
  - destruct (exec_at r before []) as [y|] eqn:E; constructor; [|constructor].
    exists before, [], y. auto.
  - assert (Hs' : text = rev (c :: before) ++ t) by (rewrite rev_cons_app; exact Hs).
    destruct skip as [|k]; [|apply IH; exact Hs'].
    destruct (exec_at r before (c :: t)) as [y|] eqn:E; [|apply IH; exact Hs'].
    constructor.
    + exists before, (c :: t), y. auto.
    + destruct (match_length (c :: t) y); apply IH; exact Hs'.
Qed.

Lemma test_from_matches r : forall after before,
  test_from r before after = true -> matches_from r before after 0 <> [].
Proof.
  induction after as [|c t IH]; intros before; cbn [test_from matches_from].
  - destruct (exec_at r before []); [discriminate | discriminate].
  - destruct (exec_at r before (c :: t)); [discriminate | apply IH].
Qed.

(** C2, as stated, fails.  A statement that begins with
    [CREATE TABLE IF NOT EXISTS] is not preserved as it is: the rules for
    column types rewrite it ([int(11)] becomes [int]).  And an occurrence
    inside a conditional comment on the deny list is deleted with the
    comment, before the rule for [CREATE TABLE IF NOT EXISTS] runs: the
    result no longer holds it and no informational record is made for it. *)
Lemma C2_counterexample :
  (exists r,
      convertMySQLToMariaDB create_int_example = Ok r /\
      convertedSQL r
      = header ++ js "CREATE TABLE IF NOT EXISTS `users` (`id` int NOT NULL);" /\
      includes (convertedSQL r) create_int_example = false) /\
  (exists r,
      convertMySQLToMariaDB create_in_comment_example = Ok r /\
      convertedSQL r = header ++ js ";" /\
      includes_ci (convertedSQL r) (js "CREATE TABLE IF NOT EXISTS") = false /\
      map description (res_issues r)
      = [js "Removed problematic MySQL-specific optimizer hint or setting";
         js "Added MariaDB-compatible SQL header for proper import"]).
Proof.
  split.
  - eexists. split; [vm_compute; reflexivity|]. cbn [convertedSQL].
    split; vm_compute; reflexivity.
  - eexists. split; [vm_compute; reflexivity|]. cbn [convertedSQL res_issues].
    repeat split; vm_compute; reflexivity.
Qed.

(** C2, amended.  The rule for [CREATE TABLE IF NOT EXISTS] rewrites nothing
    and records every occurrence it finds: on every working text the pass
    returns the text unchanged and adds to the issue list one record for each
    match of its pattern, in the order of the matches; every match is a piece
    of the working text; there is at least one when the pattern is found in
    the text; and the record of a match is an informational no-op: type info,
    category compatibility, not marked as fixed, no converted text, the match
    as original text.  The rule is part of the pipeline. *)
Theorem C2_create_table_if_not_exists_recorded :
  (forall sqlContent text st,
      exists st',
        replace re_create_if_not_exists (cb_create_if_not_exists sqlContent) text st
        = Ok (text, st') /\
        issues st' = issues st
                     ++ map (kept_record sqlContent)
                            (all_matches re_create_if_not_exists text)) /\
  (forall text mi,
      In mi (all_matches re_create_if_not_exists text) ->
      piece_of text (m_text mi)) /\
  (forall text,
      test re_create_if_not_exists text = true ->
      all_matches re_create_if_not_exists text <> []) /\
  (forall sqlContent mi,
      issueType (kept_record sqlContent mi) = info /\
      category (kept_record sqlContent mi) = compatibility /\
      autoFixed (kept_record sqlContent mi) = false /\
      convertedText (kept_record sqlContent mi) = None /\
      originalText (kept_record sqlContent mi) = Some (m_text mi)) /\
  (forall sqlContent,
      In (Rewrite re_create_if_not_exists (cb_create_if_not_exists sqlContent))
         (rules sqlContent)).
Proof.
  split; [|split; [|split; [|split]]].
  - intros sqlContent text st. apply replace_records. reflexivity.
  - intros text mi Hin.
    pose proof (@matches_from_produced re_create_if_not_exists text text [] 0 eq_refl)
      as Hall.
    rewrite Forall_forall in Hall. specialize (Hall mi Hin).
    destruct (produced_on_occurs Hall) as (_ & a & b & Hab & _).
    exists a, b. exact Hab.
  - intros text. apply test_from_matches.
  - intros. repeat split.
  - intros sqlContent. unfold rules. apply in_or_app. right. simpl. tauto.
Qed.

Lemma C2_create_table_if_not_exists_recorded_witness :
  all_matches re_create_if_not_exists create_example <> [].
Proof.
  apply (proj1 (proj2 (proj2 C2_create_table_if_not_exists_recorded)) create_example).
  vm_compute. reflexivity.
Defined.

(** On a statement of that form without anything for the other rules, the
    whole engine returns the header followed by the statement as it was
    written, with the informational record and the record of the header. *)
Lemma create_table_if_not_exists_example :
  exists r, convertMySQLToMariaDB create_example = Ok r /\
            convertedSQL r = header ++ create_example /\
            map issueType (res_issues r) = [info; info] /\
            map autoFixed (res_issues r) = [false; true].
Proof. vm_compute. eexists. repeat split. Qed.

(** A table whose name is the word [text], not quoted, is taken by the rule
    for text columns for a column type. *)
Lemma create_table_named_text_rewritten :
  exists r, convertMySQLToMariaDB create_named_text_example = Ok r /\
            convertedSQL r
            = header ++ js "CREATE TABLE IF NOT EXISTS text CHARACTER SET utf8mb4 COLLATE utf8mb4_general_ci (id bigint);".
Proof. vm_compute. eexists. repeat split. Qed.

Lemma test_from_alt_l a b before after :
  test_from (Alt a b) before after = false -> test_from a before after = false.
Proof.
  revert before. induction after as [|c t IH]; intros before; simpl;
    unfold exec_at; simpl;
    destruct (mtch a (MState before _ []) (fun y => Some y)); simpl;
    try discriminate; auto.
  destruct (mtch b (MState before (c :: t) []) (fun y => Some y)); simpl;
    try discriminate; auto.
Qed.

Lemma no_create_or_alter_no_create s :
  test re_create_or_alter_table s = false -> test re_create_table s = false.
Proof. apply test_from_alt_l. Qed.

Lemma text_guard sqlContent mi st :
  test re_create_or_alter_table (lookback 300 mi) = false ->
  cb_text sqlContent mi st = Ok (m_text mi, st).
Proof.
  intros H. apply no_create_or_alter_no_create in H.
  unfold cb_text. cbv zeta. rewrite H. reflexivity.
Qed.

Lemma varchar_guard sqlContent mi st :
  test re_create_or_alter_table (lookback 300 mi) = false ->
  cb_varchar sqlContent mi st = Ok (m_text mi, st).
Proof.
  intros H. apply no_create_or_alter_no_create in H.
  unfold cb_varchar. cbv zeta. rewrite H. reflexivity.
Qed.

Lemma collate_general_guard sqlContent mi st :
  test re_create_or_alter_table (lookback 500 mi) = false ->
  cb_collate_general sqlContent mi st = Ok (m_text mi, st).
Proof. intros H. unfold cb_collate_general. cbv zeta. rewrite H. reflexivity. Qed.

Lemma collate_unicode_guard sqlContent mi st :
  test re_create_or_alter_table (lookback 500 mi) = false ->
  cb_collate_unicode sqlContent mi st = Ok (m_text mi, st).
Proof. intros H. unfold cb_collate_unicode. cbv zeta. rewrite H. reflexivity. Qed.

Lemma no_keyword_before_lookback w text r mi :
  no_keyword_before w text = true ->
  produced_on text r mi ->
  test re_create_or_alter_table (lookback w mi) = false.
Proof.
  intros Hn Hp. destruct (produced_on_occurs Hp) as (Hin & a & b & Hab & Hlen).
  unfold no_keyword_before in Hn. rewrite forallb_forall in Hn.
  specialize (Hn (m_offset mi)). unfold lookback. rewrite Hin.
  apply negb_true_iff. apply Hn. apply in_seq. split; [lia|].
  rewrite Hab, length_app. lia.
Qed.

(** A pass whose callback hands every match back, state untouched, changes
    nothing. *)
Lemma replace_noop r (cb : callback estate) text st :
  (forall mi s, produced_on text r mi -> cb mi s = Ok (m_text mi, s)) ->
  replace r cb text st = Ok (text, st).
Proof.
  intros H.
  destruct (@replace_ok estate (@eq estate) (@eq_refl _) (@eq_trans _) r cb text)
    with (st := st) as (out & st' & Hr & He).
  - intros mi s Hp. exists (m_text mi), s. split; [apply H; exact Hp | reflexivity].
  - subst st'. rewrite Hr. f_equal. f_equal.
    eapply replace_id; [|exact Hr].
    intros mi s rep s' Hp Hc. rewrite (H mi s Hp) in Hc. inversion Hc. reflexivity.
Qed.

(** X23.  The rules that rewrite column types and collations inside table
    definitions do nothing outside such a definition.  Per match: when the
    window of characters before the match (300 for the text and varchar rules,
    500 for the two collation rules) holds no [CREATE TABLE] and no
    [ALTER TABLE] keyword, the callback hands the match back unchanged and
    touches neither the issue list nor the counters.  Per pass: on a working
    text no position of which has such a keyword in its window, each of the
    four passes returns the text and the accumulators as they were.  And the
    whole engine, given the [INSERT] statement of the specification, returns
    the header followed by the statement unchanged, with the header record as
    its only issue. *)
Theorem ddl_rules_guarded :
  (forall sqlContent mi st,
      test re_create_or_alter_table (lookback 300 mi) = false ->
      cb_text sqlContent mi st = Ok (m_text mi, st) /\
      cb_varchar sqlContent mi st = Ok (m_text mi, st)) /\
  (forall sqlContent mi st,
      test re_create_or_alter_table (lookback 500 mi) = false ->
      cb_collate_general sqlContent mi st = Ok (m_text mi, st) /\
      cb_collate_unicode sqlContent mi st = Ok (m_text mi, st)) /\
  (forall sqlContent text st,
      no_keyword_before 300 text = true ->
      no_keyword_before 500 text = true ->
      replace re_text (cb_text sqlContent) text st = Ok (text, st) /\
      replace re_varchar (cb_varchar sqlContent) text st = Ok (text, st) /\
      replace re_collate_general (cb_collate_general sqlContent) text st = Ok (text, st) /\
      replace re_collate_unicode (cb_collate_unicode sqlContent) text st = Ok (text, st)) /\
  (exists r, convertMySQLToMariaDB insert_example = Ok r /\
             convertedSQL r = header ++ insert_example /\
             map description (res_issues r) =
               [js "Added MariaDB-compatible SQL header for proper import"]).
Proof.
  split; [|split; [|split]].
  - intros. split; [apply text_guard | apply varchar_guard]; assumption.
  - intros. split; [apply collate_general_guard | apply collate_unicode_guard];
      assumption.
  - intros sqlContent text st H300 H500. repeat split; apply replace_noop; intros mi s Hp.
    + apply text_guard. eapply no_keyword_before_lookback; eassumption.
    + apply varchar_guard. eapply no_keyword_before_lookback; eassumption.
    + apply collate_general_guard. eapply no_keyword_before_lookback; eassumption.
    + apply collate_unicode_guard. eapply no_keyword_before_lookback; eassumption.
  - vm_compute. eexists. repeat split.
Qed.

Lemma ddl_rules_guarded_witness :
  replace re_varchar (cb_varchar insert_example) insert_example init_state
  = Ok (insert_example, init_state).
Proof.
  apply (proj1 (proj2 (proj2 ddl_rules_guarded)) insert_example insert_example
               init_state); vm_compute; reflexivity.
Defined.

(** C3: what the engine does with collation text inside [INSERT] data.
    The text of [insert_charset_example] holds no [CREATE TABLE] and no
    [ALTER TABLE] keyword at all, so no position of it has one in its lookback
    window, and the guarded rule for [COLLATE utf8_general_ci] leaves it alone.
    The rule for [CHARACTER SET utf8 COLLATE utf8_general_ci], a rule of the
    pipeline that carries no guard, then rewrites the literal of the [VALUES]
    clause and records a warning marked as fixed: the result holds the
    [COLLATE utf8_general_ci] token of the data changed. *)
Theorem C3_insert_data_rewritten :
  test re_create_or_alter_table insert_charset_example = false /\
  no_keyword_before 300 insert_charset_example = true /\
  no_keyword_before 500 insert_charset_example = true /\
  (forall st,
      replace re_collate_general (cb_collate_general insert_charset_example)
              insert_charset_example st
      = Ok (insert_charset_example, st)) /\
  In (Rewrite re_character_set_utf8 (cb_character_set_utf8 insert_charset_example))
     (rules insert_charset_example) /\
  (exists st',
      replace re_character_set_utf8 (cb_character_set_utf8 insert_charset_example)
              insert_charset_example init_state
      = Ok (insert_charset_rewritten, st') /\
      map issueType (issues st') = [warning] /\
      map autoFixed (issues st') = [true] /\
      map originalText (issues st')
      = [Some (js "CHARACTER SET utf8 COLLATE utf8_general_ci")]) /\
  (exists r,
      convertMySQLToMariaDB insert_charset_example = Ok r /\
      convertedSQL r = header ++ insert_charset_rewritten /\
      includes (convertedSQL r) (js "COLLATE utf8_general_ci") = false /\
      map description (res_issues r)
      = [js "Upgraded character set to utf8mb4 for full unicode support (emojis, colors, special characters)";
         js "Added MariaDB-compatible SQL header for proper import"]).
Proof.
  assert (H300 : no_keyword_before 300 insert_charset_example = true)
    by (vm_compute; reflexivity).
  assert (H500 : no_keyword_before 500 insert_charset_example = true)
    by (vm_compute; reflexivity).
  split; [vm_compute; reflexivity|].
  split; [exact H300|]. split; [exact H500|].
  split; [|split; [|split]].
  - intros st. apply replace_noop. intros mi s Hp.
    apply collate_general_guard. eapply no_keyword_before_lookback; eassumption.
  - unfold rules. apply in_or_app. right. simpl. tauto.
  - eexists. split; [vm_compute; reflexivity|]. cbn [issues].
    repeat split; vm_compute; reflexivity.
  - eexists. split; [vm_compute; reflexivity|]. cbn [convertedSQL res_issues].
    repeat split; vm_compute; reflexivity.
Qed.

(** The guards read the working text, not the input.  In
    [insert_far_example] the literal of the [INSERT] statement is 443
    characters after the beginning of the input, so the 300 characters before
    it hold no [CREATE TABLE]; once the pass for conditional comments has
    deleted the comment, the literal is within 300 characters of the keyword,
    and the rule for [varchar] rewrites it. *)
Lemma guard_reads_working_text :
  indexOf insert_far_example (js "varchar(10)") = Some 443 /\
  test re_create_or_alter_table (substring insert_far_example (443 - 300) 443) = false /\
  exists r,
    convertMySQLToMariaDB insert_far_example = Ok r /\
    convertedSQL r = header ++ insert_far_rewritten.
Proof.
  split; [vm_compute; reflexivity|]. split; [vm_compute; reflexivity|].
  eexists. split; [vm_compute; reflexivity|]. vm_compute. reflexivity.
Qed.







(** C4: what the engine does on the empty input.  It returns the header alone:
    the header holds the word [AUTOCOMMIT], so the test
    [convertedSQL.toLowerCase().includes('commit')] succeeds on it and the
    trailing [COMMIT;] is not appended, although the header opens a
    transaction.  The only issue is the header record
    ([totalIssues = 1]). *)
Theorem C4_empty_input_has_no_commit :
  exists r,
    convertMySQLToMariaDB [] = Ok r /\
    convertedSQL r = header /\
    convertedSQL r <> header ++ commit_block /\
    includes (convertedSQL r) (js "COMMIT;") = false /\
    includes header (js "START TRANSACTION;") = true /\
    includes (toLowerCase header) (js "commit") = true /\
    map description (res_issues r) =
      [js "Added MariaDB-compatible SQL header for proper import"] /\
    totalIssues (res_stats r) = 1.
Proof.
  eexists. split; [vm_compute; reflexivity|]. simpl convertedSQL.
  repeat split; try (vm_compute; reflexivity).
  intros H. apply (f_equal (@length _)) in H. vm_compute in H. discriminate H.
Qed.

(** C1: what the engine does with a case-sensitive collation on a text
    column.  The collation pass rewrites [utf8mb4_0900_as_cs] to [utf8mb4_bin]
    and records the substitution (warning, compatibility, fixed); the later
    rule for text columns then replaces [text COLLATE utf8mb4_bin] by
    [text CHARACTER SET utf8mb4 COLLATE utf8mb4_general_ci], so that the
    result holds neither the original collation nor [utf8mb4_bin], but a
    case-insensitive collation.  In the older copies of the engine the table
    itself sends [utf8mb4_0900_as_cs] to the case-insensitive
    [utf8mb4_unicode_ci]. *)
Theorem C1_case_sensitive_collation_lost :
  (exists st',
      replace (re_collation "utf8mb4_0900_as_cs")
              (cb_collation case_sensitive_text_column "utf8mb4_bin")
              case_sensitive_text_column init_state
      = Ok (js "CREATE TABLE t (`a` text COLLATE utf8mb4_bin);", st') /\
      map issueType (issues st') = [warning] /\
      map category (issues st') = [compatibility] /\
      map autoFixed (issues st') = [true]) /\
  (exists r,
      convertMySQLToMariaDB case_sensitive_text_column = Ok r /\
      convertedSQL r =
        header ++
        js "CREATE TABLE t (`a` text CHARACTER SET utf8mb4 COLLATE utf8mb4_general_ci);" /\
      includes (convertedSQL r) (js "utf8mb4_bin") = false /\
      includes (convertedSQL r) (js "utf8mb4_0900_as_cs") = false) /\
  In (entry "utf8mb4_0900_as_cs" "utf8mb4_bin") mysqlCollationMap /\
  In (entry "utf8mb4_0900_as_cs" "utf8mb4_unicode_ci") Legacy.mysqlCollationMap.
Proof.
  split; [|split; [|split]].
  - vm_compute. eexists. repeat split.
  - eexists. split; [vm_compute; reflexivity|]. simpl convertedSQL.
    repeat split; vm_compute; reflexivity.
  - simpl. tauto.
  - simpl. tauto.
Qed.

(* ------------------------------------------------------------------ *)
(** ** Literal patterns as string tests *)
(* ------------------------------------------------------------------ *)

Lemma mtch_seq_of q l x k :
  mtch (seq_of (fun c => Chr (q c)) l) x k =
  match eat q l x with
  | Some y => k y
  | None => None
  end.
Proof.
  revert x k. induction l as [|c l IH]; intros x k; [reflexivity|].
  destruct l as [|c' l'].
  - simpl. destruct (rest x) as [|d t]; [reflexivity|]. now destruct (q c d).
  - change (seq_of (fun c => Chr (q c)) (c :: c' :: l'))
      with (Seq (Chr (q c)) (seq_of (fun c => Chr (q c)) (c' :: l'))).
    cbn [mtch eat]. destruct (rest x) as [|d t]; [reflexivity|].
    destruct (q c d); [apply IH | reflexivity].
Qed.

Lemma eat_starts_with q l x :
  is_some (eat q l x) = starts_with_by q l (rest x).
Proof.
  revert x. induction l as [|c l IH]; intros x; simpl; [reflexivity|].
  destruct (rest x) as [|d t]; [reflexivity|].
  destruct (q c d); simpl; [|reflexivity]. apply IH.
Qed.

Lemma exec_at_literal q l before after :
  is_some (exec_at (seq_of (fun c => Chr (q c)) l) before after)
  = starts_with_by q l after.
Proof.
  unfold exec_at. rewrite mtch_seq_of.
  change after with (rest (MState before after [])) at 2.
  rewrite <- eat_starts_with.
  now destruct (eat q l (MState before after [])).
Qed.

Lemma test_from_literal q l before after :
  test_from (seq_of (fun c => Chr (q c)) l) before after = includes_by q after l.
Proof.
  revert before. induction after as [|c t IH]; intros before; simpl;
    rewrite <- (exec_at_literal q l before);
    destruct (exec_at (seq_of (fun c => Chr (q c)) l) before _); simpl;
    auto.
Qed.

(** A pattern with the [i] flag made of one literal word tests [includes] up
    to case. *)
Lemma test_liti (w : string) (s : jsstring) :
  test (liti w) s = includes_ci s (js w).
Proof. apply test_from_literal. Qed.

Lemma starts_with_by_eqb p s : starts_with_by eqb_char p s = starts_with p s.
Proof.
  revert s. induction p as [|x p IH]; intros s; simpl; [reflexivity|].
  destruct s as [|y s]; [reflexivity|]. now rewrite IH.
Qed.

(** A pattern anchored with [^] (no [m] flag) can only match at the start. *)
Lemma test_anchored r s :
  test (Seq (Bol false) r) s = is_some (exec_at r [] s).
Proof.
  assert (Hlater : forall after before, before <> [] ->
            test_from (Seq (Bol false) r) before after = false).
  { induction after as [|c t IH]; intros before Hb;
      (destruct before as [|b bs]; [congruence|]);
      cbn [test_from]; unfold exec_at; cbn [mtch at_bol pre andb].
    - reflexivity.
    - apply IH. discriminate. }
  unfold test. destruct s as [|c t]; simpl; unfold exec_at; simpl.
  - now destruct (mtch r (MState [] [] []) (fun y => Some y)).
  - destruct (mtch r (MState [] (c :: t) []) (fun y => Some y)); [reflexivity|].
    apply Hlater. discriminate.
Qed.

(* ------------------------------------------------------------------ *)
(** ** The text a pattern matches *)
(* ------------------------------------------------------------------ *)

Lemma eqb_char_eq a b : eqb_char a b = true -> a = b.
Proof.
  unfold eqb_char, code. intros H. apply N.eqb_eq in H.
  rewrite <- (ascii_N_embedding a), <- (ascii_N_embedding b). now rewrite H.
Qed.

Lemma starts_with_by_eqb_app p s :
  starts_with_by eqb_char p s = true -> exists t, s = p ++ t.
Proof.
  revert s. induction p as [|x p IH]; intros s; simpl.
  - intros _. exists s. reflexivity.
  - destruct s as [|y s]; [discriminate|]. intros H.
    apply andb_true_iff in H. destruct H as [H1 H2].
    apply eqb_char_eq in H1. subst y. destruct (IH s H2) as (t & ->).
    exists t. reflexivity.
Qed.

Lemma span_trans x y z w1 w2 : span x w1 y -> span y w2 z -> span x (w1 ++ w2) z.
Proof.
  intros (A1 & B1 & C1) (A2 & B2 & C2). repeat split.
  - rewrite A1, A2. now rewrite app_assoc.
  - rewrite B2, B1, rev_app_distr. now rewrite app_assoc.
  - congruence.
Qed.

Lemma consumed_span x w y : rest x = w ++ rest y -> consumed x y = w.
Proof.
  intros H. unfold consumed. rewrite H at 1 2. rewrite length_app, Nat.add_sub.
  rewrite firstn_app, Nat.sub_diag, firstn_all. simpl. apply app_nil_r.
Qed.

Lemma eat_span q l x y :
  eat q l x = Some y ->
  exists w, span x w y /\ starts_with_by q l w = true /\ length w = length l.
Proof.
  revert x. induction l as [|c l IH]; intros x; simpl.
  - intros H. inversion H; subst. exists []. repeat split.
  - destruct (rest x) as [|d t] eqn:Hr; [discriminate|].
    destruct (q c d) eqn:Hq; [|discriminate]. intros H.
    apply IH in H. destruct H as (w & (A & B & C) & Hw & Hl). simpl in A, B, C.
    exists (d :: w). repeat split; simpl.
    + now rewrite Hr, A.
    + rewrite B. now rewrite <- app_assoc.
    + exact C.
    + now rewrite Hq, Hw.
    + now rewrite Hl.
Qed.

Lemma matches_literal q l x y :
  matches (seq_of (fun c => Chr (q c)) l) x y -> eat q l x = Some y.
Proof.
  revert x. induction l as [|c l IH]; intros x H.
  - inversion H; subst. reflexivity.
  - destruct l as [|c' l'].
    + simpl in H. inversion H; subst. simpl.
      match goal with Hr : rest x = _ |- _ => rewrite Hr end.
      match goal with Hq : q c _ = true |- _ => now rewrite Hq end.
    + change (seq_of (fun c => Chr (q c)) (c :: c' :: l'))
        with (Seq (Chr (q c)) (seq_of (fun c => Chr (q c)) (c' :: l'))) in H.
      inversion H as [| | a b x0 y0 z0 Ha Hb | | | | | | | | | | |]; subst.
      inversion Ha; subst. cbn [eat].
      match goal with Hr : rest x = _ |- _ => rewrite Hr end.
      match goal with Hq : q c _ = true |- _ => rewrite Hq end.
      apply IH. exact Hb.
Qed.

Lemma matches_chr p x y :
  matches (Chr p) x y -> exists c, span x [c] y /\ p c = true.
Proof.
  intros H. inversion H; subst. exists c. repeat split; simpl; assumption.
Qed.

Lemma matches_star_chr g p x y :
  matches (Star g (Chr p)) x y ->
  exists w, span x w y /\ forallb p w = true.
Proof.
  intros H. remember (Star g (Chr p)) as r eqn:Hr.
  induction H; try discriminate; inversion Hr; subst.
  - exists []. repeat split.
  - apply matches_chr in H. destruct H as (c & Hs & Hp).
    destruct (IHmatches2 eq_refl) as (w & Hw & Hf).
    exists ([c] ++ w). split; [eapply span_trans; eassumption|].
    simpl. now rewrite Hp, Hf.
Qed.

Lemma matches_plus_chr p x y :
  matches (plus (Chr p)) x y ->
  exists w, span x w y /\ forallb p w = true /\ w <> [].
Proof.
  intros H. unfold plus in H.
  inversion H as [| | a b x0 y0 z0 Ha Hb | | | | | | | | | | |]; subst.
  apply matches_chr in Ha. destruct Ha as (c & Hs & Hp).
  apply matches_star_chr in Hb. destruct Hb as (w & Hw & Hf).
  exists ([c] ++ w). split; [eapply span_trans; eassumption|]. split.
  - simpl. now rewrite Hp, Hf.
  - discriminate.
Qed.

Lemma firstn_prefix (w r : jsstring) :
  firstn (length (w ++ r) - length r) (w ++ r) = w.
Proof.
  rewrite length_app, Nat.add_sub.
  rewrite firstn_app, Nat.sub_diag, firstn_all. simpl. apply app_nil_r.
Qed.

Lemma starts_with_by_eqb_len p w :
  starts_with_by eqb_char p w = true -> length w = length p -> w = p.
Proof.
  intros H L. apply starts_with_by_eqb_app in H. destruct H as (t & ->).
  rewrite length_app in L. destruct t; [apply app_nil_r | simpl in L; lia].
Qed.

Ltac inv_seq H Ha Hb :=
  let H' := fresh in
  rename H into H';
  inversion H' as [| | ?a ?b ?x0 ?y0 ?z0 Ha Hb | | | | | | | | | | |]; subst; clear H'.

Ltac inv_group H Ha :=
  let H' := fresh in
  rename H into H';
  inversion H' as [| | | | | | | | | ?n ?a ?x0 ?y0 Ha | | | |]; subst; clear H'.

(** What the pattern of version comments matches: the opening [/*!], the
    version digits, white space, the content (the second group) and the
    closing delimiter. *)
Lemma version_comment_match mi :
  produced re_version_comment mi ->
  exists ds ws content,
    m_text mi = js "/*!" ++ ds ++ ws ++ content ++ js "*/" /\
    forallb is_digit ds = true /\ ds <> [] /\
    forallb is_space ws = true /\ ws <> [] /\
    grp mi 1 = Some ds /\ grp mi 2 = Some content.
Proof.
  intros (s & before & after & y & Hs & He & ->).
  unfold exec_at in He. apply mtch_sound in He.
  destruct He as (y' & Hm & Hy). inversion Hy; subst y'; clear Hy.
  unfold re_version_comment in Hm.
  inv_seq Hm H1 Hm. apply (@matches_literal eqb_char) in H1. apply eat_span in H1.
  destruct H1 as (w1 & S1 & P1 & L1).
  inv_seq Hm H2 Hm. inv_group H2 H2. apply matches_plus_chr in H2.
  destruct H2 as (ds & S2 & P2 & N2).
  inv_seq Hm H3 Hm. apply matches_plus_chr in H3.
  destruct H3 as (ws & S3 & P3 & N3).
  inv_seq Hm H4 Hm. inv_group H4 H4. apply matches_star_chr in H4.
  destruct H4 as (content & S4 & P4).
  apply (@matches_literal eqb_char) in Hm. apply eat_span in Hm.
  destruct Hm as (w5 & S5 & P5 & L5).
  assert (E1 : w1 = js "/*!") by (apply starts_with_by_eqb_len; assumption).
  assert (E5 : w5 = js "*/") by (apply starts_with_by_eqb_len; assumption).
  subst w1 w5.
  destruct S1 as (A1 & _ & C1), S2 as (A2 & _ & C2), S3 as (A3 & _ & C3),
           S4 as (A4 & _ & C4), S5 as (A5 & _ & C5).
  simpl in A1, A3, A5, C1, C3, C5.
  exists ds, ws, content. repeat split; try assumption.
  - unfold info_of; simpl m_text. unfold match_length.
    assert (Ha : after = (js "/*!" ++ ds ++ ws ++ content ++ js "*/") ++ rest y).
    { rewrite A1, A2, A3, A4, A5. now rewrite <- !app_assoc. }
    rewrite Ha. apply firstn_prefix.
  - unfold grp, info_of; simpl m_caps. rewrite C5. simpl.
    rewrite C4, C3. simpl. f_equal. apply consumed_span. exact A2.
  - unfold grp, info_of; simpl m_caps. rewrite C5. simpl.
    f_equal. apply consumed_span. exact A4.
Qed.

(** The deny list in terms of the trimmed content: two patterns are tied to
    its beginning, four are looked for anywhere, whatever the case. *)
Lemma isProblematic_spec t :
  isProblematic t =
  (starts_with (js "@@") t || test re_set_variable t ||
   includes_ci t (js "USE_INDEX") || includes_ci t (js "FORCE_INDEX") ||
   includes_ci t (js "IGNORE_INDEX") || includes_ci t (js "SQL_CALC_FOUND_ROWS")).
Proof.
  unfold isProblematic, problematicHints. cbn [existsb].
  rewrite !test_liti, orb_false_r.
  replace (test (Bol false;; lit "@@")%re t) with (starts_with (js "@@") t).
  - unfold re_set_variable. now rewrite !orb_assoc.
  - rewrite test_anchored. unfold lit, ch.
    rewrite (exec_at_literal eqb_char). symmetry. apply starts_with_by_eqb.
Qed.

Lemma set_variable_anchored t :
  test re_set_variable t = true -> starts_with_by eqb_ci (js "SET") t = true.
Proof.
  unfold re_set_variable. rewrite test_anchored. unfold exec_at.
  unfold liti, chi. cbn [mtch]. rewrite (mtch_seq_of eqb_ci).
  destruct (eat eqb_ci (js "SET") (MState [] t [])) eqn:He; [|discriminate].
  intros _. change t with (rest (MState [] t [])).
  rewrite <- (eat_starts_with eqb_ci (js "SET") (MState [] t [])).
  now rewrite He.
Qed.

(** C5, as stated, fails: a conditional comment whose content holds an [@@]
    variable reference elsewhere than at its beginning is kept.  The comment
    is one every dump starts with; the triage pass hands it back, and the
    engine returns it after the header. *)
Lemma C5_counterexample :
  includes (js "SET @OLD_CHARACTER_SET_CLIENT=@@CHARACTER_SET_CLIENT") (js "@@") = true /\
  (exists st',
      replace re_version_comment (cb_version_comment dump_variable_comment)
              dump_variable_comment init_state
      = Ok (dump_variable_comment, st') /\
      map originalText (issues st') = [Some dump_variable_comment] /\
      map autoFixed (issues st') = [false]) /\
  (exists r,
      convertMySQLToMariaDB dump_variable_comment = Ok r /\
      convertedSQL r = header ++ dump_variable_comment).
Proof.
  split; [vm_compute; reflexivity|]. split.
  - vm_compute. eexists. repeat split.
  - vm_compute. eexists. repeat split.
Qed.

(** C5, amended.  For every conditional comment the triage pattern matches
    ([/*!], version digits, white space, content, closing delimiter): when the
    trimmed content begins with [@@] or with [SET], white space and [@@], or
    holds one of [USE_INDEX], [FORCE_INDEX], [IGNORE_INDEX],
    [SQL_CALC_FOUND_ROWS] anywhere (in any case), the callback replaces the
    whole comment by the empty string and records a warning marked as fixed;
    otherwise it hands the comment back verbatim and records an info issue
    that is not marked as fixed. *)
Theorem C5_version_comment_triage :
  (forall sqlContent mi st,
      produced re_version_comment mi ->
      exists ds ws content i,
        m_text mi = js "/*!" ++ ds ++ ws ++ content ++ js "*/" /\
        forallb is_digit ds = true /\ ds <> [] /\
        forallb is_space ws = true /\ ws <> [] /\
        cb_version_comment sqlContent mi st =
          Ok (if isProblematic (trim content) then [] else m_text mi, addIssue i st) /\
        originalText i = Some (m_text mi) /\
        issueType i = (if isProblematic (trim content) then warning else info) /\
        autoFixed i = isProblematic (trim content)) /\
  (forall t,
      isProblematic t =
      (starts_with (js "@@") t || test re_set_variable t ||
       includes_ci t (js "USE_INDEX") || includes_ci t (js "FORCE_INDEX") ||
       includes_ci t (js "IGNORE_INDEX") || includes_ci t (js "SQL_CALC_FOUND_ROWS"))) /\
  (forall t, test re_set_variable t = true ->
             starts_with_by eqb_ci (js "SET") t = true) /\
  (exists r, convertMySQLToMariaDB (js "SELECT /*!40001 SQL_CALC_FOUND_ROWS */ * FROM t;") = Ok r /\
             convertedSQL r = header ++ js "SELECT  * FROM t;") /\
  (exists r, convertMySQLToMariaDB (js "/*!50003 SET @@sql_mode = 1 */;") = Ok r /\
             convertedSQL r = header ++ js ";") /\
  (exists r, convertMySQLToMariaDB (js "/*!50001 CREATE ALGORITHM=UNDEFINED */") = Ok r /\
             convertedSQL r = header ++ js "/*!50001 CREATE ALGORITHM=UNDEFINED */").
Proof.
  split; [|split; [|split; [|split; [|split]]]].
  - intros sqlContent mi st Hp.
    destruct (version_comment_match Hp) as (ds & ws & content & Ht & Hd & Nd & Hw & Nw & _ & Hg).
    exists ds, ws, content. unfold cb_version_comment. cbv zeta. rewrite Hg. simpl on_defined.
    cbn [bind]. destruct (isProblematic (trim content)); eexists; repeat split; assumption.
  - exact isProblematic_spec.
  - exact set_variable_anchored.
  - vm_compute. eexists. repeat split.
  - vm_compute. eexists. repeat split.
  - vm_compute. eexists. repeat split.
Qed.

Lemma variable_comment_match_produced :
  produced re_version_comment variable_comment_match.
Proof.
  exists dump_variable_comment, [], dump_variable_comment.
  eexists. split; [reflexivity|]. split; [vm_compute; reflexivity|].
  vm_compute. reflexivity.
Qed.

Lemma C5_version_comment_triage_witness :
  exists ds ws content i,
    m_text variable_comment_match = js "/*!" ++ ds ++ ws ++ content ++ js "*/" /\
    forallb is_digit ds = true /\ ds <> [] /\
    forallb is_space ws = true /\ ws <> [] /\
    cb_version_comment dump_variable_comment variable_comment_match init_state =
      Ok (if isProblematic (trim content) then [] else m_text variable_comment_match,
          addIssue i init_state) /\
    originalText i = Some (m_text variable_comment_match) /\
    issueType i = (if isProblematic (trim content) then warning else info) /\
    autoFixed i = isProblematic (trim content).
Proof.
  apply (proj1 C5_version_comment_triage dump_variable_comment
               variable_comment_match init_state).
  exact variable_comment_match_produced.
Defined.

Lemma matches_wordb x y : matches WordB x y -> y = x.
Proof. intros H. inversion H; subst. reflexivity. Qed.





(** C6: what the engine does with [INVISIBLE] columns.  The rule records an
    error whose description says that the attribute was removed, but it does
    not remove it.  For a column with a quoted name the word [INVISIBLE] stays
    in the definition, after [--]: the rest of the line, here the comma and
    the second column, becomes part of that comment.  A column whose name is
    not quoted is not found: the text is unchanged and no error is recorded;
    unless a quoted name comes earlier in the statement, such as the table
    name, which the rule then takes for the column name. *)
Theorem C6_invisible_not_removed :
  (exists r,
      convertMySQLToMariaDB invisible_two_columns = Ok r /\
      convertedSQL r =
        header
        ++ js "CREATE TABLE t (`a` INT -- INVISIBLE not supported in MariaDB 10.3, `b` INT);" /\
      includes (convertedSQL r) (js "INVISIBLE") = true /\
      map issueType (res_issues r) = [error; info] /\
      map description (res_issues r)
      = [invisible_removed_description;
         js "Added MariaDB-compatible SQL header for proper import"]) /\
  (exists r,
      convertMySQLToMariaDB unquoted_invisible = Ok r /\
      convertedSQL r = header ++ unquoted_invisible /\
      count_type error (res_issues r) = 0) /\
  (exists r,
      convertMySQLToMariaDB invisible_quoted_table = Ok r /\
      convertedSQL r =
        header ++ js "CREATE TABLE `t` (a INT -- INVISIBLE not supported in MariaDB 10.3);" /\
      map originalText (res_issues r)
      = [Some (js "`t` (a INT INVISIBLE"); Some (js "-- File beginning")]).
Proof.
  split; [|split].
  - eexists. split; [vm_compute; reflexivity|]. cbn [convertedSQL res_issues].
    repeat split; vm_compute; reflexivity.
  - eexists. split; [vm_compute; reflexivity|]. cbn [convertedSQL res_issues].
    repeat split; vm_compute; reflexivity.
  - eexists. split; [vm_compute; reflexivity|]. cbn [convertedSQL res_issues].
    repeat split; vm_compute; reflexivity.
Qed.

(* ------------------------------------------------------------------ *)
(** ** Text that no rule can touch *)
(* ------------------------------------------------------------------ *)

Lemma continued_moved tail x x' y y' :
  continued tail x x' -> continued tail y y' -> moved x' y' = moved x y.
Proof.
  intros (_ & Hx & _) (_ & Hy & _). unfold moved. rewrite Hx, Hy, !length_app.
  destruct (Nat.ltb_spec (length (rest y)) (length (rest x)));
    destruct (Nat.ltb_spec (length (rest y) + length tail)
                           (length (rest x) + length tail)); auto; lia.
Qed.

Lemma continued_consumed tail x x' y y' :
  continued tail x x' -> continued tail y y' -> consumed x' y' = consumed x y.
Proof.
  intros (_ & Hx & _) (_ & Hy & _). unfold consumed. rewrite Hx, Hy, !length_app.
  replace (length (rest x) + length tail - (length (rest y) + length tail))
    with (length (rest x) - length (rest y)) by lia.
  rewrite firstn_app.
  replace (length (rest x) - length (rest y) - length (rest x)) with 0 by lia.
  simpl. apply app_nil_r.
Qed.

Section ProbeSound.
Variable tail : jsstring.

Lemma holds_weaken v o : (v = No -> o = None) -> holds tail (weaken v) o.
Proof. destruct v; simpl; auto. Qed.

Lemma probe_loop_sound (ma : mstate -> (mstate -> verdict) -> verdict)
      (Ma : mstate -> (mstate -> option mstate) -> option mstate) g k K :
  (forall x x' k K, continued tail x x' -> agree tail k K -> holds tail (ma x k) (Ma x' K)) ->
  (forall x K z, Ma x K = Some z -> exists y, extends x y /\ K y = Some z) ->
  agree tail k K ->
  forall n N x x',
    continued tail x x' -> length (rest x') <= N ->
    holds tail (probe_loop ma g k n x) (star_loop Ma g K N x').
Proof.
  intros Ha He Hk n. induction n as [|n IH]; intros N x x' Hc HN; [exact I|].
  assert (Hkx : holds tail (k x) (K x')) by (apply Hk; exact Hc).
  destruct N as [|N].
  - (* the concrete input is exhausted: no iteration can move *)
    assert (Hnone : forall K0,
               Ma x' (fun y => if moved x' y then K0 y else None) = None).
    { intros K0.
      destruct (Ma x' (fun y => if moved x' y then K0 y else None)) eqn:Hm;
        [|reflexivity].
      apply He in Hm. destruct Hm as (y & _ & Hy).
      destruct (moved x' y) eqn:Hmv; [|discriminate].
      unfold moved in Hmv. apply Nat.ltb_lt in Hmv. lia. }
    assert (Hiter : forall v,
               holds tail (ma x (fun y => if moved x y then v y else No)) None).
    { intros v. rewrite <- (Hnone (fun _ => None)).
      apply Ha; [exact Hc|]. intros y y' Hy. rewrite (continued_moved Hc Hy).
      assert (Hmv : moved x y = false).
      { unfold moved. apply Nat.ltb_ge. destruct Hc as (_ & Hx & _).
        rewrite Hx, length_app in HN. lia. }
      rewrite Hmv. reflexivity. }
    cbn [probe_loop star_loop]. cbv zeta.
    specialize (Hiter (probe_loop ma g k n)).
    destruct g.
    + destruct (ma x _) as [|z|]; simpl in Hiter |- *.
      * exact Hkx.
      * destruct Hiter as (z' & Hz & _). discriminate.
      * exact I.
    + destruct (k x) as [|z|] eqn:Ek; simpl in Hkx |- *.
      * rewrite Hkx. destruct (ma x _) as [|z|]; simpl in Hiter |- *.
        -- reflexivity.
        -- destruct Hiter as (z' & Hz & _). discriminate.
        -- exact I.
      * exact Hkx.
      * exact I.
  - assert (Hiter :
      holds tail (ma x (fun y => if moved x y then probe_loop ma g k n y else No))
            (Ma x' (fun y => if moved x' y then star_loop Ma g K N y else None))).
    { apply Ha; [exact Hc|]. intros y y' Hy. rewrite (continued_moved Hc Hy).
      destruct (moved x y) eqn:Hmv; [|reflexivity].
      apply IH; [exact Hy|].
      rewrite <- (continued_moved Hc Hy) in Hmv.
      unfold moved in Hmv. apply Nat.ltb_lt in Hmv. lia. }
    cbn [probe_loop star_loop]. cbv zeta. destruct g.
    + destruct (ma x _) as [|z|]; simpl in Hiter |- *.
      * rewrite Hiter. exact Hkx.
      * destruct Hiter as (z' & -> & Hz). exists z'. auto.
      * exact I.
    + destruct (k x) as [|z|] eqn:Ek; simpl in Hkx |- *.
      * rewrite Hkx. exact Hiter.
      * destruct Hkx as (z' & -> & Hz). exists z'. auto.
      * exact I.
Qed.

Lemma mtch_extends r x K z :
  mtch r x K = Some z -> exists y, extends x y /\ K y = Some z.
Proof.
  intros H. apply mtch_sound in H. destruct H as (y & Hm & Hk).
  exists y. split; [eapply matches_extends; eassumption | exact Hk].
Qed.

Lemma probe_sound r :
  forall x x' k K,
    continued tail x x' -> agree tail k K -> holds tail (probe r x k) (mtch r x' K).
Proof.
  induction r as [| p | a IHa b IHb | a IHa b IHb | g a IHa | a IHa | n a IHa
                 | | ml | | a IHa]; intros x x' k K Hc Hk; cbn [probe mtch].
  - apply Hk; exact Hc.
  - destruct Hc as (Hp & Hr & Hcap). rewrite Hr.
    destruct (rest x) as [|c t] eqn:Hx; [exact I|]. simpl.
    destruct (p c); [|reflexivity].
    apply Hk. repeat split; simpl; congruence.
  - apply IHa; [exact Hc|]. intros y y' Hy. apply IHb; assumption.
  - pose proof (IHa x x' k K Hc Hk) as Ha.
    destruct (probe a x k) as [|z|]; simpl in Ha.
    + rewrite Ha. apply IHb; assumption.
    + destruct Ha as (z' & -> & Hz). exists z'. auto.
    + exact I.
  - apply probe_loop_sound; try assumption.
    + intros; eapply mtch_extends; eassumption.
    + lia.
  - assert (Hkx : holds tail (k x) (K x')) by (apply Hk; exact Hc).
    assert (Ha : holds tail (probe a x (fun y => if moved x y then k y else No))
                       (mtch a x' (fun y => if moved x' y then K y else None))).
    { apply IHa; [exact Hc|]. intros y y' Hy. rewrite (continued_moved Hc Hy).
      destruct (moved x y); [apply Hk; exact Hy | reflexivity]. }
    destruct (probe a x _) as [|z|]; simpl in Ha.
    + rewrite Ha. exact Hkx.
    + destruct Ha as (z' & -> & Hz). exists z'. auto.
    + exact I.
  - apply IHa; [exact Hc|]. intros y y' Hy. apply Hk.
    rewrite (continued_consumed Hc Hy).
    destruct Hy as (Hp & Hr & Hcap). repeat split; simpl; congruence.
  - assert (Hkx : holds tail (k x) (K x')) by (apply Hk; exact Hc).
    destruct Hc as (Hp & Hr & Hcap).
    unfold word_before, word_after. rewrite Hp, Hr.
    destruct (rest x) as [|c t] eqn:Hx; simpl.
    + apply holds_weaken. intros Hn. rewrite Hn in Hkx. simpl in Hkx.
      rewrite Hkx. now destruct (xorb _ _).
    + destruct (xorb _ _); [exact Hkx | reflexivity].
  - assert (Hb : at_bol ml x' = at_bol ml x).
    { destruct Hc as (Hp & _). unfold at_bol. now rewrite Hp. }
    rewrite Hb. destruct (at_bol ml x); [apply Hk; exact Hc | reflexivity].
  - assert (Hkx : holds tail (k x) (K x')) by (apply Hk; exact Hc).
    destruct Hc as (Hp & Hr & Hcap). unfold at_eol. rewrite Hr.
    destruct (rest x) as [|c t] eqn:Hx; simpl.
    + apply holds_weaken. intros Hn. rewrite Hn in Hkx. simpl in Hkx.
      rewrite Hkx. now destruct tail.
    + reflexivity.
  - assert (Hkx : holds tail (k x) (K x')) by (apply Hk; exact Hc).
    assert (Ha : holds tail (probe a x (fun y => Yes y)) (mtch a x' (fun y => Some y))).
    { apply IHa; [exact Hc|]. intros y y' Hy. exists y'. auto. }
    destruct (probe a x (fun y => Yes y)) as [|z|]; simpl in Ha.
    + rewrite Ha. exact Hkx.
    + destruct Ha as (z' & -> & _). reflexivity.
    + apply holds_weaken. intros Hn. rewrite Hn in Hkx. simpl in Hkx.
      rewrite Hkx. now destruct (mtch a x' _).
Qed.

Lemma probe_at_sound r before known :
  holds tail (probe_at r before known) (exec_at r before (known ++ tail)).
Proof.
  unfold probe_at, exec_at. apply probe_sound.
  - repeat split.
  - intros y y' Hy. exists y'. auto.
Qed.

Lemma quiet_from_sound St r (cb : callback St) n :
  forall before known st out st',
    quiet_from r before known n = true ->
    replace_from r cb before (known ++ tail) 0 st = Ok (out, st') ->
    exists out', out = firstn n known ++ out'.
Proof.
  induction n as [|n IH]; intros before known st out st' Hq Hr.
  - exists out. reflexivity.
  - pose proof (probe_at_sound r before known) as Ht.
    destruct known as [|c t]; simpl in Hq;
      [destruct (probe_at r before []); discriminate|].
    destruct (probe_at r before (c :: t)); try discriminate.
    simpl in Ht. simpl in Hr. simpl app in Ht. rewrite Ht in Hr.
    destruct (replace_from r cb (c :: before) (t ++ tail) 0 st) as [[o s1]|] eqn:Hr1;
      [|discriminate].
    simpl in Hr. inversion Hr; subst.
    destruct (IH _ _ _ _ _ Hq Hr1) as (out' & ->).
    exists out'. reflexivity.
Qed.

Lemma replace_known_sound St f r (cb : callback St) :
  (forall mi st rep st', cb mi st = Ok (rep, st') -> rep = f (m_text mi) (m_caps mi)) ->
  forall known before skip st out st',
    replace_from r cb before (known ++ tail) skip st = Ok (out, st') ->
    exists out', out = replace_known f r before known skip ++ out'.
Proof.
  intros Hf known. induction known as [|c t IH]; intros before skip st out st' Hr.
  - exists out. reflexivity.
  - cbn [replace_known]. simpl app in Hr. cbn [replace_from] in Hr.
    destruct skip as [|k]; [|eapply IH; exact Hr].
    pose proof (probe_at_sound r before (c :: t)) as Ht. simpl app in Ht.
    destruct (probe_at r before (c :: t)) as [|y|]; simpl in Ht.
    + rewrite Ht in Hr.
      destruct (replace_from r cb (c :: before) (t ++ tail) 0 st) as [[o s1]|] eqn:Hr1;
        [|discriminate].
      simpl in Hr. inversion Hr; subst.
      destruct (IH _ _ _ _ _ Hr1) as (out' & ->). exists out'. reflexivity.
    + destruct Ht as (y' & He & (_ & Hrest & Hcaps)). rewrite He in Hr.
      assert (Hlen : match_length (c :: t ++ tail) y' = match_length (c :: t) y).
      { unfold match_length. rewrite Hrest. simpl length. rewrite !length_app. lia. }
      destruct (cb (info_of before (c :: t ++ tail) y') st) as [[rep s1]|] eqn:Hc;
        [|discriminate].
      simpl in Hr. rewrite Hlen in Hr.
      apply Hf in Hc. unfold info_of in Hc; simpl in Hc. rewrite Hlen, Hcaps in Hc.
      destruct (match_length (c :: t) y) as [|k] eqn:Hk; [exists out; reflexivity|].
      assert (Hfirst : firstn (S k) (c :: t ++ tail) = firstn (S k) (c :: t)).
      { change (c :: t ++ tail) with ((c :: t) ++ tail). rewrite firstn_app.
        unfold match_length in Hk.
        replace (S k - length (c :: t)) with 0 by lia.
        simpl firstn at 2. apply app_nil_r. }
      rewrite Hfirst in Hc. subst rep.
      destruct (replace_from r cb (c :: before) (t ++ tail) k s1) as [[o s2]|] eqn:Hr1;
        [|discriminate].
      simpl in Hr. inversion Hr; subst.
      destruct (IH _ _ _ _ _ Hr1) as (out' & ->).
      exists out'. now rewrite <- app_assoc.
    + exists out. reflexivity.
Qed.
End ProbeSound.

Lemma starts_with_app p s t : starts_with p s = true -> starts_with p (s ++ t) = true.
Proof.
  revert s. induction p as [|x p IH]; intros [|y s] H; simpl in *; auto; try discriminate.
  apply andb_true_iff in H. destruct H as [H1 H2]. rewrite H1. simpl. auto.
Qed.

Lemma includes_app s t p : includes s p = true -> includes (s ++ t) p = true.
Proof.
  induction s as [|c s IH]; intros H.
  - simpl in H. rewrite orb_false_r in H.
    destruct p; [destruct t; reflexivity | discriminate].
  - simpl in H. apply orb_true_iff in H. simpl. apply orb_true_iff.
    destruct H as [H|H].
    + left. apply (@starts_with_app _ (c :: s) t H).
    + right. auto.
Qed.

Lemma run_rules_app s rs1 rs2 text st :
  run_rules s (rs1 ++ rs2) text st =
  bind (run_rules s rs1 text st) (fun p => run_rules s rs2 (fst p) (snd p)).
Proof.
  revert text st. induction rs1 as [|r rs1 IH]; intros text st; simpl; [reflexivity|].
  destruct (run_rule s r text st) as [[t1 s1]|]; simpl; [apply IH | reflexivity].
Qed.

Lemma run_rules_untouched s rs known :
  untouched_by rs known = true ->
  forall tail st out st',
    run_rules s rs (known ++ tail) st = Ok (out, st') ->
    exists tail', out = known ++ tail'.
Proof.
  induction rs as [|r rs IH]; intros Hu tail st out st' Hr; simpl in Hr.
  - inversion Hr; subst. eauto.
  - simpl in Hu. apply andb_true_iff in Hu. destruct Hu as [Hq Hu].
    destruct (run_rule s r (known ++ tail) st) as [[t1 s1]|] eqn:H1; [|discriminate].
    simpl in Hr.
    assert (Hk : exists tail1, t1 = known ++ tail1).
    { destruct r as [re cb|f]; simpl in H1.
      - unfold replace in H1.
        eapply quiet_from_sound in H1; [|exact Hq].
        destruct H1 as (o & ->). rewrite firstn_all. eauto.
      - inversion H1; subst. eauto. }
    destruct Hk as (tail1 & ->). eapply IH; eassumption.
Qed.

Lemma cb_foreign_key_checks_text s mi st rep st' :
  cb_foreign_key_checks s mi st = Ok (rep, st') ->
  rep = text_foreign_key_checks (m_text mi) (m_caps mi).
Proof. unfold cb_foreign_key_checks. intros H. inversion H. reflexivity. Qed.

Lemma cb_sql_mode_text s mi st rep st' :
  cb_sql_mode s mi st = Ok (rep, st') ->
  rep = text_sql_mode (m_text mi) (m_caps mi).
Proof.
  unfold cb_sql_mode, text_sql_mode, grp, on_defined.
  destruct (cap_lookup (m_caps mi) 1); simpl; intros H; inversion H. reflexivity.
Qed.

Lemma rules_split s :
  rules s = firstn 61 (rules s) ++
            Rewrite re_foreign_key_checks (cb_foreign_key_checks s) ::
            Rewrite re_sql_mode (cb_sql_mode s) :: skipn 63 (rules s).
Proof. reflexivity. Qed.

(** The header at the beginning of the input of a run is still there after
    the rule passes, with [SET NAMES utf8mb4] and [AUTOCOMMIT] in it. *)
(** A known beginning through the passes: the passes of [rs1] leave it alone,
    two rewriting passes act on it, the passes of [rs2] leave the result
    alone. *)
Lemma run_rules_known s rs1 r1 (cb1 : callback estate) f1 r2 (cb2 : callback estate) f2
      rs2 known known' :
  untouched_by rs1 known = true ->
  (forall mi st rep st', cb1 mi st = Ok (rep, st') -> rep = f1 (m_text mi) (m_caps mi)) ->
  (forall mi st rep st', cb2 mi st = Ok (rep, st') -> rep = f2 (m_text mi) (m_caps mi)) ->
  replace_known f2 r2 [] (replace_known f1 r1 [] known 0) 0 = known' ->
  untouched_by rs2 known' = true ->
  forall tail st out st',
    run_rules s (rs1 ++ Rewrite r1 cb1 :: Rewrite r2 cb2 :: rs2) (known ++ tail) st
    = Ok (out, st') ->
    exists tail', out = known' ++ tail'.
Proof.
  intros Hu1 Hf1 Hf2 Hk Hu2 tail st out st'.
  rewrite run_rules_app. intros H.
  destruct (run_rules s rs1 (known ++ tail) st) as [[t1 s1]|] eqn:H1; [|discriminate].
  apply (@run_rules_untouched s _ _ Hu1) in H1. destruct H1 as (tail1 & ->).
  cbn [bind fst snd run_rules run_rule] in H.
  destruct (replace r1 cb1 (known ++ tail1) s1) as [[t2 s2]|] eqn:H2; [|discriminate].
  unfold replace in H2.
  apply (@replace_known_sound _ _ _ _ _ Hf1) in H2. destruct H2 as (tail2 & ->).
  cbn [bind fst snd] in H.
  destruct (replace r2 cb2 (replace_known f1 r1 [] known 0 ++ tail2) s2)
    as [[t3 s3]|] eqn:H3; [|discriminate].
  unfold replace in H3.
  apply (@replace_known_sound _ _ _ _ _ Hf2) in H3. destruct H3 as (tail3 & H3).
  rewrite Hk in H3. subst t3.
  cbn [bind fst snd] in H.
  apply (@run_rules_untouched s _ _ Hu2) in H. exact H.
Qed.

Lemma untouched_before s : untouched_by (firstn 61 (rules s)) header_known = true.
Proof. vm_compute; reflexivity. Qed.

Lemma untouched_after s : untouched_by (skipn 63 (rules s)) header_rewritten = true.
Proof. vm_compute; reflexivity. Qed.

Lemma header_known_rewritten :
  replace_known text_sql_mode re_sql_mode []
    (replace_known text_foreign_key_checks re_foreign_key_checks [] header_known 0) 0
  = header_rewritten.
Proof. vm_compute; reflexivity. Qed.

(** The header at the beginning of the input of a run is still there after
    the rule passes, with [SET NAMES utf8mb4] and [AUTOCOMMIT] in it. *)
Lemma header_survives s tail st out st' :
  run_rules s (rules s) (header_known ++ tail) st = Ok (out, st') ->
  exists tail', out = header_rewritten ++ tail'.
Proof.
  rewrite rules_split.
  apply (@run_rules_known s _ _ _ _ _ _ _ _ _ _
           (untouched_before s) (@cb_foreign_key_checks_text s)
           (@cb_sql_mode_text s) header_known_rewritten (untouched_after s)).
Qed.

Lemma header_split : header = header_known ++ header_rest.
Proof. reflexivity. Qed.

Lemma after_rules_spec s :
  exists st, run_rules s (rules s) s init_state = Ok (after_rules s, st).
Proof.
  destruct (convert_returns s) as (text & st & H & _). exists st.
  unfold after_rules. rewrite H. reflexivity.
Qed.

(** The result of a run, from the two tests of its last steps. *)
Lemma convert_assembled s :
  exists r, convertMySQLToMariaDB s = Ok r /\ convertedSQL r = assembled s.
Proof.
  destruct (convert_returns s) as (text & st & H & _ & Hc).
  eexists. split; [exact Hc|].
  unfold assembled, commit_appended, with_header, header_prepended, after_rules.
  rewrite H. unfold add_header, add_commit.
  destruct (includes text (js "SET NAMES utf8mb4")); cbn [negb app].
  - destruct (includes (toLowerCase text) (js "commit")); cbn [negb];
      cbn [convertedSQL finish]; [rewrite app_nil_r|]; reflexivity.
  - destruct (includes (toLowerCase (header ++ text)) (js "commit")); cbn [negb];
      cbn [convertedSQL finish]; [rewrite app_nil_r|]; reflexivity.
Qed.

Lemma after_rules_header x tail :
  x = header_known ++ tail ->
  exists tail', after_rules x = header_rewritten ++ tail'.
Proof.
  intros E. destruct (after_rules_spec x) as (st & Hr).
  pose proof (@header_survives x tail init_state (after_rules x) st) as Hs.
  rewrite <- E in Hs. exact (Hs Hr).
Qed.

Lemma toLowerCase_app s t : toLowerCase (s ++ t) = toLowerCase s ++ toLowerCase t.
Proof. apply map_app. Qed.

Lemma starts_with_before p c b : forall u,
  forallb (fun y => negb (eqb_char y c)) p = true ->
  starts_with p (u ++ c :: b) = true -> starts_with p u = true.
Proof.
  induction p as [|y p IH]; intros u Hc H; [reflexivity|].
  cbn [forallb] in Hc. apply andb_true_iff in Hc as [Hy Hp].
  destruct u as [|x u]; cbn [app starts_with] in *.
  - apply andb_true_iff in H as [H _]. rewrite H in Hy. discriminate.
  - apply andb_true_iff in H as [Hx H]. rewrite Hx. cbn [andb].
    apply IH; assumption.
Qed.

(** Appending a text that begins with a character foreign to [p] to a text
    without [p] adds the occurrences of the appended text, and no other. *)
Lemma occurrences_app_fresh p c b : forall a,
  includes a p = false ->
  forallb (fun y => negb (eqb_char y c)) p = true ->
  occurrences p (a ++ c :: b) = occurrences p (c :: b).
Proof.
  induction a as [|x a IH]; intros Ha Hc; [reflexivity|].
  cbn [includes] in Ha. apply orb_false_iff in Ha as [Hs Ha].
  change ((x :: a) ++ c :: b) with (x :: (a ++ c :: b)).
  cbn [occurrences]. rewrite (IH Ha Hc).
  destruct (starts_with p (x :: a ++ c :: b)) eqn:E; [|reflexivity].
  apply (@starts_with_before p c b (x :: a) Hc) in E. congruence.
Qed.

(** C9, as stated, fails.  On [dump_tail_example], which needs no header,
    the first run appends [COMMIT;].  In the second run the appended blank
    line completes the [DEFINER] clause, whose removal joins [COMMIT;] to the
    dump comment, which is removed as a line: the text is left without
    [commit], and the second run appends [COMMIT;] once more. *)
Lemma C9_counterexample :
  exists r1 r2,
    convertMySQLToMariaDB dump_tail_example = Ok r1 /\
    convertedSQL r1 = dump_tail_example ++ commit_block /\
    map description (res_issues r1)
    = [js "Added COMMIT statement at end of file for transaction safety"] /\
    convertMySQLToMariaDB (convertedSQL r1) = Ok r2 /\
    convertedSQL r2 = js "SET NAMES utf8mb4;" ++ [nl] ++ commit_block /\
    map description (res_issues r2)
    = [js "Removed DEFINER clause to prevent import failures due to missing user accounts";
       js "Removed HeidiSQL dump comment for cleaner structure";
       js "Added COMMIT statement at end of file for transaction safety"].
Proof.
  eexists. eexists.
  split; [vm_compute; reflexivity|]. cbn [convertedSQL res_issues].
  split; [vm_compute; reflexivity|].
  split; [vm_compute; reflexivity|].
  split; [vm_compute; reflexivity|]. cbn [convertedSQL res_issues].
  split; vm_compute; reflexivity.
Qed.

(** C9, amended.  Converting an input and then converting the result.  Both
    runs return, each with the text [assembled] from what its rule passes
    leave.  The header is not prepended a second time: when the first run has
    prepended it, it is at the beginning of the input of the second run and
    survives its rule passes ([header_survives]), so the second run prepends
    no header and appends no [COMMIT;], and its result begins with the one
    header.  The second run can append [COMMIT;], but only to a text in which
    its rule passes have left no [commit], in any letter case, the [COMMIT;]
    of the first run included; no header is prepended then, and the result
    holds [commit] exactly once, in the appended block: it never ends in two
    appended [COMMIT;] statements. *)
Theorem C9_second_run_header_and_commit (s : jsstring) :
  exists r1 r2,
    convertMySQLToMariaDB s = Ok r1 /\
    convertMySQLToMariaDB (convertedSQL r1) = Ok r2 /\
    convertedSQL r1 = assembled s /\
    convertedSQL r2 = assembled (convertedSQL r1) /\
    (header_prepended s = true ->
     commit_appended s = false /\
     header_prepended (convertedSQL r1) = false /\
     commit_appended (convertedSQL r1) = false /\
     exists tail, convertedSQL r2 = header_rewritten ++ tail) /\
    (commit_appended (convertedSQL r1) = true ->
     header_prepended (convertedSQL r1) = false /\
     includes (toLowerCase (after_rules (convertedSQL r1))) (js "commit") = false /\
     convertedSQL r2 = after_rules (convertedSQL r1) ++ commit_block /\
     occurrences (js "commit") (toLowerCase (convertedSQL r2)) = 1).
Proof.
  destruct (convert_assembled s) as (r1 & H1 & E1).
  destruct (convert_assembled (convertedSQL r1)) as (r2 & H2 & E2).
  exists r1, r2. do 4 (split; [assumption|]).
  split.
  - intros Hh.
    assert (Hc : commit_appended s = false).
    { unfold commit_appended, with_header. rewrite Hh, toLowerCase_app.
      rewrite includes_app; reflexivity. }
    assert (Eout : convertedSQL r1 = header_known ++ (header_rest ++ after_rules s)).
    { rewrite E1. unfold assembled, with_header.
      rewrite Hh, Hc, app_nil_r, header_split, app_assoc. reflexivity. }
    destruct (@after_rules_header _ _ Eout) as (tail & Ha).
    assert (Hh2 : header_prepended (convertedSQL r1) = false).
    { unfold header_prepended. rewrite Ha, includes_app; reflexivity. }
    assert (Hc2 : commit_appended (convertedSQL r1) = false).
    { unfold commit_appended, with_header.
      rewrite Hh2, Ha, app_nil_l, toLowerCase_app, includes_app; reflexivity. }
    repeat split; try assumption.
    exists tail. rewrite E2. unfold assembled, with_header.
    rewrite Hh2, Hc2, app_nil_r, app_nil_l. exact Ha.
  - intros Hc.
    assert (Hh : header_prepended (convertedSQL r1) = false).
    { destruct (header_prepended (convertedSQL r1)) eqn:Hh; [|reflexivity].
      unfold commit_appended, with_header in Hc. rewrite Hh, toLowerCase_app in Hc.
      rewrite includes_app in Hc; [discriminate | reflexivity]. }
    assert (Hn : includes (toLowerCase (after_rules (convertedSQL r1))) (js "commit")
                 = false).
    { unfold commit_appended, with_header in Hc. rewrite Hh, app_nil_l in Hc.
      apply negb_true_iff in Hc. exact Hc. }
    assert (E : convertedSQL r2 = after_rules (convertedSQL r1) ++ commit_block).
    { rewrite E2. unfold assembled, with_header. rewrite Hh, Hc, app_nil_l.
      reflexivity. }
    repeat split; try assumption.
    rewrite E, toLowerCase_app.
    change (toLowerCase commit_block) with (nl :: [nl] ++ js "commit;" ++ [nl]).
    rewrite occurrences_app_fresh; [reflexivity | exact Hn | reflexivity].
Qed.

Lemma C9_second_run_header_and_commit_witness :
  (exists r1,
      convertMySQLToMariaDB [] = Ok r1 /\
      header_prepended (convertedSQL r1) = false /\
      commit_appended (convertedSQL r1) = false) /\
  (exists r2,
      convertMySQLToMariaDB (assembled dump_tail_example) = Ok r2 /\
      occurrences (js "commit") (toLowerCase (convertedSQL r2)) = 1).
Proof.
  split.
  - destruct (C9_second_run_header_and_commit []) as (r1 & r2 & H1 & _ & _ & _ & H & _).
    exists r1. split; [exact H1|].
    destruct H as (_ & Hh & Hc & _); [vm_compute; reflexivity|]. split; assumption.
  - destruct (C9_second_run_header_and_commit dump_tail_example)
      as (r1 & r2 & _ & H2 & E1 & _ & _ & H).
    exists r2. rewrite <- E1. split; [exact H2|].
    apply H. rewrite E1. vm_compute. reflexivity.
Defined.

(* ------------------------------------------------------------------ *)
(** ** Further properties of the engine, the store and the routes *)
(* ------------------------------------------------------------------ *)

Lemma split_lines_aux_pos cur s : 1 <= length (split_lines_aux cur s).
Proof.
  revert cur. induction s as [|c s IH]; intros cur; simpl; [lia|].
  destruct (eqb_char c nl); simpl; [lia | apply IH].
Qed.

Lemma split_lines_aux_firstn s :
  forall i cur cur',
    length (split_lines_aux cur (firstn i s)) <= length (split_lines_aux cur' s).
Proof.
  induction s as [|c s IH]; intros i cur cur'.
  - rewrite firstn_nil. simpl. lia.
  - destruct i as [|i]; simpl.
    + destruct (eqb_char c nl); simpl; [lia | apply split_lines_aux_pos].
    + destruct (eqb_char c nl); simpl; [apply le_n_S|]; apply IH.
Qed.

Lemma line_of_firstn i s : line_of (firstn i s) <= line_of s.
Proof. apply split_lines_aux_firstn. Qed.

Lemma line_of_firstn_le s i j : i <= j -> line_of (firstn i s) <= line_of (firstn j s).
Proof.
  intros H. replace (firstn i s) with (firstn i (firstn j s)).
  - apply line_of_firstn.
  - rewrite firstn_firstn. f_equal. lia.
Qed.

Lemma eqb_char_refl c : eqb_char c c = true.
Proof. apply N.eqb_refl. Qed.

Lemma starts_with_self m b : starts_with m (m ++ b) = true.
Proof. induction m as [|c m IH]; simpl; [reflexivity|]. now rewrite eqb_char_refl. Qed.

(** [indexOf] finds the first occurrence. *)
Lemma indexOf_first a m b :
  exists i, indexOf (a ++ m ++ b) m = Some i /\ i <= length a.
Proof.
  induction a as [|c a IH].
  - exists 0. simpl app. split; [|simpl; lia].
    destruct (m ++ b) eqn:E; simpl.
    + destruct m; [reflexivity | discriminate].
    + rewrite <- E. now rewrite starts_with_self.
  - destruct IH as (i & Hi & Hle). simpl app. cbn [indexOf].
    destruct (starts_with m (c :: a ++ m ++ b)).
    + exists 0. split; [reflexivity | lia].
    + exists (S i). rewrite Hi. split; [reflexivity | simpl; lia].
Qed.

Lemma indexOf_bound s m i : indexOf s m = Some i -> i <= length s.
Proof.
  revert i. induction s as [|c s IH]; intros i; simpl.
  - destruct (starts_with m []); [|discriminate]. intros H. inversion H. lia.
  - destruct (starts_with m (c :: s)); [intros H; inversion H; lia|].
    destruct (indexOf s m) as [j|]; [|discriminate]. simpl. intros H. inversion H.
    specialize (IH j eq_refl). lia.
Qed.

Lemma substring_0 s i : substring s 0 i = firstn i s.
Proof. unfold substring. now rewrite Nat.sub_0_r. Qed.

Lemma getLineNumber_bounds content searchText :
  1 <= getLineNumber content searchText <= line_of content.
Proof.
  unfold getLineNumber, line_of. destruct (indexOf content searchText) as [i|].
  - rewrite substring_0. split; [apply split_lines_aux_pos | apply line_of_firstn].
  - split; [lia | apply split_lines_aux_pos].
Qed.

(** X1. [getLineNumber] reports the line of the first occurrence of the
    searched text.  The result is a line of the content (between 1 and the
    number of its lines); for every occurrence of the text, at whatever
    place, it is at most the line on which that occurrence begins; and it is
    that line when the occurrence is the first one. *)
Theorem getLineNumber_first_occurrence (a m b : jsstring) :
  1 <= getLineNumber (a ++ m ++ b) m <= line_of (a ++ m ++ b) /\
  getLineNumber (a ++ m ++ b) m <= line_of a /\
  (indexOf (a ++ m ++ b) m = Some (length a) ->
   getLineNumber (a ++ m ++ b) m = line_of a).
Proof.
  split; [apply getLineNumber_bounds|]. split.
  - destruct (indexOf_first a m b) as (i & Hi & Hle).
    unfold getLineNumber. rewrite Hi, substring_0.
    replace a with (firstn (length a) (a ++ m ++ b)) at 2
      by (rewrite firstn_app, Nat.sub_diag, firstn_all; simpl; apply app_nil_r).
    apply line_of_firstn_le. exact Hle.
  - intros H. unfold getLineNumber. rewrite H, substring_0.
    rewrite firstn_app, Nat.sub_diag, firstn_all. simpl. now rewrite app_nil_r.
Qed.

Ltac close_recorded :=
  unfold recorded, located, well_formed;
  cbn [lineNumber originalText convertedText autoFixed];
  split;
  [ eexists; split; [reflexivity|];
    first [ apply getLineNumber_bounds | lia ]
  | split; [discriminate | split; intros Hq; congruence] ].

Ltac close_emits :=
  do 2 eexists; split; [reflexivity|];
  first
    [ left; reflexivity
    | right;
      lazymatch goal with
      | |- exists i, addIssue ?x _ = _ /\ _ => exists x; split; [reflexivity|]
      | |- exists i, push_warning_fixed ?x _ = _ /\ _ =>
          exists x; split; [apply push_warning_fixed_addIssue; reflexivity|]
      | |- exists i, push_optimization_fixed ?x _ = _ /\ _ =>
          exists x; split; [apply push_optimization_fixed_addIssue; reflexivity|]
      end;
      close_recorded ].

Ltac solve_emits :=
  lazymatch goal with
  | |- cb_emits _ _ ?cb =>
      let h := head_of cb in
      unfold cb_emits, h; intros mi st Hp; cbv zeta; split_cb; close_emits
  end.

Ltac solve_emits_group n :=
  lazymatch goal with
  | |- cb_emits _ ?re ?cb =>
      let h := head_of cb in
      unfold cb_emits, h; intros mi st Hp; cbv zeta;
      let Hg := fresh "Hg" in
      assert (Hg : grp mi n <> None)
        by (apply (@produced_group re); [exact Hp | vm_compute; reflexivity]);
      destruct (grp mi n); [|contradiction]; simpl on_defined; cbn [bind];
      split_cb; close_emits
  end.

Ltac solve_line_emits :=
  lazymatch goal with
  | |- line_emits _ _ ?f =>
      unfold line_emits, f; intros index line st Hi;
      lazymatch goal with
      | |- context [if ?b then _ else _] => destruct b
      end;
      [ right; eexists; split; [reflexivity|]; close_recorded
      | left; reflexivity ]
  end.

Lemma rules_recorded (s : jsstring) :
  Forall (rule_emits (recorded s) (line_of s)) (rules s).
Proof.
  unfold rules.
  repeat first
    [ apply Forall_app; split
    | apply Forall_map_intro; intros; simpl
    | apply Forall_cons; simpl
    | apply Forall_nil ];
  first [ solve_emits | solve_emits_group 1 | solve_emits_group 2 | solve_line_emits ].
Qed.

Lemma for_each_line_emits P n f :
  line_emits P n f ->
  forall lines index st,
    index + length lines <= n -> appended P st (for_each_line f index lines st).
Proof.
  intros Hf lines. induction lines as [|l ls IH]; intros index st Hn; simpl.
  - apply appended_refl.
  - simpl in Hn. eapply appended_trans; [|apply IH; lia].
    destruct (Hf index l st) as [-> | (i & -> & Hi)]; [lia | apply appended_refl |].
    apply appended_addIssue. exact Hi.
Qed.

Lemma run_rule_emits P s r text st :
  rule_emits P (line_of s) r ->
  exists text' st', run_rule s r text st = Ok (text', st') /\ appended P st st'.
Proof.
  destruct r as [re cb | f]; simpl; intros Hr.
  - apply (replace_ok (appended P) (@appended_refl P) (@appended_trans P)).
    intros mi st0 Hp.
    destruct (Hr mi st0) as (rep & st' & Hc & Hs); [exists text; exact Hp|].
    exists rep, st'. split; [exact Hc|].
    destruct Hs as [-> | (i & -> & Hi)];
      [apply appended_refl | apply appended_addIssue; exact Hi].
  - do 2 eexists. split; [reflexivity|].
    apply for_each_line_emits with (n := line_of s); [exact Hr|]. unfold line_of. simpl. lia.
Qed.

Lemma run_rules_emits P s rs :
  Forall (rule_emits P (line_of s)) rs ->
  forall text st,
  exists text' st', run_rules s rs text st = Ok (text', st') /\ appended P st st'.
Proof.
  induction 1 as [|r rs Hr _ IH]; intros text st; simpl.
  - exists text, st. split; [reflexivity | apply appended_refl].
  - destruct (@run_rule_emits P s r text st Hr) as (t1 & s1 & H1 & A1).
    rewrite H1. simpl.
    destruct (IH t1 s1) as (t2 & s2 & H2 & A2).
    exists t2, s2. split; [exact H2 | eapply appended_trans; eassumption].
Qed.

Lemma add_header_recorded s text st :
  appended (recorded s) st (snd (add_header text st)).
Proof.
  unfold add_header. destruct (negb (includes text (js "SET NAMES utf8mb4"))); simpl.
  - rewrite push_optimization_fixed_addIssue by reflexivity.
    apply appended_addIssue. unfold recorded, located, well_formed; simpl.
    split; [exists 1; split; [reflexivity|]; pose proof (split_lines_aux_pos [] s);
            unfold line_of, split_lines; lia|].
    split; [discriminate | split; intros; congruence].
  - apply appended_refl.
Qed.

(** The issues of a run: those of the rules and of the header step, then
    possibly the record of the appended [COMMIT;]. *)
Lemma convert_recorded (s : jsstring) :
  exists r l c,
    convertMySQLToMariaDB s = Ok r /\
    res_issues r = l ++ c /\
    Forall (recorded s) l /\
    (c = [] \/ exists i, c = [i] /\ commit_record (convertedSQL r) i).
Proof.
  destruct (convert_returns s) as (text & st & Hrun & _ & Hc).
  destruct (@run_rules_emits (recorded s) s (rules s) (rules_recorded s) s init_state)
    as (text' & st' & Hrun' & (l1 & Hl1 & F1)).
  rewrite Hrun in Hrun'. inversion Hrun'; subst text' st'. clear Hrun'.
  simpl in Hl1.
  pose proof (add_header_recorded s text st) as (l2 & Hl2 & F2).
  rewrite Hc. destruct (add_header text st) as [t1 s1]. simpl in Hl2.
  unfold add_commit.
  destruct (negb (includes (toLowerCase t1) (js "commit"))).
  - eexists. exists (l1 ++ l2). eexists. split; [reflexivity|].
    cbn [res_issues finish convertedSQL].
    split; [|split].
    + rewrite push_optimization_fixed_addIssue by reflexivity.
      unfold addIssue. cbn [autoFixed issueType]. simpl issues.
      rewrite Hl2, Hl1. reflexivity.
    + apply Forall_app. split; assumption.
    + right. eexists. split; [reflexivity|].
      unfold commit_record, well_formed, line_of; simpl.
      repeat split; try discriminate; intros; congruence.
  - eexists. exists (l1 ++ l2), []. split; [reflexivity|]. cbn [res_issues finish].
    split; [|split].
    + rewrite Hl2, Hl1, app_nil_r. reflexivity.
    + apply Forall_app. split; assumption.
    + left. reflexivity.
Qed.

(** X2. Every issue of a run quotes the text it is about, and holds a
    converted text exactly when it is marked as fixed. *)
Theorem issues_well_formed (s : jsstring) :
  exists r, convertMySQLToMariaDB s = Ok r /\ Forall well_formed (res_issues r).
Proof.
  destruct (convert_recorded s) as (r & l & c & Hr & Hl & F & Hc).
  exists r. split; [exact Hr|]. rewrite Hl. apply Forall_app. split.
  - eapply Forall_impl; [|exact F]. intros i Hi. apply Hi.
  - destruct Hc as [-> | (i & -> & Hi)]; [constructor|].
    constructor; [apply Hi | constructor].
Qed.

(** X3. Every issue of a run holds a line number.  For the issues of the
    rules and of the header step it is a line of the input, between 1 and the
    number of its lines; the record of the appended [COMMIT;], which comes
    last, holds the number of lines of the result. *)
Theorem issues_located (s : jsstring) :
  exists r l c,
    convertMySQLToMariaDB s = Ok r /\
    res_issues r = l ++ c /\
    Forall (located (line_of s)) l /\
    (c = [] \/
     exists i, c = [i] /\
       description i = js "Added COMMIT statement at end of file for transaction safety" /\
       lineNumber i = Some (line_of (convertedSQL r))).
Proof.
  destruct (convert_recorded s) as (r & l & c & Hr & Hl & F & Hc).
  exists r, l, c. split; [exact Hr|]. split; [exact Hl|]. split.
  - eapply Forall_impl; [|exact F]. intros i Hi. apply Hi.
  - destruct Hc as [-> | (i & -> & Hd & Hn & _)]; [left; reflexivity|].
    right. exists i. auto.
Qed.

(** X4. The counter [autoFixed] of the statistics is the number of issues
    marked as fixed, and so never exceeds [totalIssues]. *)
Theorem autoFixed_counted (s : jsstring) :
  exists r,
    convertMySQLToMariaDB s = Ok r /\
    autoFixedCount (res_stats r) = count_fixed (res_issues r) /\
    autoFixedCount (res_stats r) <= totalIssues (res_stats r).
Proof.
  destruct (convert_grows s) as (text & st & G & H).
  exists (finish text st). split; [exact H|].
  destruct (counted_grows G counted_init) as (_ & _ & _ & Hf).
  unfold finish; simpl. split; [exact Hf|].
  rewrite Hf. unfold count_fixed. apply filter_length_le.
Qed.

Lemma hands_back_keeps_text s re cb :
  cb_ok re cb ->
  (forall mi st rep st', cb mi st = Ok (rep, st') -> rep = m_text mi) ->
  keeps_text s (Rewrite re cb).
Proof.
  intros Hok Hid text st.
  destruct (@run_rule_grows s (Rewrite re cb) text st Hok) as (text' & st' & Hr & _).
  exists st'. rewrite Hr. f_equal. f_equal. simpl in Hr.
  eapply replace_id; [|exact Hr]. intros mi s0 rep s1 _ Hc. eapply Hid; exact Hc.
Qed.

Lemma per_line_keeps_text s f : keeps_text s (PerLine f).
Proof. intros text st. eexists. reflexivity. Qed.

Ltac hands_back :=
  lazymatch goal with
  | |- forall mi st rep st', ?cb mi st = Ok (rep, st') -> rep = m_text mi =>
      let h := head_of cb in
      let H := fresh "H" in
      unfold h; intros mi st rep st'; cbv zeta; split_cb; intros H; inversion H;
      reflexivity
  end.

Lemma Forall_map_in (A B : Type) (P : B -> Prop) (f : A -> B) (l : list A) :
  (forall a, In a l -> P (f a)) -> Forall P (map f l).
Proof.
  intros H. apply Forall_forall. intros b Hb. apply in_map_iff in Hb.
  destruct Hb as (a & <- & Ha). auto.
Qed.

(** X5. The rules for [CREATE TABLE IF NOT EXISTS], [ENGINE=InnoDB], common
    table expressions, window functions, generated columns, [CHECK]
    constraints, JSON functions, partitioning, JSON columns (per line),
    [AUTO_INCREMENT], [DISABLE KEYS]/[ENABLE KEYS] and the index length
    safeguard are rules of the pipeline that only report: on every working
    text and with every state of the accumulators, the pass returns and
    leaves the text exactly as it was. *)
Theorem report_only_rules_keep_text (sqlContent : jsstring) :
  Forall (fun r => In r (rules sqlContent) /\ keeps_text sqlContent r)
         (report_only sqlContent).
Proof.
  unfold report_only.
  repeat first
    [ apply Forall_app; split
    | apply Forall_map_in; intros func Hfunc
    | apply Forall_cons
    | apply Forall_nil ];
  (split;
   [ unfold rules; rewrite !in_app_iff;
     first [ do 1 right; left; simpl; tauto
           | do 2 right; left; apply in_map_iff; eexists; split; [reflexivity|assumption]
           | do 3 right; left; simpl; tauto
           | do 4 right; left; apply in_map_iff; eexists; split; [reflexivity|assumption]
           | do 5 right; simpl; tauto ]
   | first [ apply per_line_keeps_text
           | apply hands_back_keeps_text;
             [ first [solve_cb | solve_cb_group 1] | hands_back ] ] ]).
Qed.

Lemma no_create_table_before_lookback w text r mi :
  no_create_table_before w text = true ->
  produced_on text r mi ->
  test re_create_table (lookback w mi) = false.
Proof.
  intros Hn Hp. destruct (produced_on_occurs Hp) as (Hin & a & b & Hab & Hlen).
  unfold no_create_table_before in Hn. rewrite forallb_forall in Hn.
  specialize (Hn (m_offset mi)). unfold lookback. rewrite Hin.
  apply negb_true_iff. apply Hn. apply in_seq. split; [lia|].
  rewrite Hab, length_app. lia.
Qed.

Lemma plain_key_guard sqlContent mi st :
  produced re_plain_key mi ->
  test re_create_table (lookback 500 mi) = false ->
  cb_plain_key sqlContent mi st = Ok (m_text mi, st).
Proof.
  intros Hp H. unfold cb_plain_key. cbv zeta.
  assert (Hg : grp mi 1 <> None)
    by (apply (@produced_group re_plain_key); [exact Hp | vm_compute; reflexivity]).
  destruct (grp mi 1); [|contradiction]. simpl on_defined. cbn [bind].
  rewrite H. simpl. now destruct (negb _).
Qed.

Lemma index_guard sqlContent mi st :
  test re_create_table (lookback 500 mi) = false ->
  cb_index sqlContent mi st = Ok (m_text mi, st).
Proof. intros H. unfold cb_index. cbv zeta. rewrite H. reflexivity. Qed.

Lemma json_column_guard sqlContent mi st :
  test re_create_table (lookback 300 mi) = false ->
  cb_json_column sqlContent mi st = Ok (m_text mi, st).
Proof. intros H. unfold cb_json_column. cbv zeta. rewrite H. reflexivity. Qed.

(** X6. The rules for plain [KEY] definitions, for indexes on large
    [varchar] columns and for JSON columns do nothing outside a table
    definition.  Per match: when the window of characters before the match
    (500 for the key and index rules, 300 for the JSON column rule) holds no
    [CREATE TABLE] keyword, the callback hands the match back unchanged and
    touches neither the issue list nor the counters; and the key rule does the
    same, whatever the context, for a key that is not a plain [KEY]
    ([PRIMARY KEY], [UNIQUE KEY], ...).  Per pass: on a working text no
    position of which has the keyword in its window, each of the three passes
    returns the text and the accumulators as they were. *)
Theorem key_index_json_rules_guarded :
  (forall sqlContent mi st,
      produced re_plain_key mi ->
      test re_create_table (lookback 500 mi) = false ->
      cb_plain_key sqlContent mi st = Ok (m_text mi, st)) /\
  (forall sqlContent mi st keyType,
      grp mi 1 = Some keyType ->
      eqb_str (toUpperCase keyType) (js "KEY") = false ->
      cb_plain_key sqlContent mi st = Ok (m_text mi, st)) /\
  (forall sqlContent mi st,
      test re_create_table (lookback 500 mi) = false ->
      cb_index sqlContent mi st = Ok (m_text mi, st)) /\
  (forall sqlContent mi st,
      test re_create_table (lookback 300 mi) = false ->
      cb_json_column sqlContent mi st = Ok (m_text mi, st)) /\
  (forall sqlContent text st,
      no_create_table_before 500 text = true ->
      no_create_table_before 300 text = true ->
      replace re_plain_key (cb_plain_key sqlContent) text st = Ok (text, st) /\
      replace re_index (cb_index sqlContent) text st = Ok (text, st) /\
      replace re_json_column (cb_json_column sqlContent) text st = Ok (text, st)).
Proof.
  split; [|split; [|split; [|split]]].
  - intros. apply plain_key_guard; assumption.
  - intros sqlContent mi st keyType Hg Hk. unfold cb_plain_key. cbv zeta.
    rewrite Hg. simpl on_defined. cbn [bind]. rewrite Hk. reflexivity.
  - intros. apply index_guard; assumption.
  - intros. apply json_column_guard; assumption.
  - intros sqlContent text st H500 H300. repeat split; apply replace_noop; intros mi s Hp.
    + apply plain_key_guard; [exists text; exact Hp|].
      eapply no_create_table_before_lookback; eassumption.
    + apply index_guard. eapply no_create_table_before_lookback; eassumption.
    + apply json_column_guard. eapply no_create_table_before_lookback; eassumption.
Qed.

Lemma key_index_json_rules_guarded_witness :
  replace re_plain_key (cb_plain_key key_example) key_example init_state
  = Ok (key_example, init_state).
Proof.
  apply (proj2 (proj2 (proj2 (proj2 key_index_json_rules_guarded)))
           key_example key_example init_state); vm_compute; reflexivity.
Defined.

Lemma is_word_upper c : is_word (upper_char c) = is_word c.
Proof. destruct c as [[] [] [] [] [] [] [] []]; reflexivity. Qed.

Lemma eqb_ci_word c d : eqb_ci c d = true -> is_word c = is_word d.
Proof.
  unfold eqb_ci. intros H. apply eqb_char_eq in H.
  rewrite <- (is_word_upper c), <- (is_word_upper d). now rewrite H.
Qed.

Lemma ci_word_all k w :
  starts_with_by eqb_ci k w = true -> length w = length k ->
  forallb is_word k = true -> forallb is_word w = true.
Proof.
  revert w. induction k as [|c k IH]; intros [|d w]; simpl; try discriminate; auto.
  intros H L F. apply andb_true_iff in H. destruct H as [H1 H2].
  apply andb_true_iff in F. destruct F as [F1 F2].
  rewrite <- (eqb_ci_word _ _ H1), F1. simpl. apply IH; auto.
Qed.

Lemma matches_wordb_at x y :
  matches WordB x y -> y = x /\ xorb (word_before x) (word_after x) = true.
Proof. intros H. inversion H; subst. auto. Qed.

Lemma word_after_app x w r :
  rest x = w ++ r -> w <> [] -> forallb is_word w = true -> word_after x = true.
Proof.
  intros Hr Hw Hf. unfold word_after. rewrite Hr.
  destruct w as [|c w]; [congruence|]. simpl in *.
  apply andb_true_iff in Hf. apply Hf.
Qed.

Lemma word_before_app y w p :
  pre y = rev w ++ p -> w <> [] -> forallb is_word w = true -> word_before y = true.
Proof.
  intros Hp Hw Hf. unfold word_before. rewrite Hp.
  destruct (rev w) as [|c t] eqn:E.
  - apply (f_equal (@rev _)) in E. rewrite rev_involutive in E. simpl in E. congruence.
  - simpl. rewrite forallb_forall in Hf. apply Hf. apply in_rev. rewrite E. left. reflexivity.
Qed.

(** What a pattern [\bNAME\b] for a name made of word characters matches:
    the name, in any letter case, with no word character next to it. *)
Lemma whole_token_match (k : string) mi :
  word_name k = true ->
  produced (re_collation k) mi ->
  exists a b,
    m_input mi = a ++ m_text mi ++ b /\ length a = m_offset mi /\
    length (m_text mi) = length (js k) /\
    starts_with_by eqb_ci (js k) (m_text mi) = true /\
    ends_with_word a = false /\ starts_with_word b = false.
Proof.
  intros Hk (s & before & after & y & Hs & He & ->).
  apply andb_true_iff in Hk. destruct Hk as [Hkw Hkn].
  apply negb_true_iff, Nat.eqb_neq in Hkn.
  unfold exec_at in He. apply mtch_sound in He.
  destruct He as (y' & Hm & Hy). inversion Hy; subst y'; clear Hy.
  unfold re_collation in Hm.
  inv_seq Hm H1 Hm. apply matches_wordb_at in H1. destruct H1 as [E1 X1]. subst.
  inv_seq Hm H2 Hm. apply (@matches_literal eqb_ci) in H2. apply eat_span in H2.
  destruct H2 as (w & (A & B & C) & Pw & Lw).
  apply matches_wordb_at in Hm. destruct Hm as [E2 X2]. subst y.
  simpl in A, B.
  assert (Hw : w <> []) by (destruct w; [simpl in Lw; congruence | discriminate]).
  assert (Fw : forallb is_word w = true) by (eapply ci_word_all; eassumption).
  match type of A with
  | _ = _ ++ rest ?z =>
      rewrite (@word_after_app (MState before after []) w (rest z) A Hw Fw) in X1;
      rewrite (@word_before_app z w before B Hw Fw) in X2;
      exists (rev before), (rest z); unfold info_of; simpl;
      assert (Hf : firstn (match_length after z) after = w)
        by (unfold match_length; rewrite A; apply firstn_prefix)
  end.
  rewrite Hf. repeat split.
  - rewrite A. reflexivity.
  - apply length_rev.
  - exact Lw.
  - exact Pw.
  - unfold ends_with_word. rewrite rev_involutive.
    unfold word_before in X1. simpl in X1.
    destruct before; [reflexivity|]. now destruct (is_word a).
  - unfold starts_with_word. unfold word_after in X2. simpl in X2.
    match goal with |- match ?l with _ => _ end = _ => destruct l as [|c t] end;
      [reflexivity | now destruct (is_word c)].
Qed.

Lemma collation_names_are_words :
  forallb (fun e => word_name (fst e)) mysqlCollationMap = true.
Proof. vm_compute. reflexivity. Qed.

(** X7. A collation name of the table is replaced as a whole token only.
    For every entry of the table and every match handed to its callback: the
    matched text is the MySQL name (in any letter case), the characters next
    to it in the searched text, if any, are not word characters (letters,
    digits, underscore), so that the name is not part of a longer identifier;
    the callback replaces it by the MariaDB name of the entry and records one
    issue: a warning of category compatibility, marked as fixed, with the
    matched text and the new name. *)
Theorem collation_replaced_as_whole_token (k v : string) :
  In (k, v) mysqlCollationMap ->
  forall sqlContent mi st,
    produced (re_collation k) mi ->
    exists a b i,
      m_input mi = a ++ m_text mi ++ b /\ length a = m_offset mi /\
      length (m_text mi) = length (js k) /\
      starts_with_by eqb_ci (js k) (m_text mi) = true /\
      ends_with_word a = false /\ starts_with_word b = false /\
      cb_collation sqlContent v mi st = Ok (js v, addIssue i st) /\
      issueType i = warning /\ category i = compatibility /\ autoFixed i = true /\
      originalText i = Some (m_text mi) /\ convertedText i = Some (js v).
Proof.
  intros Hin sqlContent mi st Hp.
  pose proof collation_names_are_words as Hall. rewrite forallb_forall in Hall.
  specialize (Hall _ Hin). simpl in Hall.
  destruct (@whole_token_match k mi Hall Hp) as (a & b & H1 & H2 & H3 & H4 & H5 & H6).
  exists a, b. eexists. repeat split; try eassumption; reflexivity.
Qed.

Lemma collation_example_match_produced :
  produced (re_collation "utf8mb4_0900_ai_ci") collation_example_match.
Proof.
  exists (js "COLLATE utf8mb4_0900_ai_ci;"), (rev (js "COLLATE ")),
         (js "utf8mb4_0900_ai_ci;").
  eexists. split; [reflexivity|]. split; [vm_compute; reflexivity|].
  vm_compute. reflexivity.
Qed.

Lemma collation_replaced_as_whole_token_witness :
  exists a b i,
    m_input collation_example_match = a ++ m_text collation_example_match ++ b /\
    length a = m_offset collation_example_match /\
    length (m_text collation_example_match) = length (js "utf8mb4_0900_ai_ci") /\
    starts_with_by eqb_ci (js "utf8mb4_0900_ai_ci") (m_text collation_example_match) = true /\
    ends_with_word a = false /\ starts_with_word b = false /\
    cb_collation [] "utf8mb4_unicode_ci" collation_example_match init_state
    = Ok (js "utf8mb4_unicode_ci", addIssue i init_state) /\
    issueType i = warning /\ category i = compatibility /\ autoFixed i = true /\
    originalText i = Some (m_text collation_example_match) /\
    convertedText i = Some (js "utf8mb4_unicode_ci").
Proof.
  apply (@collation_replaced_as_whole_token "utf8mb4_0900_ai_ci" "utf8mb4_unicode_ci").
  - simpl. tauto.
  - exact collation_example_match_produced.
Defined.

Lemma collation_table_checked :
  forallb (fun e => entry_keeps_class e && entry_final e) mysqlCollationMap = true.
Proof. vm_compute. reflexivity. Qed.

(** X8. The collation table does not mix up case sensitivity, and its
    passes do not feed each other.  For every entry: a MySQL name ending in
    [_ci] is sent to [utf8mb4_unicode_ci]; every other name ends in [_cs],
    [_bin] or [_cs_ks] and is sent to [utf8mb4_bin]; and the MariaDB name holds
    no MySQL name of the table as a whole token, so that what one collation
    pass writes is never rewritten by another. *)
Theorem collation_table_keeps_case_sensitivity (k v : string) :
  In (k, v) mysqlCollationMap ->
  (ends_with (js k) (js "_ci") = true -> v = "utf8mb4_unicode_ci"%string) /\
  (ends_with (js k) (js "_ci") = false ->
   v = "utf8mb4_bin"%string /\
   (ends_with (js k) (js "_cs") || ends_with (js k) (js "_bin")
    || ends_with (js k) (js "_cs_ks")) = true) /\
  (forall k' v', In (k', v') mysqlCollationMap -> test (re_collation k') (js v) = false).
Proof.
  intros Hin. pose proof collation_table_checked as H.
  rewrite forallb_forall in H. specialize (H _ Hin).
  apply andb_true_iff in H. destruct H as [Hc Hf].
  unfold entry_keeps_class in Hc. simpl fst in Hc. simpl snd in Hc.
  split; [|split].
  - intros E. rewrite E in Hc. now apply String.eqb_eq.
  - intros E. rewrite E in Hc. apply andb_true_iff in Hc. destruct Hc as [H1 H2].
    split; [now apply String.eqb_eq | exact H1].
  - intros k' v' Hin'. unfold entry_final in Hf. rewrite forallb_forall in Hf.
    specialize (Hf _ Hin'). simpl in Hf. now apply negb_true_iff.
Qed.

Lemma collation_table_keeps_case_sensitivity_witness :
  "utf8mb4_bin"%string = "utf8mb4_bin"%string /\
  (ends_with (js "utf8mb4_0900_as_cs") (js "_cs")
   || ends_with (js "utf8mb4_0900_as_cs") (js "_bin")
   || ends_with (js "utf8mb4_0900_as_cs") (js "_cs_ks")) = true.
Proof.
  apply (proj1 (proj2 (@collation_table_keeps_case_sensitivity
                         "utf8mb4_0900_as_cs" "utf8mb4_bin" ltac:(simpl; tauto)))).
  vm_compute. reflexivity.
Defined.

Lemma eqb_str_eq a b : eqb_str a b = true <-> a = b.
Proof.
  revert b. induction a as [|x a IH]; intros [|y b]; simpl; split; intros H;
    try discriminate; try reflexivity.
  - apply andb_true_iff in H. destruct H as [H1 H2].
    apply eqb_char_eq in H1. apply IH in H2. congruence.
  - inversion H; subst. rewrite eqb_char_refl. simpl. now apply IH.
Qed.

(** What the pattern of [int(n)] matches: the word [int] in any letter case,
    not preceded by a word character, and a display width between
    parentheses (the second group). *)
Lemma int_width_match mi :
  produced re_int_width mi ->
  exists a b kw ds,
    m_input mi = a ++ m_text mi ++ b /\ length a = m_offset mi /\
    m_text mi = kw ++ js "(" ++ ds ++ js ")" /\
    starts_with_by eqb_ci (js "int") kw = true /\ length kw = 3 /\
    forallb is_digit ds = true /\ ds <> [] /\
    ends_with_word a = false /\
    grp mi 2 = Some ds.
Proof.
  intros (s & before & after & y & Hs & He & ->).
  unfold exec_at in He. apply mtch_sound in He.
  destruct He as (y' & Hm & Hy). inversion Hy; subst y'; clear Hy.
  unfold re_int_width in Hm.
  inv_seq Hm H1 Hm. apply matches_wordb_at in H1. destruct H1 as [E1 X1]. subst.
  inv_seq Hm H2 Hm. inv_group H2 H2.
  apply (@matches_literal eqb_ci) in H2. apply eat_span in H2.
  destruct H2 as (kw & (A2 & B2 & C2) & Pk & Lk).
  inv_seq Hm H3 Hm. apply matches_chr in H3. destruct H3 as (c3 & (A3 & B3 & C3) & P3).
  inv_seq Hm H4 Hm. inv_group H4 H4. apply matches_plus_chr in H4.
  destruct H4 as (ds & (A4 & B4 & C4) & P4 & N4).
  apply matches_chr in Hm. destruct Hm as (c5 & (A5 & B5 & C5) & P5).
  apply eqb_char_eq in P3, P5. subst c3 c5.
  simpl in A2, A3, A4, A5, B2, C2, C3, C4, C5.
  assert (Hk : kw <> []) by (destruct kw; [simpl in Lk; discriminate | discriminate]).
  assert (Fk : forallb is_word kw = true)
    by (eapply ci_word_all; [exact Pk | exact Lk | reflexivity]).
  rewrite (@word_after_app (MState before after []) kw _ A2 Hk Fk) in X1.
  assert (Ha : after = (kw ++ js "(" ++ ds ++ js ")") ++ rest y).
  { rewrite A2, A3, A4, A5. simpl. rewrite <- ?app_assoc. simpl. rewrite <- ?app_assoc. reflexivity. }
  exists (rev before), (rest y), kw, ds. unfold info_of; simpl m_text; simpl m_input;
    simpl m_offset.
  assert (Hf : firstn (match_length after y) after = kw ++ js "(" ++ ds ++ js ")").
  { unfold match_length. rewrite Ha at 1 2. apply firstn_prefix. }
  rewrite Hf. repeat split; try assumption.
  - rewrite Ha at 1. reflexivity.
  - apply length_rev.
  - unfold ends_with_word. rewrite rev_involutive.
    unfold word_before in X1. simpl in X1.
    destruct before as [|c0 ?]; [reflexivity|]. now destruct (is_word c0).
  - unfold grp; simpl m_caps. rewrite C5. simpl. f_equal. apply consumed_span. exact A4.
Qed.

(** X9. The rule for [int(n)] simplifies [int(11)] and nothing else.  Every
    match is the type name [int] (any letter case) with a display width, and
    is not the end of a longer word such as [bigint] or [tinyint]; the
    callback writes [int] and records one issue (info, optimization, marked as
    fixed) when the width is [11], and for every other width hands the match
    back unchanged and records nothing. *)
Theorem int_width_only_eleven sqlContent mi st :
  produced re_int_width mi ->
  exists a b kw ds i,
    m_input mi = a ++ m_text mi ++ b /\ length a = m_offset mi /\
    m_text mi = kw ++ js "(" ++ ds ++ js ")" /\
    starts_with_by eqb_ci (js "int") kw = true /\ length kw = 3 /\
    forallb is_digit ds = true /\ ds <> [] /\
    ends_with_word a = false /\
    (ds = js "11" ->
     cb_int_width sqlContent mi st = Ok (js "int", addIssue i st)) /\
    (ds <> js "11" ->
     cb_int_width sqlContent mi st = Ok (m_text mi, st)) /\
    issueType i = info /\ category i = optimization /\ autoFixed i = true /\
    originalText i = Some (m_text mi) /\ convertedText i = Some (js "int").
Proof.
  intros Hp.
  destruct (int_width_match Hp) as (a & b & kw & ds & H1 & H2 & H3 & H4 & H5 & H6 & H7 & H8 & Hg).
  exists a, b, kw, ds. eexists.
  do 8 (split; [eassumption|]).
  unfold cb_int_width. cbv zeta. rewrite Hg.
  split; [|split].
  - intros ->. reflexivity.
  - intros Hn. destruct (eqb_str ds (js "11")) eqn:E; [|reflexivity].
    apply eqb_str_eq in E. contradiction.
  - repeat split.
Qed.

Lemma int_example_match_produced : produced re_int_width int_example_match.
Proof.
  exists (js "`id` int(11) NOT NULL"), (rev (js "`id` ")), (js "int(11) NOT NULL").
  eexists. split; [reflexivity|]. split; [vm_compute; reflexivity|].
  vm_compute. reflexivity.
Qed.

Lemma int_width_only_eleven_witness :
  exists a b kw ds i,
    m_input int_example_match = a ++ m_text int_example_match ++ b /\
    length a = m_offset int_example_match /\
    m_text int_example_match = kw ++ js "(" ++ ds ++ js ")" /\
    starts_with_by eqb_ci (js "int") kw = true /\ length kw = 3 /\
    forallb is_digit ds = true /\ ds <> [] /\
    ends_with_word a = false /\
    (ds = js "11" ->
     cb_int_width [] int_example_match init_state = Ok (js "int", addIssue i init_state)) /\
    (ds <> js "11" ->
     cb_int_width [] int_example_match init_state
     = Ok (m_text int_example_match, init_state)) /\
    issueType i = info /\ category i = optimization /\ autoFixed i = true /\
    originalText i = Some (m_text int_example_match) /\ convertedText i = Some (js "int").
Proof.
  apply (@int_width_only_eleven [] int_example_match init_state).
  exact int_example_match_produced.
Defined.

Lemma matches_groupless r x y :
  matches r x y -> groupless r = true -> caps y = caps x.
Proof.
  induction 1; simpl; intros G; try reflexivity; try discriminate;
    try (apply andb_true_iff in G; destruct G as [G1 G2]); auto.
  - rewrite IHmatches2, IHmatches1; auto.
  - rewrite IHmatches2, IHmatches1; auto.
Qed.

Lemma matches_span r x y :
  matches r x y -> groupless r = true -> exists w, span x w y.
Proof.
  intros Hm G. destruct (matches_extends Hm) as (w & A & B).
  exists w. repeat split; try assumption. eapply matches_groupless; eassumption.
Qed.

Lemma arrow_match x y :
  matches (lit "->" ;; Opt (ch ">"))%re x y ->
  exists op, span x op y /\ (op = js "->" \/ op = js "->>").
Proof.
  intros H3. inv_seq H3 Ha Hb. apply (@matches_literal eqb_char) in Ha.
  apply eat_span in Ha. destruct Ha as (w & Sw & Pw & Lw).
  apply starts_with_by_eqb_len in Pw; [|exact Lw]. subst w.
  inversion Hb; subst.
  - exists (js "->"). split; [exact Sw | left; reflexivity].
  - match goal with H : matches (ch _) _ _ |- _ => apply matches_chr in H;
      destruct H as (c & Sc & Pc) end.
    apply eqb_char_eq in Pc. subst c.
    exists (js "->" ++ js ">"). split; [eapply span_trans; eassumption | right; reflexivity].
Qed.

(** What the pattern of JSON path operators matches: a column reference
    (the first group), the operator [->] or [->>] (the second group) and a
    path (the third group), with optional white space around the operator. *)
Lemma json_operator_match mi :
  produced re_json_operator mi ->
  exists col ws1 op ws2 path,
    m_text mi = col ++ ws1 ++ op ++ ws2 ++ path /\
    col <> [] /\ forallb is_space ws1 = true /\ forallb is_space ws2 = true /\
    (op = js "->" \/ op = js "->>") /\
    grp mi 1 = Some col /\ grp mi 2 = Some op /\ grp mi 3 = Some path.
Proof.
  intros (s & before & after & y & Hs & He & ->).
  unfold exec_at in He. apply mtch_sound in He.
  destruct He as (y' & Hm & Hy). inversion Hy; subst y'; clear Hy.
  unfold re_json_operator in Hm.
  inv_seq Hm H1 Hm. inv_group H1 H1. apply matches_plus_chr in H1.
  destruct H1 as (col & (A1 & B1 & C1) & P1 & N1).
  inv_seq Hm H2 Hm. apply matches_star_chr in H2. destruct H2 as (ws1 & (A2 & B2 & C2) & P2).
  inv_seq Hm H3 Hm. inv_group H3 H3. apply arrow_match in H3.
  destruct H3 as (op & (A3 & B3 & C3) & Hop).
  inv_seq Hm H4 Hm. apply matches_star_chr in H4. destruct H4 as (ws2 & (A4 & B4 & C4) & P4).
  inv_group Hm H5. apply matches_span in H5; [|reflexivity].
  destruct H5 as (path & (A5 & B5 & C5)).
  simpl in A1, A2, A3, A4, A5, C1, C2, C3, C4, C5.
  exists col, ws1, op, ws2, path.
  match type of A5 with
  | _ = _ ++ rest ?z =>
      assert (Ha : after = (col ++ ws1 ++ op ++ ws2 ++ path) ++ rest z)
        by (rewrite A1, A2, A3, A4, A5; rewrite <- !app_assoc; reflexivity)
  end.
  unfold info_of, match_length; simpl m_text; simpl rest.
  rewrite Ha at 1 2. rewrite firstn_prefix.
  repeat split; try assumption.
  - unfold grp; simpl m_caps. simpl. rewrite C5, C4. simpl. rewrite C3, C2. simpl.
    f_equal. apply consumed_span. exact A1.
  - unfold grp; simpl m_caps. simpl. rewrite C5, C4. simpl.
    f_equal. apply consumed_span. exact A3.
  - unfold grp; simpl m_caps. simpl. f_equal. apply consumed_span. exact A5.
Qed.

(** X10. The rule for JSON path operators always rewrites.  Every match is
    a column reference, the operator [->] or [->>] and a path; the callback
    writes [JSON_EXTRACT(column, path)] for [->] and
    [JSON_UNQUOTE(JSON_EXTRACT(column, path))] for [->>], and records one
    issue (warning, compatibility, marked as fixed) holding the match and its
    replacement.  The fallback of the source, which would hand the match back
    for another operator, is never taken. *)
Theorem json_operator_converted sqlContent mi st :
  produced re_json_operator mi ->
  exists col ws1 op ws2 path i,
    m_text mi = col ++ ws1 ++ op ++ ws2 ++ path /\
    col <> [] /\ forallb is_space ws1 = true /\ forallb is_space ws2 = true /\
    let replacement :=
      if eqb_str op (js "->")
      then js "JSON_EXTRACT(" ++ col ++ js ", " ++ path ++ js ")"
      else js "JSON_UNQUOTE(JSON_EXTRACT(" ++ col ++ js ", " ++ path ++ js "))" in
    (op = js "->" \/ op = js "->>") /\
    cb_json_operator sqlContent mi st = Ok (replacement, addIssue i st) /\
    issueType i = warning /\ category i = compatibility /\ autoFixed i = true /\
    originalText i = Some (m_text mi) /\ convertedText i = Some replacement.
Proof.
  intros Hp.
  destruct (json_operator_match Hp)
    as (col & ws1 & op & ws2 & path & Ht & Nc & P1 & P2 & Hop & G1 & G2 & G3).
  exists col, ws1, op, ws2, path.
  unfold cb_json_operator. cbv zeta. rewrite G1, G2, G3. simpl interp.
  destruct Hop as [-> | ->]; simpl eqb_str; cbv iota;
    eexists; (do 4 (split; [eassumption|])); (split; [auto|]);
    (split; [reflexivity|]); repeat split.
Qed.

Lemma json_example_match_produced : produced re_json_operator json_example_match.
Proof.
  exists (js "SELECT doc->>'$.a' FROM t"), (rev (js "SELECT ")), (js "doc->>'$.a' FROM t").
  eexists. split; [reflexivity|]. split; [vm_compute; reflexivity|].
  vm_compute. reflexivity.
Qed.

Lemma json_operator_converted_witness :
  exists col ws1 op ws2 path i,
    m_text json_example_match = col ++ ws1 ++ op ++ ws2 ++ path /\
    col <> [] /\ forallb is_space ws1 = true /\ forallb is_space ws2 = true /\
    let replacement :=
      if eqb_str op (js "->")
      then js "JSON_EXTRACT(" ++ col ++ js ", " ++ path ++ js ")"
      else js "JSON_UNQUOTE(JSON_EXTRACT(" ++ col ++ js ", " ++ path ++ js "))" in
    (op = js "->" \/ op = js "->>") /\
    cb_json_operator [] json_example_match init_state
    = Ok (replacement, addIssue i init_state) /\
    issueType i = warning /\ category i = compatibility /\ autoFixed i = true /\
    originalText i = Some (m_text json_example_match) /\
    convertedText i = Some replacement.
Proof.
  apply (@json_operator_converted [] json_example_match init_state).
  exact json_example_match_produced.
Defined.

Lemma upgrade_skips r t before c after :
  not_u c = true ->
  replace_first_from (lit "utf8" ;; r)%re t before (c :: after)
  = c :: replace_first_from (lit "utf8" ;; r)%re t (c :: before) after.
Proof.
  unfold not_u. intros H. apply negb_true_iff in H.
  cbn [replace_first_from]. unfold exec_at. simpl. rewrite H. reflexivity.
Qed.

Lemma upgrade_prefix p : forall before u,
  forallb not_u p = true ->
  replace_first_from (lit "utf8" ;; WordB)%re (js "utf8mb4") before (p ++ u)
  = p ++ replace_first_from (lit "utf8" ;; WordB)%re (js "utf8mb4") (rev p ++ before) u.
Proof.
  induction p as [|c p IH]; intros before u H; [reflexivity|].
  simpl in H. apply andb_true_iff in H. destruct H as [H1 H2].
  simpl app. rewrite upgrade_skips by exact H1. rewrite IH by exact H2.
  rewrite <- app_assoc. reflexivity.
Qed.

Lemma ci_u c : eqb_ci "u" c = true -> c = "u"%char \/ c = "U"%char.
Proof.
  destruct c as [[] [] [] [] [] [] [] []]; intros H;
    first [discriminate H | left; reflexivity | right; reflexivity].
Qed.

Lemma ci_t c : eqb_ci "t" c = true -> c = "t"%char \/ c = "T"%char.
Proof.
  destruct c as [[] [] [] [] [] [] [] []]; intros H;
    first [discriminate H | left; reflexivity | right; reflexivity].
Qed.

Lemma ci_f c : eqb_ci "f" c = true -> c = "f"%char \/ c = "F"%char.
Proof.
  destruct c as [[] [] [] [] [] [] [] []]; intros H;
    first [discriminate H | left; reflexivity | right; reflexivity].
Qed.

Lemma ci_8 c : eqb_ci "8" c = true -> c = "8"%char.
Proof.
  destruct c as [[] [] [] [] [] [] [] []]; intros H;
    first [discriminate H | reflexivity].
Qed.

(** On the charset name itself, at the end of the match: only the lower-case
    spelling is rewritten. *)
Lemma upgrade_name before u :
  starts_with_by eqb_ci (js "utf8") u = true -> length u = 4 ->
  replace_first_from (lit "utf8" ;; WordB)%re (js "utf8mb4") before u
  = if eqb_str u (js "utf8") then js "utf8mb4" else u.
Proof.
  intros H L.
  destruct u as [|c1 [|c2 [|c3 [|c4 [|? ?]]]]]; try discriminate L.
  simpl in H.
  repeat match type of H with
         | _ && _ = true => let H1 := fresh "K" in
                            apply andb_true_iff in H; destruct H as [H1 H]
         end.
  apply ci_u in K. apply ci_t in K0. apply ci_f in K1. apply ci_8 in K2. subst c4.
  destruct K as [-> | ->], K0 as [-> | ->], K1 as [-> | ->]; vm_compute; reflexivity.
Qed.

Lemma not_u_of_ci (k : jsstring) w :
  forallb (fun c => negb (eqb_ci c "u")) k = true ->
  starts_with_by eqb_ci k w = true -> length w = length k ->
  forallb not_u w = true.
Proof.
  revert w. induction k as [|c k IH]; intros [|d w]; simpl; try discriminate; auto.
  intros F H L. apply andb_true_iff in F. destruct F as [F1 F2].
  apply andb_true_iff in H. destruct H as [H1 H2].
  rewrite IH by (auto; lia). rewrite andb_true_r.
  unfold not_u. apply negb_true_iff. destruct (eqb_char "u" d) eqn:E; [|reflexivity].
  apply eqb_char_eq in E. subst d. rewrite H1 in F1. discriminate.
Qed.

Lemma not_u_of_space w : forallb is_space w = true -> forallb not_u w = true.
Proof.
  induction w as [|c w IH]; simpl; [reflexivity|]. intros H.
  apply andb_true_iff in H. destruct H as [H1 H2]. rewrite IH by exact H2.
  rewrite andb_true_r. unfold not_u. apply negb_true_iff.
  destruct (eqb_char "u" c) eqn:E; [|reflexivity].
  apply eqb_char_eq in E. subst c. discriminate.
Qed.

Lemma opt_chr_match c x y :
  matches (Opt (ch c)) x y -> exists w, (w = [] \/ w = [c]) /\ span x w y.
Proof.
  intros H. inversion H; subst.
  - exists []. split; [left; reflexivity | repeat split].
  - match goal with H : matches (ch _) _ _ |- _ => apply matches_chr in H;
      destruct H as (d & Sd & Pd) end.
    apply eqb_char_eq in Pd. subst d. exists [c]. split; [right; reflexivity | exact Sd].
Qed.

(** What the pattern of the [CHARSET] rule matches: the word [CHARSET], an
    optional equals sign with optional white space around it, and the name
    [utf8], all in any letter case. *)
Lemma charset_utf8_match mi :
  produced re_charset_utf8 mi ->
  exists kw ws1 eq ws2 u,
    m_text mi = (kw ++ ws1 ++ eq ++ ws2) ++ u /\
    starts_with_by eqb_ci (js "CHARSET") kw = true /\ length kw = 7 /\
    forallb is_space ws1 = true /\ (eq = [] \/ eq = js "=") /\
    forallb is_space ws2 = true /\
    starts_with_by eqb_ci (js "utf8") u = true /\ length u = 4.
Proof.
  intros (s & before & after & y & Hs & He & ->).
  unfold exec_at in He. apply mtch_sound in He.
  destruct He as (y' & Hm & Hy). inversion Hy; subst y'; clear Hy.
  unfold re_charset_utf8 in Hm.
  inv_seq Hm H0 Hm. apply matches_wordb in H0. subst.
  inv_seq Hm H1 Hm. apply (@matches_literal eqb_ci) in H1. apply eat_span in H1.
  destruct H1 as (kw & (A1 & B1 & C1) & P1 & L1).
  inv_seq Hm H2 Hm. apply matches_star_chr in H2. destruct H2 as (ws1 & (A2 & B2 & C2) & P2).
  inv_seq Hm H3 Hm.
  apply opt_chr_match in H3. destruct H3 as (eq & Heq & (A3 & B3 & C3)).
  inv_seq Hm H4 Hm. apply matches_star_chr in H4. destruct H4 as (ws2 & (A4 & B4 & C4) & P4).
  inv_seq Hm H5 Hm. apply (@matches_literal eqb_ci) in H5. apply eat_span in H5.
  destruct H5 as (u & (A5 & B5 & C5) & P5 & L5).
  inv_seq Hm H6 Hm. apply matches_wordb in H6. subst.
  inversion Hm; subst.
  simpl in A1, A2, A3, A4, A5.
  exists kw, ws1, eq, ws2, u.
  assert (Ha : after = ((kw ++ ws1 ++ eq ++ ws2) ++ u) ++ rest y).
  { rewrite A1, A2, A3, A4, A5. rewrite <- !app_assoc. reflexivity. }
  unfold info_of, match_length; simpl m_text.
  rewrite Ha at 1 2. rewrite firstn_prefix.
  repeat split; assumption.
Qed.

(** X11. The [CHARSET] rule upgrades the lower-case spelling only.  Every
    match is the word [CHARSET], an optional equals sign and the name [utf8]
    in any letter case.  The replacement is the match with [utf8] turned into
    [utf8mb4] when the name is written [utf8] in lower case; for any other
    spelling of the name ([UTF8], [Utf8], ...) the replacement is the match
    itself.  In both cases the callback records one issue (warning,
    compatibility) marked as fixed. *)
Theorem charset_utf8_lower_case_only sqlContent mi st :
  produced re_charset_utf8 mi ->
  exists p u i,
    m_text mi = p ++ u /\
    starts_with_by eqb_ci (js "utf8") u = true /\ length u = 4 /\
    let replacement := p ++ (if eqb_str u (js "utf8") then js "utf8mb4" else u) in
    cb_charset_utf8 sqlContent mi st = Ok (replacement, addIssue i st) /\
    issueType i = warning /\ category i = compatibility /\ autoFixed i = true /\
    originalText i = Some (m_text mi) /\ convertedText i = Some replacement.
Proof.
  intros Hp.
  destruct (charset_utf8_match Hp)
    as (kw & ws1 & eq & ws2 & u & Ht & Pk & Lk & P1 & Heq & P2 & Pu & Lu).
  assert (Hr : replace_first (lit "utf8" ;; WordB)%re (js "utf8mb4") (m_text mi)
               = (kw ++ ws1 ++ eq ++ ws2)
                 ++ (if eqb_str u (js "utf8") then js "utf8mb4" else u)).
  { rewrite Ht. unfold replace_first. rewrite upgrade_prefix.
    - f_equal. apply upgrade_name; assumption.
    - rewrite !forallb_app.
      rewrite (@not_u_of_ci (js "CHARSET") kw) by (auto; vm_compute; reflexivity).
      rewrite (not_u_of_space ws1 P1), (not_u_of_space ws2 P2).
      destruct Heq as [-> | ->]; reflexivity. }
  exists (kw ++ ws1 ++ eq ++ ws2), u. eexists.
  do 3 (split; [eassumption|]). cbv zeta.
  unfold cb_charset_utf8. cbv zeta. rewrite Hr.
  split; [rewrite push_warning_fixed_addIssue by reflexivity; reflexivity|].
  repeat split.
Qed.

Lemma charset_example_match_produced : produced re_charset_utf8 charset_example_match.
Proof.
  exists (js "DEFAULT CHARSET=UTF8;"), (rev (js "DEFAULT ")), (js "CHARSET=UTF8;").
  eexists. split; [reflexivity|]. split; [vm_compute; reflexivity|].
  vm_compute. reflexivity.
Qed.

Lemma charset_utf8_lower_case_only_witness :
  exists p u i,
    m_text charset_example_match = p ++ u /\
    starts_with_by eqb_ci (js "utf8") u = true /\ length u = 4 /\
    let replacement := p ++ (if eqb_str u (js "utf8") then js "utf8mb4" else u) in
    cb_charset_utf8 [] charset_example_match init_state
    = Ok (replacement, addIssue i init_state) /\
    issueType i = warning /\ category i = compatibility /\ autoFixed i = true /\
    originalText i = Some (m_text charset_example_match) /\
    convertedText i = Some replacement.
Proof.
  apply (@charset_utf8_lower_case_only [] charset_example_match init_state).
  exact charset_example_match_produced.
Defined.

Lemma includes_app_r s t p : includes t p = true -> includes (s ++ t) p = true.
Proof.
  intros H. induction s as [|c s IH]; [exact H|].
  simpl. rewrite IH. apply orb_true_r.
Qed.

(** X12. Whatever the input, the result holds the text [SET NAMES utf8mb4]
    and, in some letter case, the text [commit]: each is either already in
    the text the rules leave, or put there by the last two steps. *)
Theorem result_declares_utf8mb4_and_commit (s : jsstring) :
  exists r,
    convertMySQLToMariaDB s = Ok r /\
    includes (convertedSQL r) (js "SET NAMES utf8mb4") = true /\
    includes (toLowerCase (convertedSQL r)) (js "commit") = true.
Proof.
  destruct (convert_assembled s) as (r & Hr & E). exists r. split; [exact Hr|].
  rewrite E. unfold assembled.
  assert (Hh : includes (with_header s) (js "SET NAMES utf8mb4") = true).
  { unfold with_header. destruct (header_prepended s) eqn:Eh.
    - apply includes_app. reflexivity.
    - unfold header_prepended in Eh. apply negb_false_iff in Eh. exact Eh. }
  split.
  - apply includes_app. exact Hh.
  - rewrite toLowerCase_app. destruct (commit_appended s) eqn:Ec.
    + apply includes_app_r. reflexivity.
    + apply includes_app. unfold commit_appended in Ec.
      apply negb_false_iff in Ec. exact Ec.
Qed.

Lemma for_each_line_scan f (p : jsstring -> bool) (mk : nat * jsstring -> ConversionIssue) :
  (forall index line st,
      f index line st = if p line then addIssue (mk (index, line)) st else st) ->
  forall lines index st,
    issues (for_each_line f index lines st)
    = issues st ++ map mk (filter (fun il => p (snd il)) (numbered index lines)).
Proof.
  intros Hf lines. induction lines as [|l ls IH]; intros index st; simpl.
  - now rewrite app_nil_r.
  - rewrite IH, Hf. destruct (p l); simpl.
    + rewrite issues_addIssue, <- app_assoc. reflexivity.
    + reflexivity.
Qed.

(** X13. The two scans report on the lines of the original input, not on
    the working text.  The scan for generated columns adds one warning for
    each line of the input on which the pattern [AS (...) VIRTUAL|STORED] is
    found and which is not a [--] comment line; the scan for JSON adds one
    warning for each line that holds [json] in any letter case, wherever on
    the line, and is not a [--] comment line.  The warnings come in the order
    of the lines, each with the number of its line and the trimmed line as
    original text, and are not marked as fixed; the working text is left as
    it is. *)
Theorem line_scans_report_each_line (sqlContent text : jsstring) (st : estate) :
  (exists st',
      run_rule sqlContent (PerLine line_generated) text st = Ok (text, st') /\
      issues st' = issues st ++
        map generated_issue
            (filter (fun il => generated_line (snd il))
                    (numbered 0 (split_lines sqlContent)))) /\
  (exists st',
      run_rule sqlContent (PerLine line_json) text st = Ok (text, st') /\
      issues st' = issues st ++
        map json_issue
            (filter (fun il => json_line (snd il))
                    (numbered 0 (split_lines sqlContent)))).
Proof.
  split; eexists; (split; [reflexivity|]); apply for_each_line_scan; intros; reflexivity.
Qed.

Lemma at_bol_of before after cs :
  at_bol true (MState before after cs) = bol_of before.
Proof. unfold at_bol, bol_of. simpl. now destruct before. Qed.

Lemma not_space_not_nl c : is_space c = false -> eqb_char nl c = false.
Proof.
  intros H. destruct (eqb_char nl c) eqn:E; [|reflexivity].
  apply eqb_char_eq in E. subst c. discriminate.
Qed.

Lemma star_blank n : forall x,
  length (rest x) <= n ->
  is_some (star_loop (mtch ws) true (fun y => mtch (ch nl) y (fun z => Some z)) n x)
  = ws_nl (rest x).
Proof.
  induction n as [|n IH]; intros x Hn.
  - destruct (rest x) eqn:E; [|simpl in Hn; lia]. simpl. rewrite E. reflexivity.
  - cbn [star_loop]. cbv zeta. unfold ws at 1. cbn [mtch].
    destruct (rest x) as [|c t] eqn:E; [unfold ch; cbn [mtch]; rewrite E; reflexivity|].
    cbn [ws_nl]. destruct (is_space c) eqn:Es.
    + assert (Hm : moved x (advance x c t) = true).
      { unfold moved. rewrite E. simpl. apply Nat.ltb_lt. lia. }
      rewrite Hm. specialize (IH (advance x c t)). simpl rest in IH.
      simpl in Hn.
      destruct (star_loop _ true _ n (advance x c t)) eqn:Es1.
      * simpl. rewrite <- IH by lia. reflexivity.
      * rewrite <- IH by lia. simpl. unfold ch. cbn [mtch]. rewrite E.
        now destruct (eqb_char nl c).
    + simpl. unfold ch. cbn [mtch]. rewrite E. rewrite (not_space_not_nl c Es). reflexivity.
Qed.

Lemma exec_blank before after :
  is_some (exec_at re_blank_line before after) = bol_of before && ws_nl after.
Proof.
  unfold exec_at, re_blank_line. cbn [mtch]. rewrite at_bol_of.
  destruct (bol_of before); [|reflexivity]. simpl andb.
  unfold sp0, star. cbn [mtch]. simpl rest.
  apply (star_blank (n := length after) (MState before after [])). simpl. lia.
Qed.

Lemma test_blank s : forall before,
  test_from re_blank_line before s = has_blank (bol_of before) s.
Proof.
  induction s as [|c t IH]; intros before; cbn [test_from has_blank];
    rewrite <- exec_blank; destruct (exec_at re_blank_line before _); simpl; auto.
Qed.

(** A match of the pattern for blank lines begins a line and ends with a
    line break. *)
Lemma exec_blank_some before after y :
  exec_at re_blank_line before after = Some y ->
  bol_of before = true /\
  exists w, after = w ++ nl :: rest y /\ pre y = nl :: rev w ++ before.
Proof.
  intros He. pose proof (exec_blank before after) as Hb. rewrite He in Hb. simpl in Hb.
  symmetry in Hb. apply andb_true_iff in Hb. split; [apply Hb|].
  unfold exec_at in He. apply mtch_sound in He.
  destruct He as (y' & Hm & Hy). inversion Hy; subst y'; clear Hy.
  unfold re_blank_line in Hm.
  inv_seq Hm Hbol Hm. inversion Hbol; subst. clear Hbol.
  inv_seq Hm Hstar Hm. apply matches_star_chr in Hstar.
  destruct Hstar as (w & (A1 & B1 & C1) & P1).
  apply matches_chr in Hm. destruct Hm as (c & (A2 & B2 & C2) & P2).
  apply eqb_char_eq in P2. subst c. simpl in A1, A2, B1, B2.
  exists w. split.
  - rewrite A1, A2. reflexivity.
  - rewrite B2, B1. reflexivity.
Qed.

Lemma replace_from_skip St r (cb : callback St) w : forall before after st,
  replace_from r cb before (w ++ after) (length w) st
  = replace_from r cb (rev w ++ before) after 0 st.
Proof.
  induction w as [|c w IH]; intros before after st; [reflexivity|].
  simpl app. simpl length. cbn [replace_from]. rewrite IH.
  simpl rev. rewrite <- app_assoc. reflexivity.
Qed.

Lemma blank_pass_ws after : forall before st out st',
  ws_nl after = false ->
  replace_from re_blank_line cb_blank_line before after 0 st = Ok (out, st') ->
  ws_nl out = false.
Proof.
  induction after as [|c t IH]; intros before st out st' Hw Hr.
  - cbn [replace_from] in Hr.
    pose proof (exec_blank before []) as Hb. simpl ws_nl in Hb. rewrite andb_false_r in Hb.
    destruct (exec_at re_blank_line before []); [discriminate|].
    inversion Hr. reflexivity.
  - cbn [replace_from] in Hr.
    pose proof (exec_blank before (c :: t)) as Hb. rewrite Hw, andb_false_r in Hb.
    destruct (exec_at re_blank_line before (c :: t)); [discriminate|].
    destruct (replace_from re_blank_line cb_blank_line (c :: before) t 0 st)
      as [[o s1]|] eqn:Hr1; [|discriminate].
    simpl in Hr. inversion Hr; subst. cbn [ws_nl] in Hw |- *.
    destruct (is_space c); [|reflexivity]. simpl in Hw |- *.
    apply orb_false_iff in Hw. destruct Hw as [Hw1 Hw2]. rewrite Hw2, orb_false_r.
    eapply IH; eassumption.
Qed.

Lemma blank_pass n : forall after before st out st',
  length after <= n ->
  replace_from re_blank_line cb_blank_line before after 0 st = Ok (out, st') ->
  st' = st /\ has_blank (bol_of before) out = false.
Proof.
  induction n as [|n IH]; intros after before st out st' Hn Hr.
  - destruct after; [|simpl in Hn; lia]. cbn [replace_from] in Hr.
    pose proof (exec_blank before []) as Hb. simpl ws_nl in Hb. rewrite andb_false_r in Hb.
    destruct (exec_at re_blank_line before []); [discriminate|].
    inversion Hr; subst. split; [reflexivity|]. simpl. now rewrite andb_false_r.
  - destruct after as [|c t].
    + cbn [replace_from] in Hr.
      pose proof (exec_blank before []) as Hb. simpl ws_nl in Hb. rewrite andb_false_r in Hb.
      destruct (exec_at re_blank_line before []); [discriminate|].
      inversion Hr; subst. split; [reflexivity|]. simpl. now rewrite andb_false_r.
    + simpl in Hn. cbn [replace_from] in Hr.
      pose proof (exec_blank before (c :: t)) as Hb.
      destruct (exec_at re_blank_line before (c :: t)) as [y|] eqn:He.
      * destruct (exec_blank_some _ _ He) as (Hbol & w & Ha & Hp).
        change (cb_blank_line (info_of before (c :: t) y) st)
          with (@Ok (jsstring * estate) ([], st)) in Hr.
        cbn [bind] in Hr.
        assert (Hl : match_length (c :: t) y = S (length w)).
        { unfold match_length. rewrite Ha, !length_app. simpl. lia. }
        rewrite Hl in Hr.
        assert (Ht : exists m, t = m ++ rest y /\ length m = length w /\
                               bol_of (rev m ++ c :: before) = true).
        { destruct w as [|d w].
          - simpl in Ha. inversion Ha; subst. exists []. repeat split.
          - simpl in Ha. inversion Ha; subst. exists (w ++ [nl]). repeat split.
            + now rewrite <- app_assoc.
            + rewrite length_app. simpl. lia.
            + rewrite rev_app_distr. reflexivity. }
        destruct Ht as (m & -> & Hlm & Hbm). rewrite <- Hlm in Hr.
        rewrite replace_from_skip in Hr.
        destruct (replace_from re_blank_line cb_blank_line (rev m ++ c :: before)
                               (rest y) 0 st) as [[o s1]|] eqn:Hr1;
          [|simpl in Hr; discriminate].
        simpl in Hr. inversion Hr; subst.
        apply IH in Hr1; [|rewrite length_app in Hn; lia].
        rewrite Hbm in Hr1. rewrite Hbol. exact Hr1.
      * simpl in Hb. symmetry in Hb.
        destruct (replace_from re_blank_line cb_blank_line (c :: before) t 0 st)
          as [[o s1]|] eqn:Hr1; [|discriminate].
        simpl in Hr. inversion Hr; subst.
        pose proof Hr1 as Hr2. apply IH in Hr1; [|lia]. destruct Hr1 as [-> Hh].
        split; [reflexivity|]. cbn [has_blank].
        simpl bol_of in Hh. rewrite Hh.
        destruct (bol_of before); [|reflexivity]. simpl in Hb |- *.
        cbn [ws_nl] in Hb |- *.
        destruct (is_space c); [|reflexivity]. simpl in Hb |- *.
        apply orb_false_iff in Hb. destruct Hb as [Hb1 Hb2]. rewrite Hb2, orb_false_r.
        now rewrite (blank_pass_ws _ _ _ Hb1 Hr2).
Qed.

Lemma test_from_false_exec r : forall a1 a2 b,
  test_from r b (a1 ++ a2) = false -> exec_at r (rev a1 ++ b) a2 = None.
Proof.
  induction a1 as [|c a1 IH]; intros a2 b H.
  - simpl in *. destruct a2; simpl in H; destruct (exec_at r b _); congruence.
  - simpl app in H. cbn [test_from] in H.
    destruct (exec_at r b (c :: a1 ++ a2)); [discriminate|].
    simpl rev. rewrite <- app_assoc. apply IH. exact H.
Qed.

(** Where the pattern is found nowhere, [replace] changes nothing. *)
Lemma replace_without_match r (cb : callback estate) text st :
  test r text = false -> replace r cb text st = Ok (text, st).
Proof.
  intros H. apply replace_noop. intros mi s (before & after & y & Hs & He & _).
  exfalso. unfold test in H. rewrite Hs in H.
  rewrite <- (rev_involutive before) in He.
  rewrite <- (app_nil_r (rev (rev before))) in He.
  rewrite (test_from_false_exec r (rev before) after [] H) in He. discriminate.
Qed.

Lemma rules_last s :
  rules s = removelast (rules s) ++ [Rewrite re_blank_line cb_blank_line].
Proof. reflexivity. Qed.

(** X14. The pass that removes blank lines is thorough, and it is the last
    rule.  On every working text the pass returns a text in which the pattern
    for blank lines (a line break, or white space and a line break, at the
    beginning of a line) is found nowhere, it leaves the accumulators alone,
    and applied to its own result it changes nothing.  So the text that the
    rules of the engine leave, to which only the header and [COMMIT;] are
    then added, never holds a blank line. *)
Theorem no_blank_line_after_rules :
  (forall text st,
      exists out,
        replace re_blank_line cb_blank_line text st = Ok (out, st) /\
        test re_blank_line out = false /\
        replace re_blank_line cb_blank_line out st = Ok (out, st)) /\
  (forall s, test re_blank_line (after_rules s) = false).
Proof.
  assert (Hpass : forall text st,
             exists out,
               replace re_blank_line cb_blank_line text st = Ok (out, st) /\
               test re_blank_line out = false).
  { intros text st.
    destruct (@replace_ok estate (@eq estate) (@eq_refl _) (@eq_trans _)
                re_blank_line cb_blank_line text) with (st := st)
      as (out & st' & Hr & He).
    { intros mi s _. exists [], s. split; reflexivity. }
    subst st'. exists out. split; [exact Hr|].
    unfold replace in Hr. apply (@blank_pass (length text)) in Hr; [|lia].
    unfold test. rewrite test_blank. apply Hr. }
  split.
  - intros text st. destruct (Hpass text st) as (out & Hr & Ht).
    exists out. split; [exact Hr|]. split; [exact Ht|].
    apply replace_without_match. exact Ht.
  - intros s. destruct (after_rules_spec s) as (st & Hrun).
    rewrite rules_last, run_rules_app in Hrun.
    destruct (run_rules s (removelast (rules s)) s init_state) as [[t1 s1]|];
      [|discriminate].
    cbn [bind fst snd run_rules run_rule] in Hrun.
    destruct (Hpass t1 s1) as (out & Hr & Ht). rewrite Hr in Hrun.
    cbn [bind] in Hrun. inversion Hrun. congruence.
Qed.

Lemma eqb_str_refl a : eqb_str a a = true.
Proof. now apply eqb_str_eq. Qed.

Lemma eqb_str_neq a b : a <> b -> eqb_str a b = false.
Proof.
  intros H. destruct (eqb_str a b) eqn:E; [|reflexivity].
  apply eqb_str_eq in E. contradiction.
Qed.

Lemma get_set_same (V : Type) k (v : V) m : Storage.get k (Storage.set k v m) = Some v.
Proof.
  induction m as [|[k' v'] m IH]; simpl.
  - now rewrite eqb_str_refl.
  - destruct (eqb_str k' k) eqn:E; simpl; rewrite E; [reflexivity | exact IH].
Qed.

Lemma get_set_other (V : Type) k j (v : V) m :
  j <> k -> Storage.get j (Storage.set k v m) = Storage.get j m.
Proof.
  intros H. induction m as [|[k' v'] m IH]; simpl.
  - rewrite eqb_str_neq by congruence. reflexivity.
  - destruct (eqb_str k' k) eqn:E; simpl.
    + apply eqb_str_eq in E. subst k'. now rewrite !eqb_str_neq by congruence.
    + destruct (eqb_str k' j); [reflexivity | exact IH].
Qed.

(** X15. Storing an issue and reading the issues of a job.  After
    [createConversionIssue] the issues of the job of the new issue are the
    ones it had, in their order, followed by the new one; the issues of every
    other job, the jobs, the statistics and the users are as before.  The new
    issue carries the given identifier and [autoFixed = false] when the field
    was absent.  A job without stored issues has the empty list. *)
Theorem stored_issue_is_appended id ins s :
  let issue := fst (Storage.createConversionIssue id ins s) in
  let s' := snd (Storage.createConversionIssue id ins s) in
  Storage.getConversionIssues (Storage.new_jobId ins) s'
  = Storage.getConversionIssues (Storage.new_jobId ins) s ++ [issue] /\
  (forall j, j <> Storage.new_jobId ins ->
             Storage.getConversionIssues j s' = Storage.getConversionIssues j s) /\
  Storage.issue_id issue = id /\
  Storage.issue_jobId issue = Storage.new_jobId ins /\
  Storage.issue_autoFixed issue = Storage.nullish (Storage.new_autoFixed ins) false /\
  Storage.conversionJobs s' = Storage.conversionJobs s /\
  Storage.conversionStats s' = Storage.conversionStats s /\
  Storage.users s' = Storage.users s /\
  (forall j, Storage.getConversionIssues j Storage.empty = []).
Proof.
  cbv zeta. unfold Storage.createConversionIssue, Storage.getConversionIssues. simpl.
  repeat split.
  - now rewrite get_set_same.
  - intros j Hj. now rewrite get_set_other.
Qed.

Lemma update_job_effect id updates s :
  (Storage.getConversionJob id s = None ->
   Storage.updateConversionJob id updates s = (None, s)) /\
  (forall job,
      Storage.getConversionJob id s = Some job ->
      let s' := snd (Storage.updateConversionJob id updates s) in
      fst (Storage.updateConversionJob id updates s) = Some (Storage.merge job updates) /\
      Storage.getConversionJob id s' = Some (Storage.merge job updates) /\
      (forall j, j <> id -> Storage.getConversionJob j s' = Storage.getConversionJob j s) /\
      Storage.conversionIssues s' = Storage.conversionIssues s /\
      Storage.conversionStats s' = Storage.conversionStats s /\
      Storage.users s' = Storage.users s).
Proof.
  unfold Storage.updateConversionJob, Storage.getConversionJob. split.
  - intros H. now rewrite H.
  - intros job H. rewrite H. simpl. repeat split.
    + apply get_set_same.
    + intros j Hj. now apply get_set_other.
Qed.



Lemma store_issues_spec jobId uuid l : forall n s,
  Storage.getConversionIssues jobId (Storage.store_issues jobId uuid n l s)
  = Storage.getConversionIssues jobId s ++ stored_as jobId uuid n l /\
  (forall j, j <> jobId ->
             Storage.getConversionIssues j (Storage.store_issues jobId uuid n l s)
             = Storage.getConversionIssues j s) /\
  Storage.conversionJobs (Storage.store_issues jobId uuid n l s)
  = Storage.conversionJobs s /\
  Storage.conversionStats (Storage.store_issues jobId uuid n l s)
  = Storage.conversionStats s /\
  Storage.users (Storage.store_issues jobId uuid n l s) = Storage.users s.
Proof.
  induction l as [|issue l IH]; intros n s.
  - simpl. rewrite app_nil_r. repeat split.
  - cbn [Storage.store_issues stored_as].
    destruct (IH (S n)
                 (snd (Storage.createConversionIssue
                         (uuid n) (Storage.insert_of jobId issue) s)))
      as (A & B & C & D & E).
    rewrite A, C, D, E. clear A C D E IH.
    destruct issue as [ln ty cat d ot ct fixed].
    unfold Storage.createConversionIssue, Storage.getConversionIssues in *.
    cbn in *. rewrite get_set_same. cbn. rewrite <- app_assoc.
    repeat split.
    intros j Hj. rewrite B by exact Hj. now rewrite get_set_other.
Qed.

Section Analyze.
Variable convert : jsstring -> result ConversionResult.
Variable uuid : nat -> jsstring.
Variables startTime endTime completed : Storage.Date.

Lemma analyze_completed_effect jobId s job r :
  Storage.getConversionJob jobId s = Some job ->
  convert (Storage.originalContent job) = Ok r ->
  fst (Storage.analyze convert uuid startTime endTime completed jobId s) = Storage.AnalyzeDone (js "completed") (res_stats r) /\
  Storage.getConversionJob jobId (snd (Storage.analyze convert uuid startTime endTime completed jobId s))
  = Some (Storage.mkJob (Storage.job_id job) (Storage.fileName job)
                        (Storage.fileSize job) (Storage.originalContent job)
                        (Some (convertedSQL r)) (js "completed")
                        (Storage.createdAt job) (Some completed)) /\
  Storage.getConversionIssues jobId (snd (Storage.analyze convert uuid startTime endTime completed jobId s))
  = Storage.getConversionIssues jobId s ++ stored_as jobId uuid 0 (res_issues r) /\
  Storage.getConversionStats jobId (snd (Storage.analyze convert uuid startTime endTime completed jobId s))
  = Some (Storage.mkStoredStats
            (uuid (length (res_issues r))) jobId
            (totalIssues (res_stats r)) (autoFixedCount (res_stats r))
            (warningsCount (res_stats r)) (errorsCount (res_stats r))
            (optimizationsCount (res_stats r))
            (Z.of_nat endTime - Z.of_nat startTime)) /\
  (forall j, j <> jobId ->
     Storage.getConversionJob j (snd (Storage.analyze convert uuid startTime endTime completed jobId s)) = Storage.getConversionJob j s /\
     Storage.getConversionIssues j (snd (Storage.analyze convert uuid startTime endTime completed jobId s))
     = Storage.getConversionIssues j s /\
     Storage.getConversionStats j (snd (Storage.analyze convert uuid startTime endTime completed jobId s))
     = Storage.getConversionStats j s).
Proof.
  intros Hjob Hr. unfold Storage.analyze. rewrite Hjob, Hr. cbv zeta.
  set (u1 := Storage.mkUpdates None None None None None (Some (js "analyzing"))
                               None None).
  destruct (update_job_effect jobId u1 s) as [_ U1].
  specialize (U1 job Hjob). cbv zeta in U1.
  destruct U1 as (_ & G1 & O1 & I1 & S1 & _).
  set (s1 := snd (Storage.updateConversionJob jobId u1 s)) in *.
  destruct (store_issues_spec jobId uuid (res_issues r) 0 s1) as (A & B & C & D & _).
  set (s2 := Storage.store_issues jobId uuid 0 (res_issues r) s1) in *.
  set (ins := Storage.mkInsertStats _ _ _ _ _ _ _).
  set (s3 := snd (Storage.createConversionStats (uuid (length (res_issues r))) ins s2)).
  assert (G3 : Storage.getConversionJob jobId s3 = Some (Storage.merge job u1)).
  { unfold Storage.getConversionJob in *. unfold s3. cbn. now rewrite C. }
  set (u4 := Storage.mkUpdates _ _ _ _ _ _ _ _).
  destruct (update_job_effect jobId u4 s3) as [_ U4].
  specialize (U4 _ G3). cbv zeta in U4.
  destruct U4 as (_ & G4 & O4 & I4 & S4 & _).
  set (s4 := snd (Storage.updateConversionJob jobId u4 s3)) in *.
  cbn [fst snd].
  assert (I3 : Storage.conversionIssues s3 = Storage.conversionIssues s2)
    by reflexivity.
  assert (Is : forall j, Storage.getConversionIssues j s1
                         = Storage.getConversionIssues j s).
  { intros j. unfold Storage.getConversionIssues. now rewrite I1. }
  repeat split.
  - rewrite G4. reflexivity.
  - unfold Storage.getConversionIssues in *. rewrite I4, I3, A. now rewrite <- Is.
  - unfold Storage.getConversionStats. rewrite S4. unfold s3. cbn.
    now rewrite get_set_same.
  - rewrite O4 by assumption. unfold Storage.getConversionJob in *.
    unfold s3. cbn. rewrite C. now apply O1.
  - unfold Storage.getConversionIssues in *. rewrite I4, I3.
    rewrite B by assumption. apply Is.
  - unfold Storage.getConversionStats. rewrite S4. unfold s3. cbn.
    rewrite get_set_other by assumption. now rewrite D, S1.
Qed.

End Analyze.

Lemma ext_char_spec c : ext_char c = true <-> c <> "/"%char /\ c <> "."%char.
Proof.
  unfold ext_char. cbn [existsb js list_ascii_of_string].
  rewrite orb_false_r, negb_true_iff, orb_false_iff. split.
  - intros [A B]. split; intros ->; now rewrite eqb_char_refl in *.
  - intros [A B]. split.
    + destruct (eqb_char c "/") eqn:E; [apply eqb_char_eq in E; contradiction | reflexivity].
    + destruct (eqb_char c ".") eqn:E; [apply eqb_char_eq in E; contradiction | reflexivity].
Qed.

Lemma ext_chars_spec w :
  forallb ext_char w = true <-> ~ In "/"%char w /\ ~ In "."%char w.
Proof.
  induction w as [|c w IH]; simpl.
  - tauto.
  - rewrite andb_true_iff, IH, ext_char_spec. intuition congruence.
Qed.

(** The greedy loop of [[^/.]+$]: it succeeds exactly on a rest made of
    extension characters, and ends at the end of the input. *)
Lemma star_loop_greedy_S ma k n x :
  star_loop ma true k (S n) x
  = match ma x (fun y => if moved x y then star_loop ma true k n y else None) with
    | Some z => Some z
    | None => k x
    end.
Proof. reflexivity. Qed.

Lemma moved_advance p a r c :
  moved (MState p (a :: r) c) (advance (MState p (a :: r) c) a r) = true.
Proof. unfold moved, advance. simpl. apply Nat.ltb_lt. lia. Qed.

Section ExtensionLoop.
Variable ma : mstate -> (mstate -> option mstate) -> option mstate.
Variable k : mstate -> option mstate.
Hypothesis Hma : forall x k',
  ma x k' = match rest x with
            | c :: t => if ext_char c then k' (advance x c t) else None
            | [] => None
            end.
Hypothesis Hk : forall x, k x = if at_eol x then Some x else None.

Lemma star_ext_some_gen n : forall x,
  forallb ext_char (rest x) = true -> length (rest x) <= n ->
  exists z, star_loop ma true k n x = Some z /\ rest z = [].
Proof.
  induction n as [|n IH]; intros [p r c] H L; cbn [rest] in *.
  - destruct r; [|simpl in L; lia]. simpl. rewrite Hk. simpl. eauto.
  - rewrite star_loop_greedy_S, Hma. cbn [rest]. destruct r as [|a r].
    + rewrite Hk. simpl. eauto.
    + simpl in H. apply andb_true_iff in H as [Ha Hr]. rewrite Ha.
      rewrite moved_advance.
      destruct (IH (advance (MState p (a :: r) c) a r) Hr ltac:(simpl in *; lia))
        as (z & -> & Hz).
      eauto.
Qed.

Lemma star_ext_only_gen n : forall x z,
  star_loop ma true k n x = Some z -> forallb ext_char (rest x) = true.
Proof.
  induction n as [|n IH]; intros [p r c] z H; cbn [rest] in *.
  - simpl in H. rewrite Hk in H. unfold at_eol in H. simpl in H. now destruct r.
  - rewrite star_loop_greedy_S, Hma in H. cbn [rest] in H.
    destruct r as [|a r]; [reflexivity|].
    simpl. destruct (ext_char a) eqn:Ha; simpl.
    + rewrite moved_advance in H.
      destruct (star_loop ma true k n _) eqn:E.
      * now apply IH in E.
      * rewrite Hk in H. unfold at_eol in H. simpl in H. discriminate.
    + rewrite Hk in H. unfold at_eol in H. simpl in H. discriminate.
Qed.

End ExtensionLoop.

Lemma star_ext_some n x :
  forallb ext_char (rest x) = true -> length (rest x) <= n ->
  exists z, star_loop (mtch (Chr ext_char)) true (fun y => mtch Eol y (fun y => Some y)) n x
            = Some z /\ rest z = [].
Proof. apply star_ext_some_gen; reflexivity. Qed.

Lemma star_ext_only n x z :
  star_loop (mtch (Chr ext_char)) true (fun y => mtch Eol y (fun y => Some y)) n x = Some z ->
  forallb ext_char (rest x) = true.
Proof. apply star_ext_only_gen; reflexivity. Qed.

Lemma exec_extension_some before ext :
  ext <> [] -> forallb ext_char ext = true ->
  exists z, exec_at Storage.re_extension before ("."%char :: ext) = Some z /\ rest z = [].
Proof.
  intros Hne Hall. destruct ext as [|a r]; [congruence|].
  simpl in Hall. apply andb_true_iff in Hall as [Ha Hr].
  unfold exec_at, Storage.re_extension, plus, none_of, ch.
  fold ext_char. cbn [mtch rest]. rewrite eqb_char_refl.
  cbn [advance rest pre caps]. rewrite Ha.
  apply star_ext_some; simpl; [exact Hr | lia].
Qed.

Lemma exec_extension_only before after z :
  exec_at Storage.re_extension before after = Some z ->
  exists ext, after = "."%char :: ext /\ ext <> [] /\ forallb ext_char ext = true.
Proof.
  unfold exec_at, Storage.re_extension, plus, none_of, ch.
  fold ext_char. cbn [mtch rest]. intros H.
  destruct after as [|d r]; [discriminate|].
  destruct (eqb_char "." d) eqn:Ed; [|discriminate].
  apply eqb_char_eq in Ed. subst d.
  cbn [advance rest pre caps] in H.
  destruct r as [|a r]; [discriminate|].
  destruct (ext_char a) eqn:Ha; [|discriminate].
  apply star_ext_only in H. simpl in H.
  exists (a :: r). split; [reflexivity|]. split; [discriminate|].
  simpl. now rewrite Ha, H.
Qed.

Lemma replace_first_extension base : forall before ext,
  ext <> [] -> forallb ext_char ext = true ->
  replace_first_from Storage.re_extension [] before (base ++ "."%char :: ext) = base.
Proof.
  induction base as [|c base IH]; intros before ext Hne Hall.
  - cbn [app replace_first_from].
    destruct (exec_extension_some before Hne Hall) as (z & -> & ->). reflexivity.
  - cbn [app replace_first_from].
    destruct (exec_at _ _ _) eqn:E.
    + apply exec_extension_only in E as (w & Ew & _ & Hw).
      injection Ew as -> <-.
      rewrite forallb_app in Hw. simpl in Hw.
      rewrite andb_false_r in Hw. discriminate.
    + f_equal. now apply IH.
Qed.

Lemma replace_first_no_extension after : forall before,
  (forall a ext, after = a ++ "."%char :: ext -> ext <> [] ->
                 forallb ext_char ext = true -> False) ->
  replace_first_from Storage.re_extension [] before after = after.
Proof.
  induction after as [|c after IH]; intros before H.
  - reflexivity.
  - cbn [replace_first_from].
    destruct (exec_at _ _ _) eqn:E.
    + apply exec_extension_only in E as (w & Ew & Hne & Hw).
      exfalso. apply (H [] w); assumption.
    + f_equal. apply IH. intros a ext -> Hne Hw.
      apply (H (c :: a) ext); auto.
Qed.

(** X17. The name of the downloaded file.  A last extension, that is a dot
    followed to the end of the name by one or more characters other than a
    dot and a slash, is replaced by [_mariadb103.sql]; a name without one
    (no dot, a dot at the end, or a slash after the last dot) gets the
    suffix appended and keeps every character. *)
Theorem download_name_replaces_extension :
  (forall base ext,
      ext <> [] -> ~ In "/"%char ext -> ~ In "."%char ext ->
      Storage.downloadName (base ++ "."%char :: ext) = base ++ js "_mariadb103.sql") /\
  (forall fileName,
      (forall base ext, fileName = base ++ "."%char :: ext ->
                        ext = [] \/ In "/"%char ext \/ In "."%char ext) ->
      Storage.downloadName fileName = fileName ++ js "_mariadb103.sql").
Proof.
  unfold Storage.downloadName, replace_first. split.
  - intros base ext Hne H1 H2. f_equal.
    apply replace_first_extension; [exact Hne|].
    apply ext_chars_spec. now split.
  - intros fileName H. f_equal.
    apply replace_first_no_extension. intros a ext E Hne Hw.
    apply ext_chars_spec in Hw as [H1 H2].
    destruct (H a ext E) as [?|[?|?]]; contradiction.
Qed.

Lemma download_name_replaces_extension_witness :
  Storage.downloadName (js "backup.2024.sql") = js "backup.2024_mariadb103.sql" /\
  Storage.downloadName (js "dump") = js "dump_mariadb103.sql".
Proof.
  split.
  - apply (proj1 download_name_replaces_extension (js "backup.2024") (js "sql")).
    + discriminate.
    + simpl. intros H. decompose [or] H; discriminate || contradiction.
    + simpl. intros H. decompose [or] H; discriminate || contradiction.
  - apply (proj2 download_name_replaces_extension (js "dump")).
    intros base ext E. exfalso.
    assert (H : In "."%char (js "dump")) by (rewrite E; apply in_elt).
    simpl in H. decompose [or] H; discriminate || contradiction.
Defined.

Section AnalyzeRoute.
Variable convert : jsstring -> result ConversionResult.
Variable uuid : nat -> jsstring.
Variables startTime endTime completed : Storage.Date.

(** X18. A successful analysis.  When the job exists and the engine returns
    a result, the route answers with the status [completed] and the
    statistics of the result; afterwards the job has the converted text,
    the status [completed] and the completion date, its other fields being
    as before; the issues of the result follow, in their order, the issues
    the job already had; the statistics of the job are those of the result
    with the elapsed time; the jobs, issues and statistics of every other
    job are as before. *)
Theorem analyze_stores_result jobId s job r :
  Storage.getConversionJob jobId s = Some job ->
  convert (Storage.originalContent job) = Ok r ->
  fst (Storage.analyze convert uuid startTime endTime completed jobId s) = Storage.AnalyzeDone (js "completed") (res_stats r) /\
  Storage.getConversionJob jobId (snd (Storage.analyze convert uuid startTime endTime completed jobId s))
  = Some (Storage.mkJob (Storage.job_id job) (Storage.fileName job)
                        (Storage.fileSize job) (Storage.originalContent job)
                        (Some (convertedSQL r)) (js "completed")
                        (Storage.createdAt job) (Some completed)) /\
  Storage.getConversionIssues jobId (snd (Storage.analyze convert uuid startTime endTime completed jobId s))
  = Storage.getConversionIssues jobId s ++ stored_as jobId uuid 0 (res_issues r) /\
  Storage.getConversionStats jobId (snd (Storage.analyze convert uuid startTime endTime completed jobId s))
  = Some (Storage.mkStoredStats
            (uuid (length (res_issues r))) jobId
            (totalIssues (res_stats r)) (autoFixedCount (res_stats r))
            (warningsCount (res_stats r)) (errorsCount (res_stats r))
            (optimizationsCount (res_stats r))
            (Z.of_nat endTime - Z.of_nat startTime)) /\
  (forall j, j <> jobId ->
     Storage.getConversionJob j (snd (Storage.analyze convert uuid startTime endTime completed jobId s)) = Storage.getConversionJob j s /\
     Storage.getConversionIssues j (snd (Storage.analyze convert uuid startTime endTime completed jobId s))
     = Storage.getConversionIssues j s /\
     Storage.getConversionStats j (snd (Storage.analyze convert uuid startTime endTime completed jobId s))
     = Storage.getConversionStats j s).
Proof. apply analyze_completed_effect. Qed.

Lemma analyze_failed_effect jobId s job :
  Storage.getConversionJob jobId s = Some job ->
  convert (Storage.originalContent job) = Throw ->
  fst (Storage.analyze convert uuid startTime endTime completed jobId s) = Storage.Status500 (js "Failed to analyze conversion job") /\
  Storage.getConversionJob jobId (snd (Storage.analyze convert uuid startTime endTime completed jobId s))
  = Some (Storage.mkJob (Storage.job_id job) (Storage.fileName job)
                        (Storage.fileSize job) (Storage.originalContent job)
                        (Storage.convertedContent job) (js "failed")
                        (Storage.createdAt job) (Storage.completedAt job)) /\
  (forall j, j <> jobId ->
     Storage.getConversionJob j (snd (Storage.analyze convert uuid startTime endTime completed jobId s)) = Storage.getConversionJob j s) /\
  Storage.conversionIssues (snd (Storage.analyze convert uuid startTime endTime completed jobId s)) = Storage.conversionIssues s /\
  Storage.conversionStats (snd (Storage.analyze convert uuid startTime endTime completed jobId s)) = Storage.conversionStats s.
Proof.
  intros Hjob Hr. unfold Storage.analyze. rewrite Hjob, Hr. cbv zeta.
  set (u1 := Storage.mkUpdates None None None None None (Some (js "analyzing"))
                               None None).
  destruct (update_job_effect jobId u1 s) as [_ U1].
  specialize (U1 job Hjob). cbv zeta in U1.
  destruct U1 as (_ & G1 & O1 & I1 & S1 & _).
  set (s1 := snd (Storage.updateConversionJob jobId u1 s)) in *.
  set (u2 := Storage.mkUpdates _ _ _ _ _ _ _ _).
  destruct (update_job_effect jobId u2 s1) as [_ U2].
  specialize (U2 _ G1). cbv zeta in U2.
  destruct U2 as (_ & G2 & O2 & I2 & S2 & _).
  cbn [fst snd]. repeat split.
  - rewrite G2. reflexivity.
  - intros j Hj. rewrite O2 by assumption. now apply O1.
  - now rewrite I2.
  - now rewrite S2.
Qed.

(** X19. The ways an analysis fails.  For an unknown job the route answers
    404 and the store is as before.  When the engine throws, the route
    answers 500; the job has the status [failed] and its other fields,
    the converted text of an earlier run among them, are as before, so
    that a download answers as it did; the other jobs and all issues and
    statistics are as before. *)
Theorem analyze_failure_modes jobId s :
  (Storage.getConversionJob jobId s = None ->
   Storage.analyze convert uuid startTime endTime completed jobId s = (Storage.Status404 (js "Conversion job not found"), s)) /\
  (forall job,
      Storage.getConversionJob jobId s = Some job ->
      convert (Storage.originalContent job) = Throw ->
      fst (Storage.analyze convert uuid startTime endTime completed jobId s) = Storage.Status500 (js "Failed to analyze conversion job") /\
      Storage.getConversionJob jobId (snd (Storage.analyze convert uuid startTime endTime completed jobId s))
      = Some (Storage.mkJob (Storage.job_id job) (Storage.fileName job)
                            (Storage.fileSize job) (Storage.originalContent job)
                            (Storage.convertedContent job) (js "failed")
                            (Storage.createdAt job) (Storage.completedAt job)) /\
      Storage.download jobId (snd (Storage.analyze convert uuid startTime endTime completed jobId s)) = Storage.download jobId s /\
      (forall j, j <> jobId ->
         Storage.getConversionJob j (snd (Storage.analyze convert uuid startTime endTime completed jobId s))
         = Storage.getConversionJob j s) /\
      Storage.conversionIssues (snd (Storage.analyze convert uuid startTime endTime completed jobId s)) = Storage.conversionIssues s /\
      Storage.conversionStats (snd (Storage.analyze convert uuid startTime endTime completed jobId s)) = Storage.conversionStats s).
Proof.
  split.
  - intros H. unfold Storage.analyze. now rewrite H.
  - intros job Hjob Hr.
    destruct (analyze_failed_effect jobId s Hjob Hr) as (A & B & C & D & E).
    repeat split; try assumption.
    unfold Storage.download. rewrite B, Hjob. reflexivity.
Qed.

(** X20. From upload to download.  A job just created has no converted
    text: its download answers 404.  Once its analysis has succeeded with a
    text that is not empty, the download answers with that text under the
    name of the uploaded file with its extension replaced. *)
Theorem download_follows_analysis id now insertJob s r :
  let created := snd (Storage.createConversionJob id now insertJob s) in
  Storage.download id created = Storage.Status404 (js "Converted file not found") /\
  (convert (Storage.new_originalContent insertJob) = Ok r ->
   convertedSQL r <> [] ->
   Storage.download id (snd (Storage.analyze convert uuid startTime endTime completed id created))
   = Storage.FileDownload (Storage.downloadName (Storage.new_fileName insertJob))
                          (convertedSQL r)).
Proof.
  cbv zeta.
  set (job := fst (Storage.createConversionJob id now insertJob s)).
  assert (G : Storage.getConversionJob
                id (snd (Storage.createConversionJob id now insertJob s)) = Some job).
  { unfold Storage.getConversionJob, Storage.createConversionJob. cbn.
    apply get_set_same. }
  split.
  - unfold Storage.download. rewrite G. reflexivity.
  - intros Hr Hne.
    destruct (analyze_completed_effect convert uuid startTime endTime completed
                id _ G Hr) as (_ & B & _).
    unfold Storage.download. rewrite B. cbn.
    destruct (convertedSQL r); [congruence | reflexivity].
Qed.

End AnalyzeRoute.

Lemma analyze_stores_result_witness :
  exists r,
    convertMySQLToMariaDB (js "SELECT 1;") = Ok r /\
    fst (Storage.analyze convertMySQLToMariaDB uuid_example 3 8 9 (js "job-1")
                         store_example)
    = Storage.AnalyzeDone (js "completed") (res_stats r).
Proof.
  assert (H : exists r, convertMySQLToMariaDB (js "SELECT 1;") = Ok r)
    by (eexists; vm_compute; reflexivity).
  destruct H as [r H]. exists r. split; [exact H|].
  apply (@analyze_stores_result convertMySQLToMariaDB uuid_example 3 8 9 (js "job-1")
           store_example job_example r eq_refl H).
Defined.

Lemma analyze_failure_modes_witness :
  Storage.analyze failing_engine uuid_example 3 8 9 (js "job-2") store_example
  = (Storage.Status404 (js "Conversion job not found"), store_example) /\
  fst (Storage.analyze failing_engine uuid_example 3 8 9 (js "job-1") store_example)
  = Storage.Status500 (js "Failed to analyze conversion job").
Proof.
  split.
  - apply (proj1 (analyze_failure_modes failing_engine uuid_example 3 8 9
                    (js "job-2") store_example)).
    reflexivity.
  - exact (proj1 (proj2 (analyze_failure_modes failing_engine uuid_example 3 8 9
                           (js "job-1") store_example)
                    job_example eq_refl eq_refl)).
Defined.

Lemma download_follows_analysis_witness :
  exists r,
    convertMySQLToMariaDB (js "SELECT 1;") = Ok r /\
    Storage.download
      (js "job-9")
      (snd (Storage.analyze convertMySQLToMariaDB uuid_example 3 8 9 (js "job-9")
              (snd (Storage.createConversionJob
                      (js "job-9") 1
                      (Storage.mkInsertJob (js "dump.sql") 9 (js "SELECT 1;"))
                      Storage.empty))))
    = Storage.FileDownload (js "dump_mariadb103.sql") (convertedSQL r).
Proof.
  assert (H : exists r, convertMySQLToMariaDB (js "SELECT 1;") = Ok r
                        /\ convertedSQL r <> [])
    by (eexists; split; [vm_compute; reflexivity | discriminate]).
  destruct H as (r & H & Hne). exists r. split; [exact H|].
  exact (proj2 (@download_follows_analysis
                  convertMySQLToMariaDB uuid_example 3 8 9 (js "job-9") 1
                  (Storage.mkInsertJob (js "dump.sql") 9 (js "SELECT 1;"))
                  Storage.empty r) H Hne).
Defined.

Lemma join_lines_cons x l : l <> [] -> join_lines (x :: l) = x ++ nl :: join_lines l.
Proof. destruct l; [congruence | reflexivity]. Qed.

Lemma split_lines_aux_nonempty cur s : split_lines_aux cur s <> [].
Proof.
  revert cur. induction s as [|c s IH]; intros cur; simpl.
  - discriminate.
  - destruct (eqb_char c nl); [discriminate | apply IH].
Qed.

Lemma firstn_S_nonempty (A : Type) n (l : list A) : l <> [] -> firstn (S n) l <> [].
Proof. destruct l; [congruence | discriminate]. Qed.

Lemma join_split_aux s : forall cur, join_lines (split_lines_aux cur s) = rev cur ++ s.
Proof.
  induction s as [|c s IH]; intros cur; simpl.
  - now rewrite app_nil_r.
  - destruct (eqb_char c nl) eqn:E.
    + apply eqb_char_eq in E. subst c.
      rewrite join_lines_cons by apply split_lines_aux_nonempty.
      now rewrite IH.
    + rewrite IH. simpl. now rewrite <- app_assoc.
Qed.

Lemma preview_prefix_aux s : forall n cur,
  exists tail, rev cur ++ s = join_lines (firstn n (split_lines_aux cur s)) ++ tail.
Proof.
  induction s as [|c s IH]; intros n cur.
  - destruct n; simpl.
    + eexists. reflexivity.
    + rewrite firstn_nil. exists []. reflexivity.
  - destruct n as [|n]; [eexists; reflexivity|].
    cbn [split_lines_aux]. destruct (eqb_char c nl) eqn:E.
    + apply eqb_char_eq in E. subst c. cbn [firstn].
      destruct n as [|n].
      * simpl. eexists. reflexivity.
      * rewrite join_lines_cons
          by (apply firstn_S_nonempty, split_lines_aux_nonempty).
        destruct (IH (S n) []) as [tail Ht]. simpl in Ht.
        exists tail. rewrite <- app_assoc. simpl. now rewrite <- Ht.
    + destruct (IH (S n) (c :: cur)) as [tail Ht].
      exists tail. rewrite <- Ht. simpl. now rewrite <- app_assoc.
Qed.

Lemma split_lines_aux_plain x : forall cur,
  no_newline x -> split_lines_aux cur x = [rev cur ++ x].
Proof.
  induction x as [|c x IH]; intros cur H; simpl.
  - now rewrite app_nil_r.
  - destruct (eqb_char c nl) eqn:E.
    + apply eqb_char_eq in E. subst c. exfalso. apply H. now left.
    + rewrite IH by (intros Hx; apply H; now right).
      simpl. now rewrite <- app_assoc.
Qed.

Lemma split_lines_aux_line x s : forall cur,
  no_newline x ->
  split_lines_aux cur (x ++ nl :: s) = (rev cur ++ x) :: split_lines_aux [] s.
Proof.
  induction x as [|c x IH]; intros cur H; cbn [app split_lines_aux].
  - rewrite eqb_char_refl. now rewrite app_nil_r.
  - destruct (eqb_char c nl) eqn:E.
    + apply eqb_char_eq in E. subst c. exfalso. apply H. now left.
    + rewrite IH by (intros Hx; apply H; now right).
      simpl. now rewrite <- app_assoc.
Qed.

Lemma split_join l :
  l <> [] -> Forall no_newline l -> split_lines (join_lines l) = l.
Proof.
  induction l as [|x l IH]; intros Hne H; [congruence|].
  inversion H as [|? ? Hx Hl]; subst.
  destruct l as [|y l].
  - simpl. unfold split_lines. now rewrite split_lines_aux_plain.
  - rewrite join_lines_cons by discriminate.
    unfold split_lines. rewrite split_lines_aux_line by exact Hx.
    simpl rev. simpl app at 1. f_equal. apply IH; [discriminate | exact Hl].
Qed.

Lemma split_lines_aux_no_newline s : forall cur,
  no_newline cur -> Forall no_newline (split_lines_aux cur s).
Proof.
  induction s as [|c s IH]; intros cur H; simpl.
  - constructor; [|constructor]. intros Hx. apply H. now apply in_rev.
  - destruct (eqb_char c nl) eqn:E.
    + constructor.
      * intros Hx. apply H. now apply in_rev.
      * apply IH. intros [].
    + apply IH. intros [Hx|Hx]; [|now apply H].
      subst c. now rewrite eqb_char_refl in E.
Qed.

Lemma Forall_firstn (A : Type) (P : A -> Prop) n (l : list A) :
  Forall P l -> Forall P (firstn n l).
Proof.
  intros H. revert n. induction H; intros [|n]; simpl; constructor; auto.
Qed.

(** X21. The preview of a text.  It is a prefix of the text; when at least
    one line is asked for, its lines are the first [lines] lines of the
    text; it is the whole text when the text has no more lines than asked
    for; and it is empty when no line is asked for. *)
Theorem preview_is_first_lines (sql : jsstring) (lines : nat) :
  (exists tail, sql = getPreviewLines sql lines ++ tail) /\
  (1 <= lines ->
   split_lines (getPreviewLines sql lines) = firstn lines (split_lines sql)) /\
  (line_of sql <= lines -> getPreviewLines sql lines = sql) /\
  getPreviewLines sql 0 = [].
Proof.
  unfold getPreviewLines. repeat split.
  - exact (preview_prefix_aux sql lines []).
  - intros H. destruct lines as [|n]; [lia|].
    apply split_join.
    + apply firstn_S_nonempty, split_lines_aux_nonempty.
    + apply Forall_firstn. apply split_lines_aux_no_newline. intros [].
  - intros H. unfold line_of in H. rewrite firstn_all2 by exact H.
    apply (join_split_aux sql []).
Qed.

Lemma preview_is_first_lines_witness :
  split_lines (getPreviewLines (js "a;" ++ nl :: js "b;" ++ nl :: js "c;") 2)
  = firstn 2 (split_lines (js "a;" ++ nl :: js "b;" ++ nl :: js "c;")) /\
  getPreviewLines (js "a;" ++ nl :: js "b;") 20 = js "a;" ++ nl :: js "b;".
Proof.
  split.
  - apply (proj1 (proj2 (preview_is_first_lines
                           (js "a;" ++ nl :: js "b;" ++ nl :: js "c;") 2))).
    lia.
  - apply (proj1 (proj2 (proj2 (preview_is_first_lines (js "a;" ++ nl :: js "b;") 20)))).
    vm_compute. lia.
Defined.

Lemma set_fresh (V : Type) k (v : V) m :
  Storage.get k m = None -> Storage.set k v m = m ++ [(k, v)].
Proof.
  induction m as [|[k' v'] m IH]; simpl; intros H.
  - reflexivity.
  - destruct (eqb_str k' k); [discriminate|]. now rewrite IH.
Qed.

Lemma find_snoc (A : Type) (f : A -> bool) l x :
  find f (l ++ [x])
  = match find f l with
    | Some y => Some y
    | None => if f x then Some x else None
    end.
Proof.
  induction l as [|a l IH]; simpl.
  - reflexivity.
  - destruct (f a); [reflexivity | exact IH].
Qed.

(** X22. Creating a user.  The new user is found under its identifier, the
    users under other identifiers being as before.  The store does not keep
    user names apart: with a fresh identifier, the lookup by name of the new
    user still answers with an earlier user of that name when there is one,
    and with the new user otherwise; the lookup of any other name answers as
    before. *)
Theorem created_user_is_found id insertUser s :
  let user := fst (Storage.createUser id insertUser s) in
  let s' := snd (Storage.createUser id insertUser s) in
  user = Storage.mkUser id (Storage.new_username insertUser)
                        (Storage.new_password insertUser) /\
  Storage.getUser id s' = Some user /\
  (forall j, j <> id -> Storage.getUser j s' = Storage.getUser j s) /\
  (Storage.getUser id s = None ->
   Storage.getUserByUsername (Storage.new_username insertUser) s'
   = match Storage.getUserByUsername (Storage.new_username insertUser) s with
     | Some earlier => Some earlier
     | None => Some user
     end /\
   (forall name, name <> Storage.new_username insertUser ->
                 Storage.getUserByUsername name s' = Storage.getUserByUsername name s)).
Proof.
  cbv zeta. unfold Storage.createUser, Storage.getUser, Storage.getUserByUsername.
  cbn [fst snd Storage.users]. repeat split.
  - apply get_set_same.
  - intros j Hj. now apply get_set_other.
  - rewrite set_fresh by assumption.
    unfold Storage.values. rewrite map_app. cbn [map snd]. rewrite find_snoc. cbn.
    now rewrite eqb_str_refl.
  - intros name Hn. rewrite set_fresh by assumption.
    unfold Storage.values. rewrite map_app. cbn [map snd]. rewrite find_snoc. cbn.
    rewrite eqb_str_neq by congruence.
    now destruct (find _ _).
Qed.

Lemma created_user_is_found_witness :
  Storage.getUserByUsername
    (js "ann")
    (snd (Storage.createUser (js "u-2") (Storage.mkInsertUser (js "ann") (js "pw2"))
                             users_example))
  = Some (Storage.mkUser (js "u-1") (js "ann") (js "pw1")).
Proof.
  exact (proj1 (proj2 (proj2 (proj2 (created_user_is_found
                                       (js "u-2")
                                       (Storage.mkInsertUser (js "ann") (js "pw2"))
                                       users_example)))
                  eq_refl)).
Defined.
